(** * Lorry logistics calculator: the fleet-size solver and the schedule builder

    A shallow embedding of the two pure computations of the repository:

    - [calculationResult] (the [useMemo] body of [App], lines 54-162): the
      greedy earliest-available dispatch, searched over the fleet size, with
      the achievable-throughput and required-time fallbacks;
    - [GanttChart_schedules] (the [useMemo] body of [GanttChart], lines
      40-113): the same dispatch replayed for a fixed fleet, keeping the four
      phases of every trip.

    Numbers.  The source computes on JavaScript numbers.  The development
    reads every number as an exact rational ([Q]): [+], [*], [/], [Math.max],
    [Math.min], [Math.ceil], [<=], [>] and [===] are the rational operations
    and comparisons ([===] on numbers is [Qeq_bool]: 1/2 and 2/4 are the same
    number).  Rounding, [NaN] and infinite inputs are outside the model; the
    only infinity the model keeps is the result field [lorriesNeeded], which
    the source sets to [Infinity] on purpose.  The deadline guard alone is
    also given on binary64 numbers ([pastDeadline64]), to check the tolerance
    on the windows the application offers.

    Around them, the small functions the pages use: the formatters
    [formatTime] and [formatDecimalHours], the number box and the track of
    [InputSlider], and the state updates of [App] with the bounds its
    sliders are given.

    Loops.  [for] loops are structural recursions on the number of
    iterations left.  The [while (true)] loop of the infeasible branch takes
    a bound on its iterations ([fuel]); it is proved to end, with the same
    answer, under every bound from [fuelFor] on. *)

From Stdlib Require Import QArith Qround Qminmax Lqa Lia ZArith String Ascii DecimalString
  Floats Uint63.
From stdpp Require Import base option list.

Local Open Scope Q_scope.

(** ** Data model ([types.ts]) *)

Record CalculatorInputs := {
  material : Q;        (* tonnes *)
  distance : Q;        (* miles *)
  time : Q;            (* hours *)
  loadTime : Q;        (* minutes *)
  startTime : string;  (* HH:MM *)
  pricePerTonne : Q;
  costPerLorry : Q
}.

Record AdvancedSettings := {
  lorryCapacity : Q;   (* tonnes *)
  avgSpeed : Q;        (* mph *)
  tipTime : Q          (* minutes *)
}.

(** [lorriesNeeded] is a count or the sentinel [Infinity]. *)
Inductive count :=
| Finite (n : Z)
| Infinity.

Definition isFinite (c : count) : bool :=
  match c with Finite _ => true | Infinity => false end.

(** The optional fields ([achievableMaterial?], [achievableValue?],
    [requiredTime?]) are [None] when the object literal leaves them out or
    sets them to [undefined]. *)
Record CalculationResult := {
  lorriesNeeded : count;
  totalTripsNeeded : Z;
  timePerTrip : Q;
  tripsPerLorry : Q;
  totalValue : Q;
  totalCost : Q;
  achievableMaterial : option Q;
  achievableValue : option Q;
  requiredTime : option Q
}.

(** ** The JavaScript array helpers the loops use *)

(** [Math.min(...xs)]; [None] is the [Infinity] of an empty argument list. *)
Definition Math_min (xs : list Q) : option Q :=
  match xs with
  | [] => None
  | x :: rest => Some (foldl Qmin x rest)
  end.

(** [xs.indexOf(x)]: the first index holding a number [===] to [x]; [None]
    is the source's [-1]. *)
Fixpoint indexOf (xs : list Q) (x : Q) : option nat :=
  match xs with
  | [] => None
  | y :: rest => if Qeq_bool y x then Some O else S <$> indexOf rest x
  end.

(** [a > b] on numbers. *)
Definition Qgt_bool (a b : Q) : bool := negb (Qle_bool a b).

(** ** One trip of the dispatch loop (App lines 78-92) *)

(** The scalars of one simulation run. *)
Record Fleet := {
  lorriesNextAvailableTime : list Q;
  loadingBayFreeAt : Q
}.

(** [new Array(numLorries).fill(0)] and [loadingBayFreeAt = 0]. *)
Definition newFleet (numLorries : Z) : Fleet :=
  {| lorriesNextAvailableTime := replicate (Z.to_nat numLorries) 0;
     loadingBayFreeAt := 0 |}.

(** What one iteration computes before it decides (lines 78-82). *)
Record Trip := {
  earliestLorryTime : Q;
  earliestLorryIdx : option nat;
  bayFreeBefore : Q;
  loadStartTime : Q;
  loadEndTime : Q
}.

Section Dispatch.
Variables (loadTimeHours travelTimeHours tipTimeHours time_ : Q).

(** Lines 78-82.  On an empty fleet [Math.min()] is [Infinity] and so are
    the load start and end: the model has no such time and returns [None];
    the guarded loops treat it as a load end past every deadline. *)
Definition planTrip (s : Fleet) : option Trip :=
  match Math_min (lorriesNextAvailableTime s) with
  | None => None
  | Some t =>
      let loadStart := Qmax t (loadingBayFreeAt s) in
      Some {| earliestLorryTime := t;
              earliestLorryIdx := indexOf (lorriesNextAvailableTime s) t;
              bayFreeBefore := loadingBayFreeAt s;
              loadStartTime := loadStart;
              loadEndTime := loadStart + loadTimeHours |}
  end.

(** Line 91. *)
Definition lorryReturnTime (d : Trip) : Q :=
  loadEndTime d + travelTimeHours + tipTimeHours + travelTimeHours.

(** [arr[idx] = v]; writing at [-1] leaves the elements as they are. *)
Definition setAt (xs : list Q) (idx : option nat) (v : Q) : list Q :=
  match idx with
  | Some i => <[i := v]> xs
  | None => xs
  end.

(** Lines 89-92. *)
Definition commitTrip (s : Fleet) (d : Trip) : Fleet :=
  {| lorriesNextAvailableTime :=
       setAt (lorriesNextAvailableTime s) (earliestLorryIdx d) (lorryReturnTime d);
     loadingBayFreeAt := loadEndTime d |}.

(** Line 84 (and 120): [loadEndTime > time + 0.0001]. *)
Definition pastDeadline (d : Trip) : bool :=
  Qgt_bool (loadEndTime d) (time_ + (1 # 10000)).

(** The inner loop of the search (lines 77-93): [possible], and the trips
    dispatched before the loop ended (a ghost log: the source keeps only
    the scalars). *)
Fixpoint tryTrips (remaining : nat) (s : Fleet) : bool * list Trip :=
  match remaining with
  | O => (true, [])
  | S k =>
      match planTrip s with
      | None => (false, [])
      | Some d =>
          if pastDeadline d then (false, [])
          else let r := tryTrips k (commitTrip s d) in (fst r, d :: snd r)
      end
  end.

(** The same loop without the deadline check (lines 132-145 without the
    [requiredTime] bookkeeping): the greedy dispatch as such. *)
Fixpoint dispatchAll (remaining : nat) (s : Fleet) : list Trip :=
  match remaining with
  | O => []
  | S k =>
      match planTrip s with
      | None => []
      | Some d => d :: dispatchAll k (commitTrip s d)
      end
  end.

(** The admission loop [while (true)] of lines 114-126.  [fuel] bounds the
    number of iterations; [None] means the bound was reached before the
    [break]. *)
Fixpoint admitTrips (fuel : nat) (s : Fleet) (achievableTrips : Z) : option Z :=
  match fuel with
  | O => None
  | S f =>
      match planTrip s with
      | None => Some achievableTrips
      | Some d =>
          if pastDeadline d then Some achievableTrips
          else admitTrips f (commitTrip s d) (achievableTrips + 1)%Z
      end
  end.

(** Lines 129-145: the load end of the last of [remaining] trips, no
    deadline check.  (The fleet has at least 50 lorries there, so
    [planTrip] answers.) *)
Fixpoint requiredLoop (remaining : nat) (s : Fleet) (requiredTime_ : Q) : Q :=
  match remaining with
  | O => requiredTime_
  | S k =>
      match planTrip s with
      | None => requiredTime_
      | Some d =>
          requiredLoop k (commitTrip s d)
            (match k with O => loadEndTime d | S _ => requiredTime_ end)
      end
  end.

(** Lines 73-98 for one candidate. *)
Definition possible (totalTrips : Z) (numLorries : Z) : bool :=
  fst (tryTrips (Z.to_nat totalTrips) (newFleet numLorries)).

(** The outer loop (lines 72-99), [candidates] fleet sizes from
    [numLorries] on. *)
Fixpoint searchFleet (totalTrips : Z) (candidates : nat) (numLorries : Z) : count :=
  match candidates with
  | O => Infinity
  | S c =>
      if possible totalTrips numLorries then Finite numLorries
      else searchFleet totalTrips c (numLorries + 1)%Z
  end.
End Dispatch.

(** ** The solver ([calculationResult], App lines 54-162) *)

(** Line 58. *)
Definition degenerate (inputs : CalculatorInputs) (advancedSettings : AdvancedSettings) : bool :=
  Qle_bool (lorryCapacity advancedSettings) 0
  || Qle_bool (avgSpeed advancedSettings) 0
  || Qle_bool (time inputs) 0
  || Qle_bool (loadTime inputs) 0.

(** Line 59. *)
Definition zeroResult : CalculationResult :=
  {| lorriesNeeded := Finite 0; totalTripsNeeded := 0; timePerTrip := 0;
     tripsPerLorry := 0; totalValue := 0; totalCost := 0;
     achievableMaterial := Some 0; achievableValue := Some 0;
     requiredTime := None |}.

Section Solver.
Variables (inputs : CalculatorInputs) (advancedSettings : AdvancedSettings).

(** Lines 62-67 and 70. *)
Definition tripsFor : Z := Qceiling (material inputs / lorryCapacity advancedSettings).
Definition travelTimeHoursOf : Q := distance inputs / avgSpeed advancedSettings.
Definition roundTripTimeHoursOf : Q := travelTimeHoursOf * 2.
Definition loadTimeHoursOf : Q := loadTime inputs / 60.
Definition tipTimeHoursOf : Q := tipTime advancedSettings / 60.
Definition timePerTripOf : Q := roundTripTimeHoursOf + loadTimeHoursOf + tipTimeHoursOf.
Definition maxLorriesToTest : Z := Z.max 50 tripsFor.

(** The candidate test and the search at these parameters. *)
Definition feasibleWith (numLorries : Z) : bool :=
  possible loadTimeHoursOf travelTimeHoursOf tipTimeHoursOf (time inputs) tripsFor numLorries.

Definition lorriesNeededOf : count :=
  searchFleet loadTimeHoursOf travelTimeHoursOf tipTimeHoursOf (time inputs)
    tripsFor (Z.to_nat maxLorriesToTest) 1.

(** Lines 108-126. *)
Definition achievableTripsOf (fuel : nat) : option Z :=
  admitTrips loadTimeHoursOf travelTimeHoursOf tipTimeHoursOf (time inputs)
    fuel (newFleet maxLorriesToTest) 0.

(** Lines 129-145. *)
Definition requiredTimeOf : Q :=
  requiredLoop loadTimeHoursOf travelTimeHoursOf tipTimeHoursOf
    (Z.to_nat tripsFor) (newFleet maxLorriesToTest) 0.

(** The whole computation.  [fuel] bounds the [while (true)] loop of the
    infeasible branch and is not looked at anywhere else; [None] means that
    loop was cut short. *)
Definition calculationResult (fuel : nat) : option CalculationResult :=
  if degenerate inputs advancedSettings then Some zeroResult
  else
    match lorriesNeededOf with
    | Finite n =>
        Some {| lorriesNeeded := Finite n;
                totalTripsNeeded := tripsFor;
                timePerTrip := timePerTripOf;
                tripsPerLorry :=
                  if (0 <? n)%Z then inject_Z tripsFor / inject_Z n else 0;
                totalValue := material inputs * pricePerTonne inputs;
                totalCost := inject_Z n * costPerLorry inputs;
                achievableMaterial := None;
                achievableValue := None;
                requiredTime := None |}
    | Infinity =>
        match achievableTripsOf fuel with
        | None => None
        | Some achievableTrips =>
            let achievableMaterial_ := inject_Z achievableTrips * lorryCapacity advancedSettings in
            let achievableValue_ := achievableMaterial_ * pricePerTonne inputs in
            Some {| lorriesNeeded := Infinity;
                    totalTripsNeeded := tripsFor;
                    timePerTrip := timePerTripOf;
                    tripsPerLorry := 0;
                    totalValue := material inputs * pricePerTonne inputs;
                    totalCost := 0;
                    achievableMaterial := Some achievableMaterial_;
                    achievableValue := Some achievableValue_;
                    requiredTime :=
                      if Qgt_bool requiredTimeOf (time inputs)
                      then Some requiredTimeOf else None |}
        end
    end.
End Solver.

(** ** The schedule builder ([GanttChart], lines 40-113) *)

Inductive PhaseType := loading | travel | tipping.

(** [end] is a keyword here: the field is [end_]. *)
Record TripPhase := {
  start : Q;
  end_ : Q;
  type : PhaseType
}.

Module Lorry.
(** The objects of the local array [lorries] (line 55). *)
Record t := {
  id : Z;
  trips : list (list TripPhase);
  nextAvailableTime : Q
}.
End Lorry.

Module LorrySchedule.
Record t := {
  id : Z;
  trips : list (list TripPhase)
}.
End LorrySchedule.

(** [xs.findIndex(p)]; [None] is [-1]. *)
Fixpoint findIndex {A} (p : A -> bool) (xs : list A) : option nat :=
  match xs with
  | [] => None
  | y :: rest => if p y then Some O else S <$> findIndex p rest
  end.

(** [xs.pop()] as a function: the array without its last element. *)
Definition pop {A} (xs : list A) : list A := removelast xs.

(** A stable sort by [a.id - b.id] (line 110), as insertion of each entry
    before the first one whose id is not smaller. *)
Fixpoint insertById (x : LorrySchedule.t) (xs : list LorrySchedule.t) : list LorrySchedule.t :=
  match xs with
  | [] => [x]
  | y :: rest =>
      if (LorrySchedule.id x <=? LorrySchedule.id y)%Z then x :: y :: rest
      else y :: insertById x rest
  end.

Definition sortById (xs : list LorrySchedule.t) : list LorrySchedule.t :=
  foldr insertById [] xs.

Module Gantt.
Section Builder.
Variables (loadTimeHours travelTimeHours tipTimeHours : Q).

(** The local state of the loop: the array [lorries] and
    [loadingBayFreeAt]. *)
Record Yard := {
  lorries : list Lorry.t;
  loadingBayFreeAt : Q
}.

(** Lines 55-61: [Array.from({length: lorriesNeeded}, (_, i) => ...)]. *)
Definition newYard (lorriesNeeded_ : Z) : Yard :=
  {| lorries :=
       imap (fun i _ => {| Lorry.id := Z.of_nat i + 1; Lorry.trips := [];
                           Lorry.nextAvailableTime := 0 |})
            (replicate (Z.to_nat lorriesNeeded_) tt);
     loadingBayFreeAt := 0 |}.

(** Lines 75-80. *)
Definition tripPhasesOf (tripStartTime : Q) : list TripPhase :=
  let loadEnd := tripStartTime + loadTimeHours in
  let travelToTipEnd := loadEnd + travelTimeHours in
  let tipEnd := travelToTipEnd + tipTimeHours in
  let tripEndTime := tipEnd + travelTimeHours in
  [ {| start := tripStartTime; end_ := loadEnd; type := loading |};
    {| start := loadEnd; end_ := travelToTipEnd; type := travel |};
    {| start := travelToTipEnd; end_ := tipEnd; type := tipping |};
    {| start := tipEnd; end_ := tripEndTime; type := travel |} ].

(** One iteration (lines 64-83).  [None] is the [TypeError] of reading
    [nextAvailableTime] of [lorries[-1]].  The first component is the ghost
    record of the decision, the same fields as the solver's. *)
Definition scheduleTrip (y : Yard) : option (Trip * Yard) :=
  earliestLorryTime_ ← Math_min (Lorry.nextAvailableTime <$> lorries y);
  earliestLorryIdx_ ←
    findIndex (fun l => Qeq_bool (Lorry.nextAvailableTime l) earliestLorryTime_) (lorries y);
  nextAvailableLorry ← lorries y !! earliestLorryIdx_;
  let tripStartTime := Qmax (Lorry.nextAvailableTime nextAvailableLorry) (loadingBayFreeAt y) in
  let loadEnd := tripStartTime + loadTimeHours in
  let travelToTipEnd := loadEnd + travelTimeHours in
  let tipEnd := travelToTipEnd + tipTimeHours in
  let tripEndTime := tipEnd + travelTimeHours in
  Some ({| earliestLorryTime := earliestLorryTime_;
           earliestLorryIdx := Some earliestLorryIdx_;
           bayFreeBefore := loadingBayFreeAt y;
           loadStartTime := tripStartTime;
           loadEndTime := loadEnd |},
        {| lorries :=
             <[earliestLorryIdx_ :=
                 {| Lorry.id := Lorry.id nextAvailableLorry;
                    Lorry.trips := Lorry.trips nextAvailableLorry ++ [tripPhasesOf tripStartTime];
                    Lorry.nextAvailableTime := tripEndTime |}]> (lorries y);
           loadingBayFreeAt := loadEnd |}).

(** Lines 63-84. *)
Fixpoint scheduleTrips (remaining : nat) (y : Yard) : option (list Trip * Yard) :=
  match remaining with
  | O => Some ([], y)
  | S k =>
      '(d, y') ← scheduleTrip y;
      '(log, y'') ← scheduleTrips k y';
      Some (d :: log, y'')
  end.
End Builder.

(** Lines 87-94: drop the return leg that ends a lorry's last trip. *)
Definition dropFinalReturn (lorry : Lorry.t) : Lorry.t :=
  match last (Lorry.trips lorry) with
  | None => lorry
  | Some lastTrip =>
      match last lastTrip with
      | Some {| type := travel |} =>
          {| Lorry.id := Lorry.id lorry;
             Lorry.trips := removelast (Lorry.trips lorry) ++ [pop lastTrip];
             Lorry.nextAvailableTime := Lorry.nextAvailableTime lorry |}
      | _ => lorry
      end
  end.

(** Lines 97-106. *)
Definition latestEnd (calculatedMaxTime : Q) (ls : list Lorry.t) : Q :=
  foldl (fun acc lorry =>
           foldl (fun acc trip =>
                    foldl (fun acc phase =>
                             if Qgt_bool (end_ phase) acc then end_ phase else acc)
                          acc trip)
                 acc (Lorry.trips lorry))
        calculatedMaxTime ls.

(** Line 109. *)
Definition toSchedule (lorry : Lorry.t) : LorrySchedule.t :=
  {| LorrySchedule.id := Lorry.id lorry; LorrySchedule.trips := Lorry.trips lorry |}.

(** What the [useMemo] of lines 40-113 returns. *)
Record Chart := {
  schedules : list LorrySchedule.t;
  maxTime : Q
}.

(** The whole [useMemo] (lines 40-113), with the ghost log of the loop.
    [None] is the [TypeError] of [scheduleTrip]. *)
Definition build (inputs : CalculatorInputs) (result : CalculationResult)
    (advancedSettings : AdvancedSettings) : option (list Trip * Chart) :=
  match lorriesNeeded result with
  | Infinity => Some ([], {| schedules := []; maxTime := time inputs |})
  | Finite n =>
      if (n <=? 0)%Z then Some ([], {| schedules := []; maxTime := time inputs |})
      else
        let loadTimeHours := loadTime inputs / 60 in
        let travelTimeHours := distance inputs / avgSpeed advancedSettings in
        let tipTimeHours := tipTime advancedSettings / 60 in
        '(log, y) ← scheduleTrips loadTimeHours travelTimeHours tipTimeHours
                      (Z.to_nat (totalTripsNeeded result)) (newYard n);
        let lorries_ := dropFinalReturn <$> lorries y in
        let calculatedMaxTime := latestEnd (time inputs) lorries_ in
        Some (log,
              {| schedules := sortById (toSchedule <$> lorries_);
                 maxTime := inject_Z (Qceiling calculatedMaxTime) |})
  end.

(** The component's own reading of its memo: the schedules. *)
Definition GanttChart_schedules (inputs : CalculatorInputs) (result : CalculationResult)
    (advancedSettings : AdvancedSettings) : option (list LorrySchedule.t) :=
  (fun r => schedules (snd r)) <$> build inputs result advancedSettings.
End Gantt.

(** Line 179 of [App]: what the application calls a feasible result. *)
Definition isFeasible (r : CalculationResult) : bool :=
  match lorriesNeeded r with
  | Finite n => (0 <? n)%Z
  | Infinity => false
  end.

(** * The drawing of the chart *)

(** The bar of a phase (lines 181-189 of [GanttChart]): its [left] edge and
    the [width] it is styled with ([width > 0 ? width : 0]), in percent of
    the track. *)
Definition phaseLeft (maxTime : Q) (phase : TripPhase) : Q :=
  (start phase / maxTime) * 100.

Definition phaseWidth (maxTime : Q) (phase : TripPhase) : Q :=
  let width := ((end_ phase - start phase) / maxTime) * 100 in
  if Qgt_bool width 0 then width else 0.

(** The deadline marker (line 170). *)
Definition deadlineLeft (maxTime : Q) (inputs : CalculatorInputs) : Q :=
  (time inputs / maxTime) * 100.

(** * The formatters *)

(** [Math.round]: the nearest integer, a half rounded up. *)
Definition Math_round (x : Q) : Z := Qfloor (x + (1 # 2)).

(** [String(n)] and [`${n}`] for an integer [n]: its decimal digits, with a
    minus sign when negative.  (The source's numbers print this way below
    10^21.) *)
Definition String_ (n : Z) : string := NilZero.string_of_int (Z.to_int n).

(** [s.padStart(targetLength, padString)] for a one-character
    [padString]. *)
Definition padStart (s : string) (targetLength : nat) (padString : ascii) : string :=
  String.append
    (string_of_list_ascii (replicate (targetLength - String.length s) padString)) s.

(** [formatTime] of [GanttChart] (lines 23-28): hours as [HH:MM].  [%] is
    the remainder with the sign of the dividend, [Z.rem]. *)
Definition formatTime (hours : Q) : string :=
  let totalMinutes := Math_round (hours * 60) in
  let h := Qfloor (inject_Z totalMinutes / 60) in
  let m := Z.rem totalMinutes 60 in
  (padStart (String_ h) 2 "0" ++ ":" ++ padStart (String_ m) 2 "0")%string.

(** [formatDecimalHours] of [App] (lines 10-21).  [isNaN] is never true of a
    rational. *)
Definition formatDecimalHours (decimalHours : Q) : string :=
  if Qgt_bool 0 decimalHours then ""%string
  else
    let hours := Qfloor decimalHours in
    let minutes := Math_round ((decimalHours - inject_Z hours) * 60) in
    let parts :=
      (if (0 <? hours)%Z
       then [(String_ hours ++ " hour" ++ (if negb (hours =? 1)%Z then "s" else ""))%string]
       else [])
      ++ (if (0 <? minutes)%Z
          then [(String_ minutes ++ " minute"
                 ++ (if negb (minutes =? 1)%Z then "s" else ""))%string]
          else []) in
    match parts with
    | [] => "0 minutes"%string
    | _ => String.concat " " parts
    end.

Module ResultsCard.
(** [formatDecimalHours] of [ResultsCard] (lines 10-30; the service module
    has the same text, lines 4-24): the argument may be [undefined]
    ([None]), and what is not a duration prints as [N/A]. *)
Definition formatDecimalHours (decimalHours : option Q) : string :=
  match decimalHours with
  | None => "N/A"%string
  | Some decimalHours =>
      if Qgt_bool 0 decimalHours then "N/A"%string
      else
        let hours := Qfloor decimalHours in
        let minutes := Math_round ((decimalHours - inject_Z hours) * 60) in
        let parts :=
          (if (0 <? hours)%Z
           then [(String_ hours ++ " hour"
                  ++ (if negb (hours =? 1)%Z then "s" else ""))%string]
           else [])
          ++ (if (0 <? minutes)%Z
              then [(String_ minutes ++ " minute"
                     ++ (if negb (minutes =? 1)%Z then "s" else ""))%string]
              else []) in
        match parts with
        | [] => "0 minutes"%string
        | _ => String.concat " " parts
        end
  end.

(** What the card shows under a result that is not feasible (lines 48-64;
    line 34 is [isFeasible], word for word).  The achievable target is shown
    when [result.achievableMaterial > 0] ([undefined > 0] is false), and
    inside it the required time when [result.requiredTime] is truthy: a
    number other than 0. *)
Definition showsAchievable (result : CalculationResult) : bool :=
  negb (isFeasible result)
  && match achievableMaterial result with
     | Some a => Qgt_bool a 0
     | None => false
     end.

Definition showsRequiredTime (result : CalculationResult) : bool :=
  showsAchievable result
  && match requiredTime result with
     | Some t => negb (Qeq_bool t 0)
     | None => false
     end.
End ResultsCard.

(** * The input controls *)

Module InputSlider.
(** [handleNumberChange] (lines 18-23).  [val] is
    [parseFloat(e.target.value)], [None] for [NaN]; the result is the value
    [onChange] is called with, [None] when it is not called. *)
Definition handleNumberChange (min max : Q) (val : option Q) : option Q :=
  match val with
  | None => None
  | Some v => Some (Qmax min (Qmin max v))
  end.

(** Line 25: the filled share of the track, in percent.  (For [max = min]
    the source divides by zero; the model is meant for [min < max].) *)
Definition backgroundSize (value min max : Q) : Q :=
  ((value - min) * 100) / (max - min).
End InputSlider.

(** The numeric keys of the two state records. *)
Inductive InputName :=
  Material | PricePerTonne | CostPerLorry | Distance | Time | LoadTime.

Inductive AdvancedName := LorryCapacity | AvgSpeed | TipTime.

(** [handleInputChange] of [App] (lines 46-48), for a numeric key:
    [{...prev, [name]: value}]. *)
Definition handleInputChange (name : InputName) (value : Q)
    (prev : CalculatorInputs) : CalculatorInputs :=
  match name with
  | Material =>
      {| material := value; distance := distance prev; time := time prev;
         loadTime := loadTime prev; startTime := startTime prev;
         pricePerTonne := pricePerTonne prev; costPerLorry := costPerLorry prev |}
  | PricePerTonne =>
      {| material := material prev; distance := distance prev; time := time prev;
         loadTime := loadTime prev; startTime := startTime prev;
         pricePerTonne := value; costPerLorry := costPerLorry prev |}
  | CostPerLorry =>
      {| material := material prev; distance := distance prev; time := time prev;
         loadTime := loadTime prev; startTime := startTime prev;
         pricePerTonne := pricePerTonne prev; costPerLorry := value |}
  | Distance =>
      {| material := material prev; distance := value; time := time prev;
         loadTime := loadTime prev; startTime := startTime prev;
         pricePerTonne := pricePerTonne prev; costPerLorry := costPerLorry prev |}
  | Time =>
      {| material := material prev; distance := distance prev; time := value;
         loadTime := loadTime prev; startTime := startTime prev;
         pricePerTonne := pricePerTonne prev; costPerLorry := costPerLorry prev |}
  | LoadTime =>
      {| material := material prev; distance := distance prev; time := time prev;
         loadTime := value; startTime := startTime prev;
         pricePerTonne := pricePerTonne prev; costPerLorry := costPerLorry prev |}
  end.

(** [handleAdvancedChange] of [App] (lines 50-52). *)
Definition handleAdvancedChange (name : AdvancedName) (value : Q)
    (prev : AdvancedSettings) : AdvancedSettings :=
  match name with
  | LorryCapacity =>
      {| lorryCapacity := value; avgSpeed := avgSpeed prev; tipTime := tipTime prev |}
  | AvgSpeed =>
      {| lorryCapacity := lorryCapacity prev; avgSpeed := value; tipTime := tipTime prev |}
  | TipTime =>
      {| lorryCapacity := lorryCapacity prev; avgSpeed := avgSpeed prev; tipTime := value |}
  end.

(** The [min] and [max] that [App] gives to the slider of each key (lines
    226-231 and 241-243). *)
Definition inputBounds (name : InputName) : Q * Q :=
  match name with
  | Material => (10, 2000)
  | PricePerTonne => (1, 50)
  | CostPerLorry => (100, 1000)
  | Distance => (1, 100)
  | Time => (1, 12)
  | LoadTime => (5, 100)
  end.

Definition advancedBounds (name : AdvancedName) : Q * Q :=
  match name with
  | LorryCapacity => (5, 40)
  | AvgSpeed => (10, 70)
  | TipTime => (5, 60)
  end.

(** An edit of the number box of one slider: the text parsed, [None] when
    it is not a number. *)
Inductive Edit :=
| EditInput (name : InputName) (val : option Q)
| EditAdvanced (name : AdvancedName) (val : option Q).

(** What an edit does to the state of [App]: the slider's
    [handleNumberChange] with its bounds, wired to the handler of its key
    ([onChange={(val) => handleInputChange(name, val)}]). *)
Definition applyEdit (st : CalculatorInputs * AdvancedSettings) (e : Edit)
    : CalculatorInputs * AdvancedSettings :=
  match e with
  | EditInput name val =>
      match InputSlider.handleNumberChange
              (fst (inputBounds name)) (snd (inputBounds name)) val with
      | Some v => (handleInputChange name v (fst st), snd st)
      | None => st
      end
  | EditAdvanced name val =>
      match InputSlider.handleNumberChange
              (fst (advancedBounds name)) (snd (advancedBounds name)) val with
      | Some v => (fst st, handleAdvancedChange name v (snd st))
      | None => st
      end
  end.

(** * Vocabulary of the properties *)

(** ** Inputs used as examples *)

(** The initial state of [App] (lines 24-38): 300 t over 20 miles in a 3 h
    window. *)
Definition defaultInputs : CalculatorInputs :=
  {| material := 300; distance := 20; time := 3; loadTime := 10;
     startTime := "08:00"; pricePerTonne := 15; costPerLorry := 600 |}.

Definition defaultSettings : AdvancedSettings :=
  {| lorryCapacity := 20; avgSpeed := 31; tipTime := 5 |}.

(** The same job in a window of half an hour: no fleet is large enough. *)
Definition shortWindow : CalculatorInputs :=
  {| material := 300; distance := 20; time := 1 # 2; loadTime := 10;
     startTime := "08:00"; pricePerTonne := 15; costPerLorry := 600 |}.

(** ** The guard on binary64 numbers *)

(** Line 84 on the numbers of the source.  The literal [0.0001] is the
    double 0x1.a36e2eb1c432dp-14. *)
Definition pastDeadline64 (time_ loadEndTime_ : float) : bool :=
  PrimFloat.ltb (PrimFloat.add time_ 0x1.a36e2eb1c432dp-14%float) loadEndTime_.

(** The windows the slider of [App] offers (line 229 of the file: [min] 1,
    [max] 12, [step] 0.25). *)
Definition sliderWindows : list float :=
  (fun k => PrimFloat.div (PrimFloat.of_uint63 (Uint63.of_Z (Z.of_nat k))) 4%float)
    <$> seq 4 45.

(** ** The dispatch *)

(** The vehicle choice of every loop: the minimum next-available time, and
    among the lorries that have it the one of lowest index. *)
Definition earliestAt (xs : list Q) (m : Q) (i : nat) : Prop :=
  xs !! i = Some m
  /\ (forall (j : nat) (z : Q), xs !! j = Some z -> m <= z)
  /\ (forall (j : nat) (z : Q), (j < i)%nat -> xs !! j = Some z -> m < z).

(** The loading phase of a trip occupies the bay on [loadStart, loadEnd). *)
Definition loadingAt (d : Trip) (t : Q) : Prop :=
  loadStartTime d <= t /\ t < loadEndTime d.

(** Each trip of a log starts loading when the bay is free, and frees it
    when its own loading ends. *)
Fixpoint chained (loadTimeHours : Q) (bay : Q) (log : list Trip) : Prop :=
  match log with
  | [] => True
  | d :: rest =>
      bay <= loadStartTime d
      /\ loadEndTime d = loadStartTime d + loadTimeHours
      /\ chained loadTimeHours (loadEndTime d) rest
  end.

(** The fleet after [k] trips of the plain dispatch. *)
Fixpoint fleetAfter (loadTimeHours travelTimeHours tipTimeHours : Q) (k : nat) (s : Fleet) : Fleet :=
  match k with
  | O => s
  | S k' =>
      match planTrip loadTimeHours s with
      | None => s
      | Some d =>
          fleetAfter loadTimeHours travelTimeHours tipTimeHours k'
            (commitTrip travelTimeHours tipTimeHours s d)
      end
  end.

(** How many lorries are available by time [t]. *)
Fixpoint readyBy (t : Q) (xs : list Q) : nat :=
  match xs with
  | [] => O
  | x :: rest => ((if Qle_bool x t then 1 else 0) + readyBy t rest)%nat
  end.

(** Fleet [b] is ahead of fleet [a]: its bay is free no later, and by every
    time it has at least as many lorries available. *)
Definition ahead (a b : Fleet) : Prop :=
  loadingBayFreeAt b <= loadingBayFreeAt a
  /\ forall t : Q,
       (readyBy t (lorriesNextAvailableTime a) <= readyBy t (lorriesNextAvailableTime b))%nat.

(** ** The admission loop *)

(** The number of iterations that is always enough: one more than the load
    durations that fit in the tolerated window. *)
Definition enoughFuel (loadTimeHours time_ : Q) : nat :=
  S (Z.to_nat (Qfloor ((time_ + (1 # 10000)) / loadTimeHours))).

(** The number of loop iterations after which [calculationResult] has an
    answer whatever the branch. *)
Definition fuelFor (inputs : CalculatorInputs) : nat :=
  enoughFuel (loadTimeHoursOf inputs) (time inputs).

(** The result of the infeasible branch, given the count of the admission
    loop (lines 147-160). *)
Definition infeasibleResult (inputs : CalculatorInputs) (advancedSettings : AdvancedSettings)
    (achievableTrips : Z) : CalculationResult :=
  {| lorriesNeeded := Infinity;
     totalTripsNeeded := tripsFor inputs advancedSettings;
     timePerTrip := timePerTripOf inputs advancedSettings;
     tripsPerLorry := 0;
     totalValue := material inputs * pricePerTonne inputs;
     totalCost := 0;
     achievableMaterial := Some (inject_Z achievableTrips * lorryCapacity advancedSettings);
     achievableValue :=
       Some (inject_Z achievableTrips * lorryCapacity advancedSettings * pricePerTonne inputs);
     requiredTime :=
       if Qgt_bool (requiredTimeOf inputs advancedSettings) (time inputs)
       then Some (requiredTimeOf inputs advancedSettings) else None |}.

(** ** The builder *)

(** The scalars a yard stands for. *)
Definition fleetOf (y : Gantt.Yard) : Fleet :=
  {| lorriesNextAvailableTime := Lorry.nextAvailableTime <$> Gantt.lorries y;
     loadingBayFreeAt := Gantt.loadingBayFreeAt y |}.

(** The trips a log gives to the lorry at index [i], as the builder records
    them. *)
Fixpoint tripsOf (loadTimeHours travelTimeHours tipTimeHours : Q)
    (i : nat) (log : list Trip) : list (list TripPhase) :=
  match log with
  | [] => []
  | d :: rest =>
      if decide (earliestLorryIdx d = Some i)
      then Gantt.tripPhasesOf loadTimeHours travelTimeHours tipTimeHours (loadStartTime d)
           :: tripsOf loadTimeHours travelTimeHours tipTimeHours i rest
      else tripsOf loadTimeHours travelTimeHours tipTimeHours i rest
  end.

(** What a run of the builder leaves in the yard, lorry by lorry. *)
Definition extends (loadTimeHours travelTimeHours tipTimeHours : Q)
    (log : list Trip) (y y' : Gantt.Yard) : Prop :=
  length (Gantt.lorries y') = length (Gantt.lorries y)
  /\ forall (i : nat) (lorry : Lorry.t),
       Gantt.lorries y !! i = Some lorry ->
       exists lorry' : Lorry.t,
         Gantt.lorries y' !! i = Some lorry'
         /\ Lorry.id lorry' = Lorry.id lorry
         /\ Lorry.trips lorry'
            = Lorry.trips lorry ++ tripsOf loadTimeHours travelTimeHours tipTimeHours i log.

(** The number of trips recorded in a list of lorries. *)
Definition tripTotal (ls : list Lorry.t) : nat :=
  sum_list_with (fun l => length (Lorry.trips l)) ls.

(** The three phases left of a trip once its return leg is dropped. *)
Definition outboundPhasesOf (loadTimeHours travelTimeHours tipTimeHours : Q)
    (tripStartTime : Q) : list TripPhase :=
  pop (Gantt.tripPhasesOf loadTimeHours travelTimeHours tipTimeHours tripStartTime).

#[global] Instance PhaseType_eq_dec : EqDecision PhaseType.
Proof. solve_decision. Defined.

(** Each phase ends where the next one starts. *)
Fixpoint contiguous (ps : list TripPhase) : Prop :=
  match ps with
  | [] => True
  | p :: rest =>
      match rest with
      | [] => True
      | q :: _ => end_ p = start q
      end /\ contiguous rest
  end.

(** The loading intervals of a lorry's schedule, in order. *)
Definition loadingPhases (trips : list (list TripPhase)) : list (Q * Q) :=
  (fun p => (start p, end_ p)) <$> filter (fun p => type p = loading) (concat trips).

(** The loading intervals a log gives to the lorry at index [i], in order. *)
Definition loadingsFor (i : nat) (log : list Trip) : list (Q * Q) :=
  (fun d => (loadStartTime d, loadEndTime d))
    <$> filter (fun d => earliestLorryIdx d = Some i) log.

(** The [k]-th trip of schedule [s] is loading at time [t]. *)
Definition occupiesBay (s : LorrySchedule.t) (k : nat) (t : Q) : Prop :=
  exists (trip : list TripPhase) (p : TripPhase),
    LorrySchedule.trips s !! k = Some trip
    /\ p ∈ trip /\ type p = loading /\ start p <= t /\ t < end_ p.

(** ** The window as a parameter *)

(** The same job with another window ([handleInputChange('time', w)], App
    lines 46-48 and 229). *)
Definition withWindow (inputs : CalculatorInputs) (w : Q) : CalculatorInputs :=
  {| material := material inputs; distance := distance inputs; time := w;
     loadTime := loadTime inputs; startTime := startTime inputs;
     pricePerTonne := pricePerTonne inputs; costPerLorry := costPerLorry inputs |}.

(** ** One lorry's trips in time *)



(** What the solver returns for the default job. *)
Definition defaultResult : CalculationResult :=
  {| lorriesNeeded := Finite 8; totalTripsNeeded := 15;
     timePerTrip := 171900 # 111600; tripsPerLorry := 15 # 8;
     totalValue := 4500; totalCost := 4800;
     achievableMaterial := None; achievableValue := None; requiredTime := None |}.

(** ** The order in which lorries are picked *)

(** Times in non-decreasing order. *)
Definition ascending (xs : list Q) : Prop :=
  forall (i j : nat) (x y : Q),
    (i <= j)%nat -> xs !! i = Some x -> xs !! j = Some y -> x <= y.

(** A fleet seen as the lorries already sent in this round ([lo], the lower
    indices) and those still to go ([up]): both in the order of their
    indices, every lorry sent due back later than every lorry to go, and
    none due back later than a round trip after the bay is free.  [away] is
    the time from the end of loading to the return. *)
Definition rotation (away : Q) (lo up : list Q) (bay : Q) : Prop :=
  up <> []
  /\ ascending lo /\ ascending up
  /\ (forall x y : Q, x ∈ lo -> y ∈ up -> y < x)
  /\ (forall x : Q, x ∈ lo ++ up -> x <= bay + away).

(** A lighter job than the default one: 200 t over 15 miles. *)
Definition lighterInputs : CalculatorInputs :=
  {| material := 200; distance := 15; time := 3; loadTime := 10;
     startTime := "08:00"; pricePerTonne := 15; costPerLorry := 600 |}.

(** ** The state of the page *)

(** The value a key holds. *)
Definition inputValue (name : InputName) (inputs : CalculatorInputs) : Q :=
  match name with
  | Material => material inputs
  | PricePerTonne => pricePerTonne inputs
  | CostPerLorry => costPerLorry inputs
  | Distance => distance inputs
  | Time => time inputs
  | LoadTime => loadTime inputs
  end.

Definition advancedValue (name : AdvancedName) (advancedSettings : AdvancedSettings) : Q :=
  match name with
  | LorryCapacity => lorryCapacity advancedSettings
  | AvgSpeed => avgSpeed advancedSettings
  | TipTime => tipTime advancedSettings
  end.

(** Every key within the bounds of its slider. *)
Definition inBounds (st : CalculatorInputs * AdvancedSettings) : Prop :=
  (forall name : InputName,
     fst (inputBounds name) <= inputValue name (fst st) <= snd (inputBounds name))
  /\ (forall name : AdvancedName,
        fst (advancedBounds name) <= advancedValue name (snd st)
        <= snd (advancedBounds name)).

(** * Properties *)

(** ** Comparisons and the array helpers *)

Lemma Qgt_bool_true a b : Qgt_bool a b = true <-> b < a.
Proof.
  unfold Qgt_bool. rewrite negb_true_iff, <- not_true_iff_false, Qle_bool_iff.
  split; [apply Qnot_le_lt | apply Qlt_not_le].
Qed.

Lemma Qgt_bool_false a b : Qgt_bool a b = false <-> a <= b.
Proof.
  unfold Qgt_bool. rewrite negb_false_iff. apply Qle_bool_iff.
Qed.

Lemma Qmin_cases x y : (Qmin x y = x /\ x <= y) \/ (Qmin x y = y /\ y < x).
Proof.
  unfold Qmin, GenericMinMax.gmin.
  destruct (x ?= y) eqn:E.
  - left. split; [done|]. apply Qeq_alt in E. rewrite E. apply Qle_refl.
  - left. split; [done|]. apply Qlt_alt in E. by apply Qlt_le_weak.
  - right. split; [done|]. by apply Qgt_alt in E.
Qed.

(** [foldl Qmin] returns the first of the smallest elements: everything
    before it is strictly larger, nothing is smaller. *)
Lemma foldl_Qmin_first (rest : list Q) : forall x : Q,
  exists i : nat,
    (x :: rest) !! i = Some (foldl Qmin x rest)
    /\ (forall (j : nat) (z : Q), (j < i)%nat -> (x :: rest) !! j = Some z -> foldl Qmin x rest < z)
    /\ (forall (j : nat) (z : Q), (x :: rest) !! j = Some z -> foldl Qmin x rest <= z).
Proof.
  induction rest as [|y rest IH]; intros x.
  - exists O. simpl. split; [done|]. split; [intros; lia|].
    intros [|j] z Hz; simplify_eq/=. apply Qle_refl.
  - simpl. destruct (IH (Qmin x y)) as (i & Hi & Hlt & Hle).
    remember (foldl Qmin (Qmin x y) rest) as m eqn:Em. clear Em.
    assert (Hm : m <= Qmin x y) by (apply (Hle O); done).
    destruct (Qmin_cases x y) as [[E Hxy]|[E Hxy]]; rewrite E in *.
    + destruct i as [|i]; simpl in Hi.
      * exists O. simplify_eq/=. split; [done|]. split; [intros; lia|].
        intros [|[|j]] z Hz; simplify_eq/=.
        -- apply Qle_refl.
        -- done.
        -- apply (Hle (S j)). done.
      * exists (S (S i)). split; [done|].
        assert (Hmx : m < x) by (apply (Hlt O); [lia|done]).
        split.
        -- intros [|[|j]] z Hj Hz; simplify_eq/=.
           ++ done.
           ++ eapply Qlt_le_trans; eauto.
           ++ apply (Hlt (S j)); [lia|done].
        -- intros [|[|j]] z Hz; simplify_eq/=.
           ++ by apply Qlt_le_weak.
           ++ apply Qlt_le_weak. eapply Qlt_le_trans; eauto.
           ++ apply (Hle (S j)). done.
    + destruct i as [|i]; simpl in Hi.
      * exists 1%nat. simplify_eq/=. split; [done|]. split.
        -- intros [|j] z Hj Hz; simplify_eq/=; [done|lia].
        -- intros [|[|j]] z Hz; simplify_eq/=.
           ++ by apply Qlt_le_weak.
           ++ apply Qle_refl.
           ++ apply (Hle (S j)). done.
      * exists (S (S i)). split; [done|].
        assert (Hmy : m < y) by (apply (Hlt O); [lia|done]).
        split.
        -- intros [|[|j]] z Hj Hz; simplify_eq/=.
           ++ eapply Qlt_trans; eauto.
           ++ done.
           ++ apply (Hlt (S j)); [lia|done].
        -- intros [|[|j]] z Hz; simplify_eq/=.
           ++ apply Qlt_le_weak. eapply Qlt_trans; eauto.
           ++ by apply Qlt_le_weak.
           ++ apply (Hle (S j)). done.
Qed.

Lemma indexOf_first (xs : list Q) : forall (m : Q) (i : nat),
  xs !! i = Some m ->
  (forall (j : nat) (z : Q), (j < i)%nat -> xs !! j = Some z -> m < z) ->
  indexOf xs m = Some i.
Proof.
  induction xs as [|y xs IH]; intros m i Hi Hlt; [done|].
  destruct i as [|i]; simpl in *.
  - simplify_eq. assert (E : Qeq_bool m m = true) by (apply Qeq_bool_iff; reflexivity).
    by rewrite E.
  - assert (E : Qeq_bool y m = false).
    { apply not_true_iff_false. rewrite Qeq_bool_iff. intros Heq.
      specialize (Hlt O y ltac:(lia) eq_refl). rewrite Heq in Hlt.
      by apply Qlt_irrefl in Hlt. }
    rewrite E. rewrite (IH m i Hi); [done|].
    intros j z Hj Hz. apply (Hlt (S j)); [lia|done].
Qed.

Lemma findIndex_first {A} (p : A -> bool) (xs : list A) : forall (i : nat) (x : A),
  xs !! i = Some x -> p x = true ->
  (forall (j : nat) (z : A), (j < i)%nat -> xs !! j = Some z -> p z = false) ->
  findIndex p xs = Some i.
Proof.
  induction xs as [|y xs IH]; intros i x Hi Hp Hlt; [done|].
  destruct i as [|i]; simpl in *.
  - simplify_eq. by rewrite Hp.
  - rewrite (Hlt O y ltac:(lia) eq_refl).
    rewrite (IH i x Hi Hp); [done|].
    intros j z Hj Hz. apply (Hlt (S j)); [lia|done].
Qed.

Lemma Math_min_earliest (xs : list Q) (m : Q) :
  Math_min xs = Some m -> exists i : nat, earliestAt xs m i /\ indexOf xs m = Some i.
Proof.
  destruct xs as [|x rest]; [done|]. intros [= <-].
  destruct (foldl_Qmin_first rest x) as (i & Hi & Hlt & Hle).
  exists i. split; [by repeat split|]. by apply indexOf_first.
Qed.

Lemma Math_min_nonempty (xs : list Q) : xs <> [] -> is_Some (Math_min xs).
Proof. destruct xs; [done|]. simpl. eauto. Qed.

(** ** The dispatch loop *)

Section DispatchFacts.
Variables (loadTimeHours travelTimeHours tipTimeHours time_ : Q).

Local Abbreviation plan := (planTrip loadTimeHours).
Local Abbreviation commit := (commitTrip travelTimeHours tipTimeHours).
Local Abbreviation late := (pastDeadline time_).
Local Abbreviation attempt := (tryTrips loadTimeHours travelTimeHours tipTimeHours time_).
Local Abbreviation dispatch := (dispatchAll loadTimeHours travelTimeHours tipTimeHours).
Local Abbreviation admission := (admitTrips loadTimeHours travelTimeHours tipTimeHours time_).
Local Abbreviation chain := (chained loadTimeHours).

Lemma planTrip_Some (s : Fleet) (d : Trip) :
  plan s = Some d ->
  exists i : nat,
    earliestAt (lorriesNextAvailableTime s) (earliestLorryTime d) i
    /\ earliestLorryIdx d = Some i
    /\ bayFreeBefore d = loadingBayFreeAt s
    /\ loadStartTime d = Qmax (earliestLorryTime d) (loadingBayFreeAt s)
    /\ loadEndTime d = loadStartTime d + loadTimeHours.
Proof.
  unfold planTrip. destruct (Math_min _) as [m|] eqn:Hm; [|done].
  intros [= <-]. destruct (Math_min_earliest _ _ Hm) as (i & Hi & Hidx).
  exists i. split; [exact Hi|]. simpl. by repeat split.
Qed.

Lemma planTrip_nonempty (s : Fleet) :
  lorriesNextAvailableTime s <> [] -> is_Some (plan s).
Proof.
  intros H. unfold planTrip.
  destruct (Math_min_nonempty _ H) as [m ->]. eauto.
Qed.

Lemma commitTrip_length (s : Fleet) (d : Trip) :
  length (lorriesNextAvailableTime (commit s d)) = length (lorriesNextAvailableTime s).
Proof.
  simpl. unfold setAt. destruct (earliestLorryIdx d); [apply length_insert|done].
Qed.

Lemma commitTrip_nonempty (s : Fleet) (d : Trip) :
  lorriesNextAvailableTime s <> [] -> lorriesNextAvailableTime (commit s d) <> [].
Proof.
  intros H E. apply (f_equal length) in E. rewrite commitTrip_length in E.
  destruct (lorriesNextAvailableTime s); [done|]. simpl in E. lia.
Qed.

Lemma planTrip_bay (s : Fleet) (d : Trip) :
  plan s = Some d ->
  loadingBayFreeAt s <= loadStartTime d /\ loadEndTime d = loadStartTime d + loadTimeHours.
Proof.
  intros H. destruct (planTrip_Some _ _ H) as (i & _ & _ & _ & Hs & He).
  split; [|done]. rewrite Hs. apply Q.le_max_r.
Qed.

Lemma dispatchAll_chained (n : nat) : forall s : Fleet,
  chain (loadingBayFreeAt s) (dispatch n s).
Proof.
  induction n as [|n IH]; intros s; simpl; [done|].
  destruct (plan s) as [d|] eqn:Hd; [|done].
  destruct (planTrip_bay _ _ Hd) as [Hs He]. simpl.
  repeat split; [done..|]. apply (IH (commit s d)).
Qed.

Lemma tryTrips_chained (n : nat) : forall s : Fleet,
  chain (loadingBayFreeAt s) (snd (attempt n s)).
Proof.
  induction n as [|n IH]; intros s; simpl; [done|].
  destruct (plan s) as [d|] eqn:Hd; [|done].
  destruct (late d); [done|].
  destruct (planTrip_bay _ _ Hd) as [Hs He]. simpl.
  repeat split; [done..|]. apply (IH (commit s d)).
Qed.

Lemma chained_lower (log : list Trip) : forall (bay : Q) (j : nat) (b : Trip),
  0 <= loadTimeHours -> chain bay log -> log !! j = Some b -> bay <= loadStartTime b.
Proof.
  induction log as [|d rest IH]; intros bay j b HL Hc Hj; [done|].
  destruct Hc as (Hs & He & Hc). destruct j as [|j]; simpl in Hj.
  - by simplify_eq.
  - specialize (IH _ _ _ HL Hc Hj). rewrite He in IH. lra.
Qed.

Lemma chained_before (log : list Trip) : forall (bay : Q) (i j : nat) (a b : Trip),
  0 <= loadTimeHours -> chain bay log -> (i < j)%nat ->
  log !! i = Some a -> log !! j = Some b -> loadEndTime a <= loadStartTime b.
Proof.
  induction log as [|d rest IH]; intros bay i j a b HL Hc Hij Hi Hj; [done|].
  destruct Hc as (Hs & He & Hc). destruct j as [|j]; [lia|]. simpl in Hj.
  destruct i as [|i]; simpl in Hi.
  - simplify_eq. by eapply chained_lower.
  - eapply (IH _ i j); eauto. lia.
Qed.

Lemma chained_span (log : list Trip) (bay : Q) (j : nat) (b : Trip) :
  chain bay log -> log !! j = Some b -> loadEndTime b = loadStartTime b + loadTimeHours.
Proof.
  revert bay j. induction log as [|d rest IH]; intros bay j Hc Hj; [done|].
  destruct Hc as (Hs & He & Hc). destruct j as [|j]; simpl in Hj.
  - by simplify_eq.
  - by eapply IH.
Qed.

(** Two different trips of a chained log never load at the same time. *)
Lemma chained_exclusive (log : list Trip) (bay : Q) (i j : nat) (a b : Trip) (t : Q) :
  0 <= loadTimeHours -> chain bay log -> i <> j ->
  log !! i = Some a -> log !! j = Some b -> ~ (loadingAt a t /\ loadingAt b t).
Proof.
  intros HL Hc Hij Hi Hj [[Ha1 Ha2] [Hb1 Hb2]].
  destruct (Nat.lt_total i j) as [Hlt|[Heq|Hlt]]; [|done|].
  - pose proof (chained_before _ _ _ _ _ _ HL Hc Hlt Hi Hj). lra.
  - pose proof (chained_before _ _ _ _ _ _ HL Hc Hlt Hj Hi). lra.
Qed.

(** *** The guarded loops against the plain dispatch *)

Lemma dispatchAll_length (n : nat) : forall s : Fleet,
  lorriesNextAvailableTime s <> [] -> length (dispatch n s) = n.
Proof.
  induction n as [|n IH]; intros s Hs; simpl; [done|].
  destruct (planTrip_nonempty s Hs) as [d ->]. simpl.
  rewrite IH; [done|]. by apply commitTrip_nonempty.
Qed.

(** The search's inner loop answers [true] exactly when every trip of the
    plain dispatch ends loading by the tolerated deadline; it has then
    dispatched those very trips. *)
Lemma tryTrips_spec (n : nat) : forall s : Fleet,
  lorriesNextAvailableTime s <> [] ->
  (fst (attempt n s) = true <->
     Forall (fun d => loadEndTime d <= time_ + (1 # 10000)) (dispatch n s))
  /\ (fst (attempt n s) = true -> snd (attempt n s) = dispatch n s).
Proof.
  induction n as [|n IH]; intros s Hs; simpl.
  - split; [split; [constructor|done]|done].
  - destruct (planTrip_nonempty s Hs) as [d ->].
    destruct (IH (commit s d) (commitTrip_nonempty _ _ Hs)) as [IH1 IH2].
    destruct (late d) eqn:Hp; simpl.
    + split; [|done]. split; [done|]. intros HF.
      apply Forall_cons_1 in HF as [HF _].
      apply Qgt_bool_true in Hp. lra.
    + apply Qgt_bool_false in Hp. split.
      * rewrite IH1. split; [by constructor|]. by intros [_ ?]%Forall_cons_1.
      * intros H. by rewrite IH2.
Qed.
(** The required-time loop runs the plain dispatch and keeps the load end of
    its last trip. *)
Lemma requiredLoop_last (n : nat) : forall (s : Fleet) (q : Q),
  lorriesNextAvailableTime s <> [] ->
  requiredLoop loadTimeHours travelTimeHours tipTimeHours n s q
  = default q (loadEndTime <$> last (dispatch n s)).
Proof.
  induction n as [|n IH]; intros s q Hs; [done|]. simpl.
  destruct (planTrip_nonempty s Hs) as [d Hd]. rewrite Hd.
  pose proof (commitTrip_nonempty s d Hs) as Hs'.
  rewrite (IH _ _ Hs'). destruct n as [|n]; [done|].
  change (dispatch (S n) (commit s d)) with
    (match plan (commit s d) with
     | None => []
     | Some d' => d' :: dispatch n (commit (commit s d) d')
     end).
  destruct (planTrip_nonempty _ Hs') as [d' ->]. done.
Qed.
End DispatchFacts.

(** ** The admission loop and the search *)

Section AdmissionFacts.
Variables (loadTimeHours travelTimeHours tipTimeHours time_ : Q).

Local Abbreviation plan := (planTrip loadTimeHours).
Local Abbreviation commit := (commitTrip travelTimeHours tipTimeHours).
Local Abbreviation late := (pastDeadline time_).
Local Abbreviation dispatch := (dispatchAll loadTimeHours travelTimeHours tipTimeHours).
Local Abbreviation admission := (admitTrips loadTimeHours travelTimeHours tipTimeHours time_).
Local Abbreviation deadline := (time_ + (1 # 10000)).
Local Abbreviation enough := (enoughFuel loadTimeHours time_).

(** More fuel never changes an answer. *)
Lemma admitTrips_fuel_mono (fuel : nat) : forall (fuel' : nat) (s : Fleet) (c k : Z),
  (fuel <= fuel')%nat -> admission fuel s c = Some k -> admission fuel' s c = Some k.
Proof.
  induction fuel as [|f IH]; intros fuel' s c k Hle H; [done|].
  destruct fuel' as [|f']; [lia|]. simpl in *.
  destruct (plan s) as [d|]; [|done].
  destruct (late d); [done|]. apply IH; [lia|done].
Qed.

(** The loop stops at the first trip of the plain dispatch that ends
    loading after the tolerated deadline, having counted the trips before
    it. *)
Lemma admitTrips_stops (k : nat) : forall (s : Fleet) (c : Z) (fuel : nat),
  (k < fuel)%nat ->
  (forall (j : nat) (d : Trip),
      (j < k)%nat -> dispatch (S k) s !! j = Some d -> loadEndTime d <= deadline) ->
  (exists d : Trip, dispatch (S k) s !! k = Some d /\ deadline < loadEndTime d) ->
  admission fuel s c = Some (c + Z.of_nat k)%Z.
Proof.
  induction k as [|k IH]; intros s c fuel Hf Hin (d & Hd & Hout);
    (destruct fuel as [|f]; [lia|]).
  - simpl in *. destruct (plan s) as [d0|]; [|done]. simpl in Hd. simplify_eq.
    apply Qgt_bool_true in Hout. unfold pastDeadline. rewrite Hout.
    f_equal. lia.
  - change (dispatch (S (S k)) s) with
      (match plan s with
       | None => []
       | Some d0 => d0 :: dispatch (S k) (commit s d0)
       end) in *.
    simpl. destruct (plan s) as [d0|]; [|done].
    assert (Hd0 : late d0 = false).
    { apply Qgt_bool_false. apply (Hin O); [lia|done]. }
    rewrite Hd0. rewrite (IH (commit s d0) (c + 1)%Z f); [f_equal; lia|lia| |].
    + intros j d' Hj Hd'. apply (Hin (S j)); [lia|done].
    + exists d. split; done.
Qed.

(** Every admitted trip moves the bay-free time on by the load duration at
    least ... *)
Lemma commitTrip_advances (s : Fleet) (d : Trip) :
  plan s = Some d ->
  loadingBayFreeAt s + loadTimeHours <= loadingBayFreeAt (commit s d).
Proof.
  intros H. destruct (planTrip_bay _ _ _ H) as [Hs He]. simpl. rewrite He. lra.
Qed.

(** ... so the loop cannot admit more trips than load durations fit
    between the bay-free time and the deadline. *)
Lemma admitTrips_terminates (fuel : nat) : forall (s : Fleet) (c : Z),
  0 < loadTimeHours ->
  loadingBayFreeAt s <= deadline ->
  deadline - loadingBayFreeAt s < inject_Z (Z.of_nat fuel) * loadTimeHours ->
  exists k : Z,
    admission fuel s c = Some k
    /\ (c <= k)%Z
    /\ inject_Z (k - c) * loadTimeHours <= deadline - loadingBayFreeAt s.
Proof.
  induction fuel as [|f IH]; intros s c HL Hbay Hfuel.
  - exfalso. change (inject_Z (Z.of_nat 0)) with 0 in Hfuel. lra.
  - simpl. destruct (plan s) as [d|] eqn:Hd.
    + destruct (late d) eqn:Hp.
      * exists c. split; [done|]. split; [lia|]. rewrite Z.sub_diag.
        change (inject_Z 0) with 0. lra.
      * apply Qgt_bool_false in Hp.
        pose proof (commitTrip_advances _ _ Hd) as Hadv.
        assert (Hs : inject_Z (Z.of_nat (S f)) == inject_Z (Z.of_nat f) + 1).
        { rewrite Nat2Z.inj_succ, <- Z.add_1_r, inject_Z_plus. reflexivity. }
        rewrite Hs in Hfuel.
        destruct (IH (commit s d) (c + 1)%Z HL) as (k & Hk & Hck & Hbound).
        { done. }
        { simpl in *. lra. }
        exists k. split; [done|]. split; [lia|].
        assert (Hkc : inject_Z (k - c) == inject_Z (k - (c + 1)) + 1).
        { rewrite <- (inject_Z_plus _ 1). f_equiv. lia. }
        rewrite Hkc. simpl in *. lra.
    + exists c. split; [done|]. split; [lia|]. rewrite Z.sub_diag.
        change (inject_Z 0) with 0. lra.
Qed.

Lemma enoughFuel_spec :
  0 < loadTimeHours -> deadline < inject_Z (Z.of_nat enough) * loadTimeHours.
Proof.
  intros HL. unfold enoughFuel.
  pose proof (Qlt_floor (deadline / loadTimeHours)) as Hfl.
  assert (Hz : (Qfloor (deadline / loadTimeHours) + 1 <= Z.of_nat (S (Z.to_nat (Qfloor (deadline / loadTimeHours)))))%Z) by lia.
  rewrite Zle_Qle in Hz.
  assert (Hlt : deadline / loadTimeHours
                < inject_Z (Z.of_nat (S (Z.to_nat (Qfloor (deadline / loadTimeHours)))))).
  { eapply Qlt_le_trans; [exact Hfl|exact Hz]. }
  apply (Qmult_lt_r _ _ _ HL) in Hlt.
  assert (Hd : deadline / loadTimeHours * loadTimeHours == deadline).
  { field. intros E. rewrite E in HL. by apply Qlt_irrefl in HL. }
  rewrite Hd in Hlt. exact Hlt.
Qed.

Lemma admitTrips_enough (fuel : nat) (numLorries : Z) :
  0 < loadTimeHours -> 0 < time_ -> (enough <= fuel)%nat ->
  exists k : Z,
    admission fuel (newFleet numLorries) 0 = Some k
    /\ (0 <= k)%Z
    /\ inject_Z k * loadTimeHours <= deadline.
Proof.
  intros HL HT Hfuel.
  destruct (admitTrips_terminates enough (newFleet numLorries) 0 HL)
    as (k & Hk & Hk0 & Hbound).
  - simpl. lra.
  - pose proof (enoughFuel_spec HL). simpl. lra.
  - exists k. split; [by eapply admitTrips_fuel_mono|]. split; [done|].
    rewrite Z.sub_0_r in Hbound. simpl in Hbound. lra.
Qed.

(** *** The outer loop *)

Local Abbreviation feasible := (possible loadTimeHours travelTimeHours tipTimeHours time_).
Local Abbreviation search := (searchFleet loadTimeHours travelTimeHours tipTimeHours time_).

Lemma searchFleet_Finite (totalTrips : Z) (candidates : nat) :
  forall (from n : Z),
    search totalTrips candidates from = Finite n ->
    (from <= n < from + Z.of_nat candidates)%Z
    /\ feasible totalTrips n = true
    /\ (forall m : Z, (from <= m < n)%Z -> feasible totalTrips m = false).
Proof.
  induction candidates as [|c IH]; intros from n H; [done|]. simpl in H.
  destruct (feasible totalTrips from) eqn:Hp.
  - simplify_eq. split; [lia|]. split; [done|]. intros; lia.
  - destruct (IH _ _ H) as (Hr & Hn & Hmin). split; [lia|]. split; [done|].
    intros m Hm. destruct (decide (m = from)) as [->|]; [done|]. apply Hmin. lia.
Qed.

Lemma searchFleet_Infinity (totalTrips : Z) (candidates : nat) :
  forall from : Z,
    search totalTrips candidates from = Infinity <->
    (forall m : Z, (from <= m < from + Z.of_nat candidates)%Z -> feasible totalTrips m = false).
Proof.
  induction candidates as [|c IH]; intros from; simpl.
  - split; [intros; lia|done].
  - destruct (feasible totalTrips from) eqn:Hp.
    + split; [done|]. intros H. rewrite H in Hp; [done|lia].
    + rewrite IH. split; intros H m Hm.
      * destruct (decide (m = from)) as [->|]; [done|]. apply H. lia.
      * apply H. lia.
Qed.
End AdmissionFacts.

(** ** The solver *)

Lemma degenerate_true (inputs : CalculatorInputs) (advancedSettings : AdvancedSettings) :
  degenerate inputs advancedSettings = true <->
  lorryCapacity advancedSettings <= 0 \/ avgSpeed advancedSettings <= 0
  \/ time inputs <= 0 \/ loadTime inputs <= 0.
Proof.
  unfold degenerate. rewrite !orb_true_iff, !Qle_bool_iff. tauto.
Qed.

Lemma degenerate_false (inputs : CalculatorInputs) (advancedSettings : AdvancedSettings) :
  degenerate inputs advancedSettings = false <->
  0 < lorryCapacity advancedSettings /\ 0 < avgSpeed advancedSettings
  /\ 0 < time inputs /\ 0 < loadTime inputs.
Proof.
  rewrite <- not_true_iff_false, degenerate_true. split.
  - intros H. repeat split; apply Qnot_le_lt; tauto.
  - intros (H1 & H2 & H3 & H4) [H|[H|[H|H]]]; lra.
Qed.

Lemma loadTimeHoursOf_pos (inputs : CalculatorInputs) :
  0 < loadTime inputs -> 0 < loadTimeHoursOf inputs.
Proof.
  intros H. unfold loadTimeHoursOf. apply Qlt_shift_div_l; lra.
Qed.

Lemma maxLorriesToTest_ge (inputs : CalculatorInputs) (advancedSettings : AdvancedSettings) :
  (50 <= maxLorriesToTest inputs advancedSettings)%Z
  /\ (tripsFor inputs advancedSettings <= maxLorriesToTest inputs advancedSettings)%Z.
Proof. unfold maxLorriesToTest. lia. Qed.

Lemma newFleet_nonempty (numLorries : Z) :
  (1 <= numLorries)%Z -> lorriesNextAvailableTime (newFleet numLorries) <> [].
Proof.
  intros H E. apply (f_equal length) in E. simpl in E.
  rewrite length_replicate in E. lia.
Qed.

(** [lorriesNeeded] is [Infinity] exactly when every candidate fails. *)
Lemma lorriesNeededOf_Infinity (inputs : CalculatorInputs) (advancedSettings : AdvancedSettings) :
  lorriesNeededOf inputs advancedSettings = Infinity <->
  (forall n : Z, (1 <= n <= maxLorriesToTest inputs advancedSettings)%Z ->
                 feasibleWith inputs advancedSettings n = false).
Proof.
  unfold lorriesNeededOf. rewrite searchFleet_Infinity.
  pose proof (maxLorriesToTest_ge inputs advancedSettings) as [H50 _].
  unfold feasibleWith. split; intros H n Hn; apply H; lia.
Qed.

Lemma calculationResult_infeasible (inputs : CalculatorInputs)
    (advancedSettings : AdvancedSettings) (fuel : nat) (k : Z) :
  degenerate inputs advancedSettings = false ->
  lorriesNeededOf inputs advancedSettings = Infinity ->
  achievableTripsOf inputs advancedSettings fuel = Some k ->
  calculationResult inputs advancedSettings fuel
  = Some (infeasibleResult inputs advancedSettings k).
Proof.
  intros Hd Hinf Hk. unfold calculationResult. by rewrite Hd, Hinf, Hk.
Qed.

Lemma achievableTripsOf_enough (inputs : CalculatorInputs)
    (advancedSettings : AdvancedSettings) :
  degenerate inputs advancedSettings = false ->
  exists k : Z,
    (0 <= k)%Z
    /\ inject_Z k * loadTimeHoursOf inputs <= time inputs + (1 # 10000)
    /\ forall fuel : nat, (fuelFor inputs <= fuel)%nat ->
         achievableTripsOf inputs advancedSettings fuel = Some k.
Proof.
  intros (_ & _ & HT & HL%loadTimeHoursOf_pos)%degenerate_false.
  destruct (admitTrips_enough (loadTimeHoursOf inputs)
              (travelTimeHoursOf inputs advancedSettings) (tipTimeHoursOf advancedSettings)
              (time inputs) (fuelFor inputs) (maxLorriesToTest inputs advancedSettings)
              HL HT) as (k & Hk & Hk0 & Hbound); [done|].
  exists k. split; [done|]. split; [done|].
  intros fuel Hfuel. by eapply admitTrips_fuel_mono.
Qed.

Lemma calculationResult_total (inputs : CalculatorInputs)
    (advancedSettings : AdvancedSettings) :
  exists r : CalculationResult,
    forall fuel : nat, (fuelFor inputs <= fuel)%nat ->
      calculationResult inputs advancedSettings fuel = Some r.
Proof.
  unfold calculationResult.
  destruct (degenerate inputs advancedSettings) eqn:Hd; [by eexists|].
  destruct (lorriesNeededOf inputs advancedSettings) as [n|] eqn:Hn; [by eexists|].
  destruct (achievableTripsOf_enough inputs advancedSettings Hd) as (k & _ & _ & Hk).
  exists (infeasibleResult inputs advancedSettings k).
  intros fuel Hfuel. by rewrite (Hk fuel Hfuel).
Qed.

Lemma calculationResult_trips (inputs : CalculatorInputs)
    (advancedSettings : AdvancedSettings) (fuel : nat) (r : CalculationResult) :
  degenerate inputs advancedSettings = false ->
  calculationResult inputs advancedSettings fuel = Some r ->
  totalTripsNeeded r = tripsFor inputs advancedSettings.
Proof.
  intros Hd. unfold calculationResult. rewrite Hd.
  destruct (lorriesNeededOf inputs advancedSettings).
  - by intros [= <-].
  - destruct (achievableTripsOf inputs advancedSettings fuel); [|done]. by intros [= <-].
Qed.

Lemma calculationResult_feasible (inputs : CalculatorInputs)
    (advancedSettings : AdvancedSettings) (fuel : nat) (r : CalculationResult) :
  calculationResult inputs advancedSettings fuel = Some r ->
  isFeasible r = true ->
  degenerate inputs advancedSettings = false
  /\ exists n : Z,
       lorriesNeeded r = Finite n
       /\ lorriesNeededOf inputs advancedSettings = Finite n
       /\ totalTripsNeeded r = tripsFor inputs advancedSettings
       /\ (1 <= n <= maxLorriesToTest inputs advancedSettings)%Z
       /\ feasibleWith inputs advancedSettings n = true
       /\ (forall m : Z, (1 <= m < n)%Z -> feasibleWith inputs advancedSettings m = false).
Proof.
  unfold calculationResult.
  destruct (degenerate inputs advancedSettings) eqn:Hd.
  { by intros [= <-]. }
  destruct (lorriesNeededOf inputs advancedSettings) as [n|] eqn:Hn.
  - intros [= <-] _. split; [done|]. exists n.
    destruct (searchFleet_Finite _ _ _ _ _ _ _ _ Hn) as (Hr & Hp & Hmin).
    pose proof (maxLorriesToTest_ge inputs advancedSettings) as [H50 _].
    repeat split; [lia|lia|done|done].
  - destruct (achievableTripsOf inputs advancedSettings fuel); [|done].
    by intros [= <-].
Qed.

(** ** The two scenarios *)

(** The default job needs eight lorries for its fifteen trips. *)
Example default_job :
  calculationResult defaultInputs defaultSettings 0
  = Some {| lorriesNeeded := Finite 8; totalTripsNeeded := 15;
            timePerTrip := 171900 # 111600; tripsPerLorry := 15 # 8;
            totalValue := 4500; totalCost := 4800;
            achievableMaterial := None; achievableValue := None; requiredTime := None |}.
Proof. vm_compute. reflexivity. Qed.

(** In half an hour three trips can be loaded, 60 t; the whole job needs a
    window of two and a half hours. *)
Example short_window_job :
  exists r : CalculationResult,
    calculationResult shortWindow defaultSettings 4 = Some r
    /\ lorriesNeeded r = Infinity
    /\ achievableMaterial r = Some (inject_Z 3 * 20)
    /\ (exists t : Q, requiredTime r = Some t /\ t == 5 # 2).
Proof.
  eexists. split; [vm_compute; reflexivity|]. simpl.
  split; [done|]. split; [done|]. eexists. split; [done|]. reflexivity.
Qed.

(** ** Trip count *)

(** C2: for positive material, capacity, speed, window and load duration the
    solver returns a result, and the [totalTripsNeeded] of every result it
    returns is [ceil(material / lorryCapacity)]: the least integer [k] with
    [material <= k * lorryCapacity]; it is at least 1. *)
Theorem trip_count_is_ceiling (inputs : CalculatorInputs) (advancedSettings : AdvancedSettings) :
  0 < material inputs -> 0 < lorryCapacity advancedSettings ->
  0 < avgSpeed advancedSettings -> 0 < time inputs -> 0 < loadTime inputs ->
  (exists r : CalculationResult,
      forall fuel : nat, (fuelFor inputs <= fuel)%nat ->
        calculationResult inputs advancedSettings fuel = Some r)
  /\ forall (fuel : nat) (r : CalculationResult),
       calculationResult inputs advancedSettings fuel = Some r ->
       totalTripsNeeded r = Qceiling (material inputs / lorryCapacity advancedSettings)
       /\ inject_Z (totalTripsNeeded r - 1) * lorryCapacity advancedSettings < material inputs
       /\ material inputs <= inject_Z (totalTripsNeeded r) * lorryCapacity advancedSettings
       /\ (1 <= totalTripsNeeded r)%Z.
Proof.
  intros Hm Hc Hs Ht Hl. split; [apply calculationResult_total|].
  intros fuel r Hr.
  assert (Hd : degenerate inputs advancedSettings = false) by (by apply degenerate_false).
  rewrite (calculationResult_trips _ _ _ _ Hd Hr). unfold tripsFor.
  set (x := material inputs / lorryCapacity advancedSettings).
  assert (Hx : x * lorryCapacity advancedSettings == material inputs).
  { unfold x. field. intros E. rewrite E in Hc. by apply Qlt_irrefl in Hc. }
  pose proof (Qle_ceiling x) as Hup. pose proof (Qceiling_lt x) as Hlow.
  apply (Qmult_le_r _ _ _ Hc) in Hup. apply (Qmult_lt_r _ _ _ Hc) in Hlow.
  rewrite Hx in Hup, Hlow. repeat split; [done..|].
  assert (H0 : inject_Z 0 < inject_Z (Qceiling x)).
  { apply (Qmult_lt_r _ _ _ Hc). change (inject_Z 0) with 0. lra. }
  rewrite <- Zlt_Qlt in H0. lia.
Qed.

Lemma trip_count_is_ceiling_witness :
  (exists r : CalculationResult,
      forall fuel : nat, (fuelFor defaultInputs <= fuel)%nat ->
        calculationResult defaultInputs defaultSettings fuel = Some r)
  /\ forall (fuel : nat) (r : CalculationResult),
       calculationResult defaultInputs defaultSettings fuel = Some r ->
       totalTripsNeeded r = Qceiling (300 / 20)
       /\ inject_Z (totalTripsNeeded r - 1) * 20 < 300
       /\ 300 <= inject_Z (totalTripsNeeded r) * 20
       /\ (1 <= totalTripsNeeded r)%Z.
Proof.
  apply (trip_count_is_ceiling defaultInputs defaultSettings); reflexivity.
Defined.

(** ** The deadline guard *)

(** C5: a trip whose load end is exactly [time + 0.0001] is dispatched by the
    search loop and counted by the admission loop; a trip whose load end is
    [time + 0.0002] ends both loops: the search loop answers [false], the
    admission loop stops counting.  This holds at every state of a run, that
    is for every fleet size and trip index. *)
Theorem tolerance_boundary (loadTimeHours travelTimeHours tipTimeHours time_ : Q)
    (s : Fleet) (d : Trip) :
  planTrip loadTimeHours s = Some d ->
  (loadEndTime d == time_ + (1 # 10000) ->
     pastDeadline time_ d = false
     /\ (forall k : nat,
           tryTrips loadTimeHours travelTimeHours tipTimeHours time_ (S k) s
           = (fst (tryTrips loadTimeHours travelTimeHours tipTimeHours time_ k
                     (commitTrip travelTimeHours tipTimeHours s d)),
              d :: snd (tryTrips loadTimeHours travelTimeHours tipTimeHours time_ k
                          (commitTrip travelTimeHours tipTimeHours s d))))
     /\ (forall (f : nat) (c : Z),
           admitTrips loadTimeHours travelTimeHours tipTimeHours time_ (S f) s c
           = admitTrips loadTimeHours travelTimeHours tipTimeHours time_ f
               (commitTrip travelTimeHours tipTimeHours s d) (c + 1)%Z))
  /\ (loadEndTime d == time_ + (2 # 10000) ->
        pastDeadline time_ d = true
        /\ (forall k : nat,
              tryTrips loadTimeHours travelTimeHours tipTimeHours time_ (S k) s = (false, []))
        /\ (forall (f : nat) (c : Z),
              admitTrips loadTimeHours travelTimeHours tipTimeHours time_ (S f) s c = Some c)).
Proof.
  intros Hd. split; intros He.
  - assert (Hp : pastDeadline time_ d = false).
    { apply Qgt_bool_false. rewrite He. apply Qle_refl. }
    split; [done|]. split; intros; simpl; by rewrite Hd, Hp.
  - assert (Hp : pastDeadline time_ d = true).
    { apply Qgt_bool_true. rewrite He. lra. }
    split; [done|]. split; intros; simpl; by rewrite Hd, Hp.
Qed.

(** On binary64 numbers, for every window the slider offers: the double
    [time + 0.0001] as a load end passes the guard, the double
    [time + 0.0002] does not. *)
Lemma binary64_guard_on_slider :
  forallb (fun w =>
             negb (pastDeadline64 w (PrimFloat.add w 0x1.a36e2eb1c432dp-14%float))
             && pastDeadline64 w (PrimFloat.add w 0x1.a36e2eb1c432dp-13%float))
          sliderWindows
  = true.
Proof. vm_compute. reflexivity. Qed.

(** One lorry, a window of one hour: a load of 1.0001 h is dispatched, a
    load of 1.0002 h is not. *)
Lemma tolerance_boundary_witness :
  tryTrips (10001 # 10000) 1 (1 # 12) 1 1 (newFleet 1)
  = (true, [ {| earliestLorryTime := 0; earliestLorryIdx := Some O; bayFreeBefore := 0;
               loadStartTime := 0; loadEndTime := 0 + (10001 # 10000) |} ])
  /\ tryTrips (10002 # 10000) 1 (1 # 12) 1 1 (newFleet 1) = (false, []).
Proof.
  split.
  - apply (tolerance_boundary (10001 # 10000) 1 (1 # 12) 1 (newFleet 1)
             {| earliestLorryTime := 0; earliestLorryIdx := Some O; bayFreeBefore := 0;
                loadStartTime := 0; loadEndTime := 0 + (10001 # 10000) |});
      reflexivity.
  - apply (tolerance_boundary (10002 # 10000) 1 (1 # 12) 1 (newFleet 1)
             {| earliestLorryTime := 0; earliestLorryIdx := Some O; bayFreeBefore := 0;
                loadStartTime := 0; loadEndTime := 0 + (10002 # 10000) |});
      reflexivity.
Defined.

(** ** Degenerate inputs *)

(** C6: when the capacity, the speed, the window or the load duration is
    not positive, the solver returns the all-zero result, whatever the other
    inputs (and whatever bound is put on the admission loop, which is not
    run): no error. *)
Theorem degenerate_inputs_zero (inputs : CalculatorInputs)
    (advancedSettings : AdvancedSettings) (fuel : nat) :
  lorryCapacity advancedSettings <= 0 \/ avgSpeed advancedSettings <= 0
  \/ time inputs <= 0 \/ loadTime inputs <= 0 ->
  calculationResult inputs advancedSettings fuel
  = Some {| lorriesNeeded := Finite 0; totalTripsNeeded := 0; timePerTrip := 0;
            tripsPerLorry := 0; totalValue := 0; totalCost := 0;
            achievableMaterial := Some 0; achievableValue := Some 0;
            requiredTime := None |}.
Proof.
  intros H%degenerate_true. unfold calculationResult. by rewrite H.
Qed.

Lemma degenerate_inputs_zero_witness :
  calculationResult defaultInputs {| lorryCapacity := 0; avgSpeed := 31; tipTime := 5 |} 0
  = Some {| lorriesNeeded := Finite 0; totalTripsNeeded := 0; timePerTrip := 0;
            tripsPerLorry := 0; totalValue := 0; totalCost := 0;
            achievableMaterial := Some 0; achievableValue := Some 0;
            requiredTime := None |}.
Proof.
  apply degenerate_inputs_zero. left. simpl. apply Qle_refl.
Defined.

(** ** The infeasible branch *)

(** C10: for inputs that pass the degenerate-value check the admission loop
    of the infeasible branch terminates.  Every admitted trip moves the
    bay-free time on by at least the load duration, so the loop breaks within
    [fuelFor inputs] iterations (one more than the number of load durations
    that fit in the tolerated window), and the count [k] it returns
    satisfies [k * loadTimeHours <= time + 0.0001]. *)
Theorem admission_loop_terminates (inputs : CalculatorInputs)
    (advancedSettings : AdvancedSettings) :
  degenerate inputs advancedSettings = false ->
  (forall (s : Fleet) (d : Trip),
      planTrip (loadTimeHoursOf inputs) s = Some d ->
      loadingBayFreeAt s + loadTimeHoursOf inputs
      <= loadingBayFreeAt
           (commitTrip (travelTimeHoursOf inputs advancedSettings)
              (tipTimeHoursOf advancedSettings) s d))
  /\ exists k : Z,
       (0 <= k)%Z
       /\ inject_Z k * loadTimeHoursOf inputs <= time inputs + (1 # 10000)
       /\ forall fuel : nat, (fuelFor inputs <= fuel)%nat ->
            achievableTripsOf inputs advancedSettings fuel = Some k.
Proof.
  intros Hd. split.
  - intros s d. apply commitTrip_advances.
  - by apply achievableTripsOf_enough.
Qed.

Lemma admission_loop_terminates_witness :
  exists k : Z,
    (0 <= k)%Z
    /\ inject_Z k * loadTimeHoursOf shortWindow <= time shortWindow + (1 # 10000)
    /\ forall fuel : nat, (fuelFor shortWindow <= fuel)%nat ->
         achievableTripsOf shortWindow defaultSettings fuel = Some k.
Proof.
  apply (admission_loop_terminates shortWindow defaultSettings). reflexivity.
Defined.

(** C7: when no fleet size up to the search ceiling succeeds, the solver
    returns a result (once the admission loop is given the iterations it
    needs): [lorriesNeeded] is [Infinity], [totalCost] is 0, [totalValue] is
    [material * pricePerTonne], and [achievableMaterial] and
    [achievableValue] are present. *)
Theorem infeasible_is_reported (inputs : CalculatorInputs)
    (advancedSettings : AdvancedSettings) :
  degenerate inputs advancedSettings = false ->
  (forall n : Z, (1 <= n <= maxLorriesToTest inputs advancedSettings)%Z ->
                 feasibleWith inputs advancedSettings n = false) ->
  exists r : CalculationResult,
    (forall fuel : nat, (fuelFor inputs <= fuel)%nat ->
       calculationResult inputs advancedSettings fuel = Some r)
    /\ lorriesNeeded r = Infinity
    /\ totalCost r = 0
    /\ totalValue r = material inputs * pricePerTonne inputs
    /\ is_Some (achievableMaterial r)
    /\ is_Some (achievableValue r).
Proof.
  intros Hd Hinf%lorriesNeededOf_Infinity.
  destruct (achievableTripsOf_enough inputs advancedSettings Hd) as (k & _ & _ & Hk).
  exists (infeasibleResult inputs advancedSettings k). split.
  - intros fuel Hfuel. apply calculationResult_infeasible; auto.
  - simpl. repeat split; eauto.
Qed.

Lemma infeasible_is_reported_witness :
  exists r : CalculationResult,
    (forall fuel : nat, (fuelFor shortWindow <= fuel)%nat ->
       calculationResult shortWindow defaultSettings fuel = Some r)
    /\ lorriesNeeded r = Infinity
    /\ totalCost r = 0
    /\ totalValue r = 300 * 15
    /\ is_Some (achievableMaterial r)
    /\ is_Some (achievableValue r).
Proof.
  apply (infeasible_is_reported shortWindow defaultSettings).
  - reflexivity.
  - apply lorriesNeededOf_Infinity. vm_compute. reflexivity.
Defined.

(** C8: in the infeasible branch, if in the greedy dispatch at the ceiling
    fleet size the first [k] trips end loading by [time + 0.0001] and the
    next one ends loading after it, then [achievableMaterial] is
    [k * lorryCapacity] and [achievableValue] is that times
    [pricePerTonne]. *)
Theorem achievable_material_boundary (inputs : CalculatorInputs)
    (advancedSettings : AdvancedSettings) (k : nat) :
  degenerate inputs advancedSettings = false ->
  lorriesNeededOf inputs advancedSettings = Infinity ->
  (forall (j : nat) (d : Trip),
      (j < k)%nat ->
      dispatchAll (loadTimeHoursOf inputs) (travelTimeHoursOf inputs advancedSettings)
        (tipTimeHoursOf advancedSettings) (S k)
        (newFleet (maxLorriesToTest inputs advancedSettings)) !! j = Some d ->
      loadEndTime d <= time inputs + (1 # 10000)) ->
  (exists d : Trip,
      dispatchAll (loadTimeHoursOf inputs) (travelTimeHoursOf inputs advancedSettings)
        (tipTimeHoursOf advancedSettings) (S k)
        (newFleet (maxLorriesToTest inputs advancedSettings)) !! k = Some d
      /\ time inputs + (1 # 10000) < loadEndTime d) ->
  exists r : CalculationResult,
    (forall fuel : nat, (k < fuel)%nat ->
       calculationResult inputs advancedSettings fuel = Some r)
    /\ achievableMaterial r = Some (inject_Z (Z.of_nat k) * lorryCapacity advancedSettings)
    /\ achievableValue r
       = Some (inject_Z (Z.of_nat k) * lorryCapacity advancedSettings * pricePerTonne inputs).
Proof.
  intros Hd Hinf Hin Hout.
  exists (infeasibleResult inputs advancedSettings (Z.of_nat k)). split; [|done].
  intros fuel Hfuel. apply calculationResult_infeasible; [done..|].
  unfold achievableTripsOf.
  by rewrite (admitTrips_stops _ _ _ _ k _ 0%Z fuel Hfuel Hin Hout).
Qed.

Lemma achievable_material_boundary_witness :
  exists r : CalculationResult,
    (forall fuel : nat, (3 < fuel)%nat ->
       calculationResult shortWindow defaultSettings fuel = Some r)
    /\ achievableMaterial r = Some (inject_Z 3 * 20)
    /\ achievableValue r = Some (inject_Z 3 * 20 * 15).
Proof.
  apply (achievable_material_boundary shortWindow defaultSettings 3).
  - reflexivity.
  - vm_compute. reflexivity.
  - intros j d Hj Hd. vm_compute in Hd.
    destruct j as [|[|[|j]]]; [| | |lia]; injection Hd as <-; vm_compute; discriminate.
  - eexists. split; [vm_compute; reflexivity|]. vm_compute. reflexivity.
Defined.

(** ** Monotonicity in the fleet size *)

Lemma readyBy_insert (t v : Q) (xs : list Q) : forall (i : nat) (a : Q),
  xs !! i = Some a ->
  (readyBy t (<[i := v]> xs) + (if Qle_bool a t then 1 else 0)
   = readyBy t xs + (if Qle_bool v t then 1 else 0))%nat.
Proof.
  induction xs as [|x xs IH]; intros i a Hi; [done|].
  destruct i as [|i]; simpl in *.
  - simplify_eq. lia.
  - specialize (IH i a Hi). lia.
Qed.

Lemma readyBy_pos (t : Q) (xs : list Q) : forall (i : nat) (a : Q),
  xs !! i = Some a -> a <= t -> (1 <= readyBy t xs)%nat.
Proof.
  induction xs as [|x xs IH]; intros i a Hi Ha; [done|].
  destruct i as [|i]; simpl in *.
  - simplify_eq. apply Qle_bool_iff in Ha. rewrite Ha. lia.
  - specialize (IH i a Hi Ha). lia.
Qed.

Lemma readyBy_zero (t : Q) (xs : list Q) :
  (forall (j : nat) (z : Q), xs !! j = Some z -> t < z) -> readyBy t xs = O.
Proof.
  induction xs as [|x xs IH]; intros H; [done|]. simpl.
  assert (Hx : Qle_bool x t = false).
  { apply not_true_iff_false. rewrite Qle_bool_iff.
    specialize (H O x eq_refl). lra. }
  rewrite Hx, IH; [done|]. intros j z Hz. apply (H (S j)). done.
Qed.

Lemma readyBy_witness (t : Q) (xs : list Q) :
  (1 <= readyBy t xs)%nat -> exists (j : nat) (z : Q), xs !! j = Some z /\ z <= t.
Proof.
  induction xs as [|x xs IH]; simpl; [lia|].
  destruct (Qle_bool x t) eqn:Hx.
  - intros _. exists O, x. split; [done|]. by apply Qle_bool_iff.
  - intros H. destruct IH as (j & z & Hj & Hz); [lia|]. by exists (S j), z.
Qed.

Lemma readyBy_replicate (t : Q) (n : nat) :
  readyBy t (replicate n 0) = if Qle_bool 0 t then n else O.
Proof.
  induction n as [|n IH]; simpl; [by destruct (Qle_bool 0 t)|].
  rewrite IH. by destruct (Qle_bool 0 t).
Qed.

Lemma Qle_bool_mono (a b t : Q) : a <= b -> Qle_bool b t = true -> Qle_bool a t = true.
Proof. rewrite !Qle_bool_iff. intros; lra. Qed.

Section Monotone.
Variables (loadTimeHours travelTimeHours tipTimeHours : Q).

Local Abbreviation plan := (planTrip loadTimeHours).
Local Abbreviation commit := (commitTrip travelTimeHours tipTimeHours).
Local Abbreviation dispatch := (dispatchAll loadTimeHours travelTimeHours tipTimeHours).

(** A fleet that is ahead stays ahead after one trip each, and its trip ends
    loading no later. *)
Lemma ahead_step (a b : Fleet) (da : Trip) :
  ahead a b -> plan a = Some da ->
  exists db : Trip,
    plan b = Some db
    /\ loadEndTime db <= loadEndTime da
    /\ ahead (commit a da) (commit b db).
Proof.
  intros [Hbay Hcount] Ha.
  destruct (planTrip_Some _ _ _ Ha) as (ia & (Hia & Hamin & _) & Hidxa & _ & Hsa & Hea).
  assert (Hb1 : (1 <= readyBy (earliestLorryTime da) (lorriesNextAvailableTime b))%nat).
  { etrans; [|apply Hcount]. eapply readyBy_pos; [exact Hia|apply Qle_refl]. }
  destruct (readyBy_witness _ _ Hb1) as (j & z & Hj & Hz).
  destruct (planTrip_nonempty loadTimeHours b) as [db Hb].
  { intros E. by rewrite E in Hj. }
  exists db. split; [done|].
  destruct (planTrip_Some _ _ _ Hb) as (ib & (Hib & Hbmin & _) & Hidxb & _ & Hsb & Heb).
  assert (Hm : earliestLorryTime db <= earliestLorryTime da).
  { specialize (Hbmin j z Hj). lra. }
  assert (Hs : loadStartTime db <= loadStartTime da).
  { rewrite Hsa, Hsb. apply Q.max_le_compat; done. }
  assert (He : loadEndTime db <= loadEndTime da).
  { rewrite Hea, Heb. lra. }
  split; [done|]. split; [done|].
  intros t. simpl. rewrite Hidxa, Hidxb. simpl.
  pose proof (readyBy_insert t (lorryReturnTime travelTimeHours tipTimeHours da) _ _ _ Hia) as Ea.
  pose proof (readyBy_insert t (lorryReturnTime travelTimeHours tipTimeHours db) _ _ _ Hib) as Eb.
  specialize (Hcount t).
  assert (Hr : Qle_bool (lorryReturnTime travelTimeHours tipTimeHours da) t = true ->
               Qle_bool (lorryReturnTime travelTimeHours tipTimeHours db) t = true).
  { apply Qle_bool_mono. unfold lorryReturnTime. lra. }
  assert (Hmt : Qle_bool (earliestLorryTime da) t = true ->
                Qle_bool (earliestLorryTime db) t = true).
  { by apply Qle_bool_mono. }
  assert (Ha0 : Qle_bool (earliestLorryTime da) t = false ->
                readyBy t (lorriesNextAvailableTime a) = O).
  { intros Hf. apply readyBy_zero. intros k y Hk. specialize (Hamin k y Hk).
    apply not_true_iff_false in Hf. rewrite Qle_bool_iff in Hf. lra. }
  assert (Hb0 : Qle_bool (earliestLorryTime db) t = true ->
                (1 <= readyBy t (lorriesNextAvailableTime b))%nat).
  { intros Ht. eapply readyBy_pos; [exact Hib|]. by apply Qle_bool_iff. }
  destruct (Qle_bool (earliestLorryTime da) t) eqn:E1;
    destruct (Qle_bool (earliestLorryTime db) t) eqn:E2;
    destruct (Qle_bool (lorryReturnTime travelTimeHours tipTimeHours da) t) eqn:E3;
    destruct (Qle_bool (lorryReturnTime travelTimeHours tipTimeHours db) t) eqn:E4;
    try (specialize (Hr eq_refl)); try (specialize (Hmt eq_refl));
    try (specialize (Ha0 eq_refl)); try (specialize (Hb0 eq_refl));
    try discriminate; lia.
Qed.

(** Hence every deadline the trips of [a] keep, the trips of [b] keep. *)
Lemma ahead_dispatch (deadline : Q) (n : nat) : forall a b : Fleet,
  ahead a b -> lorriesNextAvailableTime a <> [] ->
  Forall (fun d => loadEndTime d <= deadline) (dispatch n a) ->
  Forall (fun d => loadEndTime d <= deadline) (dispatch n b).
Proof.
  induction n as [|n IH]; intros a b Hab Ha HF; simpl in *; [constructor|].
  destruct (planTrip_nonempty loadTimeHours a Ha) as [da Hda]. rewrite Hda in HF.
  destruct (ahead_step a b da Hab Hda) as (db & -> & He & Hab').
  apply Forall_cons_1 in HF as [Hd HF]. constructor; [lra|].
  eapply IH; [exact Hab'| |exact HF]. by apply commitTrip_nonempty.
Qed.

Lemma newFleet_ahead (n : Z) : (0 <= n)%Z -> ahead (newFleet n) (newFleet (n + 1)).
Proof.
  intros Hn. split; [apply Qle_refl|]. intros t. simpl.
  rewrite !readyBy_replicate. destruct (Qle_bool 0 t); lia.
Qed.

(** One more lorry never turns a successful candidate into a failing one. *)
Lemma possible_succ (time_ : Q) (totalTrips n : Z) :
  (1 <= n)%Z ->
  possible loadTimeHours travelTimeHours tipTimeHours time_ totalTrips n = true ->
  possible loadTimeHours travelTimeHours tipTimeHours time_ totalTrips (n + 1) = true.
Proof.
  intros Hn. unfold possible.
  destruct (tryTrips_spec loadTimeHours travelTimeHours tipTimeHours time_
              (Z.to_nat totalTrips) (newFleet n)) as [-> _].
  { apply newFleet_nonempty. lia. }
  destruct (tryTrips_spec loadTimeHours travelTimeHours tipTimeHours time_
              (Z.to_nat totalTrips) (newFleet (n + 1))) as [-> _].
  { apply newFleet_nonempty. lia. }
  apply ahead_dispatch; [apply newFleet_ahead; lia|apply newFleet_nonempty; lia].
Qed.
End Monotone.

(** C1: for inputs that pass the degenerate-value check, (1) a candidate
    fleet size succeeds exactly when every trip of the greedy dispatch with
    that many lorries ends loading by [time + 0.0001]; (2) if that holds with
    [n] lorries it holds with [n + 1]; (3) a finite [lorriesNeeded] is the
    least [n] in [1 .. max(50, totalTripsNeeded)] whose dispatch succeeds. *)
Theorem fleet_size_monotone_minimal (inputs : CalculatorInputs)
    (advancedSettings : AdvancedSettings) :
  degenerate inputs advancedSettings = false ->
  (forall n : Z, (1 <= n)%Z ->
     (feasibleWith inputs advancedSettings n = true <->
      Forall (fun d => loadEndTime d <= time inputs + (1 # 10000))
        (dispatchAll (loadTimeHoursOf inputs) (travelTimeHoursOf inputs advancedSettings)
           (tipTimeHoursOf advancedSettings)
           (Z.to_nat (tripsFor inputs advancedSettings)) (newFleet n))))
  /\ (forall n : Z, (1 <= n)%Z ->
        feasibleWith inputs advancedSettings n = true ->
        feasibleWith inputs advancedSettings (n + 1) = true)
  /\ (forall (fuel : nat) (r : CalculationResult) (n : Z),
        calculationResult inputs advancedSettings fuel = Some r ->
        lorriesNeeded r = Finite n ->
        (1 <= n <= Z.max 50 (totalTripsNeeded r))%Z
        /\ feasibleWith inputs advancedSettings n = true
        /\ (forall m : Z, (1 <= m)%Z -> feasibleWith inputs advancedSettings m = true ->
                          (n <= m)%Z)).
Proof.
  intros Hd. split; [|split].
  - intros n Hn. unfold feasibleWith, possible.
    apply tryTrips_spec, newFleet_nonempty. lia.
  - intros n Hn. by apply possible_succ.
  - intros fuel r n Hr Hn.
    rewrite (calculationResult_trips _ _ _ _ Hd Hr).
    revert Hr. unfold calculationResult. rewrite Hd.
    destruct (lorriesNeededOf inputs advancedSettings) as [n'|] eqn:Hs.
    + intros [= <-]. simpl in Hn. simplify_eq.
      destruct (searchFleet_Finite _ _ _ _ _ _ _ _ Hs) as (Hr & Hp & Hmin).
      pose proof (maxLorriesToTest_ge inputs advancedSettings) as [H50 _].
      fold (maxLorriesToTest inputs advancedSettings).
      split; [lia|]. split; [done|].
      intros m Hm Hpm. destruct (Z.le_gt_cases n m) as [|Hlt]; [done|].
      unfold feasibleWith in Hpm. rewrite (Hmin m) in Hpm; [done|lia].
    + destruct (achievableTripsOf inputs advancedSettings fuel); [|done].
      intros [= <-]. done.
Qed.

Lemma fleet_size_monotone_minimal_witness :
  feasibleWith defaultInputs defaultSettings 8 = true
  /\ feasibleWith defaultInputs defaultSettings (8 + 1) = true
  /\ forall (fuel : nat) (r : CalculationResult) (n : Z),
       calculationResult defaultInputs defaultSettings fuel = Some r ->
       lorriesNeeded r = Finite n ->
       (1 <= n <= Z.max 50 (totalTripsNeeded r))%Z
       /\ feasibleWith defaultInputs defaultSettings n = true
       /\ (forall m : Z, (1 <= m)%Z -> feasibleWith defaultInputs defaultSettings m = true ->
                         (n <= m)%Z).
Proof.
  destruct (fleet_size_monotone_minimal defaultInputs defaultSettings eq_refl)
    as (_ & Hmono & Hmin).
  split; [vm_compute; reflexivity|].
  split; [apply Hmono; [lia|vm_compute; reflexivity]|exact Hmin].
Defined.

(** ** The schedule builder replays the dispatch *)

Section Refinement.
Variables (loadTimeHours travelTimeHours tipTimeHours : Q).

Local Abbreviation plan := (planTrip loadTimeHours).
Local Abbreviation commit := (commitTrip travelTimeHours tipTimeHours).
Local Abbreviation dispatch := (dispatchAll loadTimeHours travelTimeHours tipTimeHours).
Local Abbreviation schedule1 := (Gantt.scheduleTrip loadTimeHours travelTimeHours tipTimeHours).
Local Abbreviation scheduleN := (Gantt.scheduleTrips loadTimeHours travelTimeHours tipTimeHours).
Local Abbreviation phasesOf := (Gantt.tripPhasesOf loadTimeHours travelTimeHours tipTimeHours).
Local Abbreviation tripsAt := (tripsOf loadTimeHours travelTimeHours tipTimeHours).
Local Abbreviation grows := (extends loadTimeHours travelTimeHours tipTimeHours).

(** One iteration of the builder is one iteration of the solver's loop on
    the scalars: same lorry, same load start and end, same next state.  It
    also appends the trip to the chosen lorry and to no other. *)
Lemma scheduleTrip_refines (y : Gantt.Yard) :
  Gantt.lorries y <> [] ->
  exists (d : Trip) (y' : Gantt.Yard) (i : nat) (lorry : Lorry.t),
    schedule1 y = Some (d, y')
    /\ plan (fleetOf y) = Some d
    /\ fleetOf y' = commit (fleetOf y) d
    /\ earliestLorryIdx d = Some i
    /\ Gantt.lorries y !! i = Some lorry
    /\ Gantt.lorries y'
       = <[i := {| Lorry.id := Lorry.id lorry;
                   Lorry.trips := Lorry.trips lorry ++ [phasesOf (loadStartTime d)];
                   Lorry.nextAvailableTime :=
                     lorryReturnTime travelTimeHours tipTimeHours d |}]> (Gantt.lorries y).
Proof.
  intros Hne.
  destruct (planTrip_nonempty loadTimeHours (fleetOf y)) as [d Hd].
  { simpl. intros E. apply fmap_nil_inv in E. done. }
  destruct (planTrip_Some _ _ _ Hd) as (i & (Hi & Hmin & Hlt) & Hidx & Hbay & Hs & He).
  simpl in Hi, Hmin, Hlt, Hbay, Hs.
  rewrite list_lookup_fmap in Hi.
  destruct (Gantt.lorries y !! i) as [lorry|] eqn:Hl; [|done].
  simpl in Hi. injection Hi as Hnat.
  assert (Hmm : Math_min (Lorry.nextAvailableTime <$> Gantt.lorries y)
                = Some (earliestLorryTime d)).
  { revert Hd. unfold planTrip. simpl.
    destruct (Math_min _) as [m|]; [|done]. by intros [= <-]. }
  assert (Hfi : findIndex (fun l => Qeq_bool (Lorry.nextAvailableTime l) (earliestLorryTime d))
                  (Gantt.lorries y) = Some i).
  { eapply findIndex_first; [exact Hl| |].
    - rewrite Hnat. apply Qeq_bool_iff. reflexivity.
    - intros j z Hj Hz. apply not_true_iff_false. rewrite Qeq_bool_iff. intros E.
      specialize (Hlt j (Lorry.nextAvailableTime z) Hj).
      rewrite list_lookup_fmap, Hz in Hlt. specialize (Hlt eq_refl).
      rewrite E in Hlt. by apply Qlt_irrefl in Hlt. }
  destruct d as [m ix b s e]. simpl in *. subst.
  eexists _, _, i, lorry.
  split.
  { unfold Gantt.scheduleTrip. rewrite Hmm. simpl. rewrite Hfi. simpl. rewrite Hl. simpl.
    reflexivity. }
  split; [done|]. split.
  { unfold fleetOf, commitTrip. simpl. by rewrite list_fmap_insert. }
  done.
Qed.

(** The builder's loop dispatches the trips of the plain dispatch on the
    scalars, in the same order, and never fails on a fleet that is not
    empty. *)
Lemma scheduleTrips_refines (n : nat) : forall y : Gantt.Yard,
  Gantt.lorries y <> [] ->
  exists y' : Gantt.Yard,
    scheduleN n y = Some (dispatch n (fleetOf y), y')
    /\ grows (dispatch n (fleetOf y)) y y'.
Proof.
  induction n as [|n IH]; intros y Hne.
  - exists y. split; [done|]. split; [done|]. intros i lorry Hl.
    exists lorry. simpl. by rewrite app_nil_r.
  - destruct (scheduleTrip_refines y Hne) as (d & y1 & i0 & l0 & Hs & Hp & Hf & Hidx & Hl0 & Hy1).
    assert (Hne1 : Gantt.lorries y1 <> []).
    { rewrite Hy1. intros E. apply (f_equal length) in E.
      rewrite length_insert in E. destruct (Gantt.lorries y); [done|]. simpl in E. lia. }
    destruct (IH y1 Hne1) as (y2 & Hrun & Hlen & Hext).
    exists y2. simpl. rewrite Hs, Hp. simpl. rewrite Hrun, Hf. simpl.
    split; [done|]. split.
    { rewrite Hlen, Hy1. apply length_insert. }
    intros i lorry Hl. rewrite Hf in Hext.
    destruct (decide (i = i0)) as [->|Hi].
    + destruct (Hext i0 {| Lorry.id := Lorry.id l0;
                           Lorry.trips := Lorry.trips l0 ++ [phasesOf (loadStartTime d)];
                           Lorry.nextAvailableTime :=
                             lorryReturnTime travelTimeHours tipTimeHours d |})
        as (l2 & Hl2 & Hid & Htr).
      { rewrite Hy1. apply list_lookup_insert_eq. by eapply lookup_lt_Some. }
      simplify_eq. exists l2. split; [done|]. split; [done|].
      rewrite Htr. simpl. destruct (decide _) as [_|Hn]; [|done]. by rewrite <- app_assoc.
    + destruct (Hext i lorry) as (l2 & Hl2 & Hid & Htr).
      { rewrite Hy1. by rewrite list_lookup_insert_ne. }
      exists l2. split; [done|]. split; [done|].
      rewrite Htr. simpl. destruct (decide _) as [Hy|_]; [|done]. congruence.
Qed.
End Refinement.

(** ** The chart *)

Lemma newYard_length (n : Z) : length (Gantt.lorries (Gantt.newYard n)) = Z.to_nat n.
Proof. simpl. by rewrite length_imap, length_replicate. Qed.

Lemma newYard_lookup (n : Z) (i : nat) :
  (i < Z.to_nat n)%nat ->
  Gantt.lorries (Gantt.newYard n) !! i
  = Some {| Lorry.id := Z.of_nat i + 1; Lorry.trips := []; Lorry.nextAvailableTime := 0 |}.
Proof.
  intros Hi. simpl. rewrite list_lookup_imap.
  by rewrite lookup_replicate_2.
Qed.

Lemma newYard_fleet (n : Z) : fleetOf (Gantt.newYard n) = newFleet n.
Proof.
  unfold fleetOf, newFleet. f_equal. apply list_eq. intros i.
  rewrite list_lookup_fmap.
  destruct (decide (i < Z.to_nat n)%nat) as [Hi|Hi].
  - rewrite newYard_lookup by done. simpl. by rewrite lookup_replicate_2.
  - rewrite (lookup_ge_None_2 (Gantt.lorries _)) by (rewrite newYard_length; lia).
    simpl. symmetry. apply lookup_ge_None_2. rewrite length_replicate. lia.
Qed.

(** Sorting by id leaves a list alone when its ids go up one by one. *)
Lemma sortById_consecutive (xs : list LorrySchedule.t) : forall c : Z,
  (forall (i : nat) (x : LorrySchedule.t),
      xs !! i = Some x -> LorrySchedule.id x = (Z.of_nat i + c)%Z) ->
  sortById xs = xs.
Proof.
  induction xs as [|x xs IH]; intros c H; [done|]. simpl.
  rewrite (IH (c + 1)%Z).
  - destruct xs as [|y xs]; [done|]. simpl.
    rewrite (H O x eq_refl), (H 1%nat y eq_refl).
    destruct (Z.leb_spec (Z.of_nat 0 + c) (Z.of_nat 1 + c)); [done|lia].
  - intros i y Hy. rewrite (H (S i) y Hy). lia.
Qed.

Lemma sum_list_with_insert {A} (f : A -> nat) (xs : list A) : forall (i : nat) (a b : A),
  xs !! i = Some a ->
  (sum_list_with f (<[i := b]> xs) + f a = sum_list_with f xs + f b)%nat.
Proof.
  induction xs as [|x xs IH]; intros i a b Hi; [done|].
  destruct i as [|i]; simpl in *.
  - simplify_eq. lia.
  - specialize (IH i a b Hi). lia.
Qed.

Lemma sum_list_with_fmap {A B} (f : B -> nat) (g : A -> B) (xs : list A) :
  sum_list_with f (g <$> xs) = sum_list_with (fun x => f (g x)) xs.
Proof. induction xs as [|x xs IH]; csimpl; [done|]. by rewrite IH. Qed.

Section ChartFacts.
Variables (loadTimeHours travelTimeHours tipTimeHours : Q).

Local Abbreviation dispatch := (dispatchAll loadTimeHours travelTimeHours tipTimeHours).
Local Abbreviation scheduleN := (Gantt.scheduleTrips loadTimeHours travelTimeHours tipTimeHours).
Local Abbreviation phasesOf := (Gantt.tripPhasesOf loadTimeHours travelTimeHours tipTimeHours).
Local Abbreviation tripsFor_ := (tripsOf loadTimeHours travelTimeHours tipTimeHours).
Local Abbreviation outbound := (outboundPhasesOf loadTimeHours travelTimeHours tipTimeHours).

(** Every iteration records one trip. *)
Lemma scheduleTrips_total (n : nat) : forall (y y' : Gantt.Yard) (log : list Trip),
  Gantt.lorries y <> [] ->
  scheduleN n y = Some (log, y') ->
  tripTotal (Gantt.lorries y') = (tripTotal (Gantt.lorries y) + n)%nat.
Proof.
  induction n as [|n IH]; intros y y' log Hne H.
  - simpl in H. simplify_eq. lia.
  - destruct (scheduleTrip_refines loadTimeHours travelTimeHours tipTimeHours y Hne)
      as (d & y1 & i0 & l0 & Hs & _ & _ & _ & Hl0 & Hy1).
    simpl in H. rewrite Hs in H. simpl in H.
    destruct (scheduleN n y1) as [[log1 y2]|] eqn:Hrun; [|done].
    simpl in H. simplify_eq.
    assert (Hne1 : Gantt.lorries y1 <> []).
    { rewrite Hy1. intros E. apply (f_equal length) in E.
      rewrite length_insert in E. destruct (Gantt.lorries y); [done|]. simpl in E. lia. }
    rewrite (IH _ _ _ Hne1 Hrun). unfold tripTotal. rewrite Hy1.
    pose proof (sum_list_with_insert (fun l => length (Lorry.trips l)) _ _ _
                  {| Lorry.id := Lorry.id l0;
                     Lorry.trips := Lorry.trips l0 ++ [phasesOf (loadStartTime d)];
                     Lorry.nextAvailableTime := lorryReturnTime travelTimeHours tipTimeHours d |}
                  Hl0) as E.
    simpl in E. rewrite length_app in E. simpl in E. lia.
Qed.

(** What [dropFinalReturn] does to the trips the loop records. *)
Lemma dropFinalReturn_nil (lorry : Lorry.t) :
  Lorry.trips lorry = [] -> Lorry.trips (Gantt.dropFinalReturn lorry) = [].
Proof. intros H. unfold Gantt.dropFinalReturn. by rewrite H. Qed.

Lemma dropFinalReturn_snoc (lorry : Lorry.t) (init : list (list TripPhase)) (s : Q) :
  Lorry.trips lorry = init ++ [phasesOf s] ->
  Lorry.trips (Gantt.dropFinalReturn lorry) = init ++ [outbound s].
Proof.
  intros H. unfold Gantt.dropFinalReturn. rewrite H, last_snoc. simpl.
  by rewrite removelast_last.
Qed.

Lemma dropFinalReturn_id (lorry : Lorry.t) :
  Lorry.id (Gantt.dropFinalReturn lorry) = Lorry.id lorry.
Proof.
  unfold Gantt.dropFinalReturn. destruct (last (Lorry.trips lorry)) as [lt|]; [|done].
  destruct (last lt) as [[? ? []]|]; done.
Qed.

Lemma tripsOf_shape (i : nat) (log : list Trip) :
  Forall (fun t => exists s : Q, t = phasesOf s) (tripsFor_ i log).
Proof.
  induction log as [|d rest IH]; simpl; [constructor|].
  destruct (decide _); [|done]. constructor; [by eexists|done].
Qed.

(** A trip list made by the loop is empty or ends in a full trip. *)
Lemma tripsOf_snoc (i : nat) (log : list Trip) :
  tripsFor_ i log = []
  \/ exists (init : list (list TripPhase)) (s : Q), tripsFor_ i log = init ++ [phasesOf s].
Proof.
  pose proof (tripsOf_shape i log) as HF.
  destruct (tripsFor_ i log) as [|t ts] using rev_ind; [by left|]. right.
  apply Forall_app in HF as [_ HF]. apply Forall_cons_1 in HF as [[s ->] _].
  by exists ts, s.
Qed.

Lemma dropFinalReturn_length (lorry : Lorry.t) (i : nat) (log : list Trip) :
  Lorry.trips lorry = tripsFor_ i log ->
  length (Lorry.trips (Gantt.dropFinalReturn lorry)) = length (Lorry.trips lorry).
Proof.
  intros H. destruct (tripsOf_snoc i log) as [E|(init & s & E)]; rewrite E in H.
  - by rewrite (dropFinalReturn_nil _ H), H.
  - rewrite (dropFinalReturn_snoc _ _ _ H), H. by rewrite !length_app.
Qed.

(** The [k]-th trip given to lorry [i] comes from one entry of the log, and
    [k] counts the entries for lorry [i] before it. *)
Lemma tripsOf_lookup (i : nat) (log : list Trip) : forall (k : nat) (t : list TripPhase),
  tripsFor_ i log !! k = Some t ->
  exists (pos : nat) (d : Trip),
    log !! pos = Some d
    /\ earliestLorryIdx d = Some i
    /\ t = phasesOf (loadStartTime d)
    /\ length (tripsFor_ i (take pos log)) = k.
Proof.
  induction log as [|d rest IH]; intros k t Hk; [done|]. simpl in Hk.
  destruct (decide (earliestLorryIdx d = Some i)) as [Hd|Hd].
  - destruct k as [|k]; simpl in Hk.
    + simplify_eq. by exists O, d.
    + destruct (IH k t Hk) as (pos & d' & Hpos & Hidx & Ht & Hlen).
      exists (S pos), d'. repeat split; [done..|]. simpl.
      destruct (decide _); [|done]. simpl. by rewrite Hlen.
  - destruct (IH k t Hk) as (pos & d' & Hpos & Hidx & Ht & Hlen).
    exists (S pos), d'. repeat split; [done..|]. simpl.
    destruct (decide _); done.
Qed.
End ChartFacts.

(** ** What the builder returns *)

Lemma dispatchAll_lookup_plan (loadTimeHours travelTimeHours tipTimeHours : Q) (n : nat) :
  forall (s : Fleet) (k : nat) (d : Trip),
    dispatchAll loadTimeHours travelTimeHours tipTimeHours n s !! k = Some d ->
    planTrip loadTimeHours (fleetAfter loadTimeHours travelTimeHours tipTimeHours k s) = Some d.
Proof.
  induction n as [|n IH]; intros s k d Hk; [done|]. simpl in Hk.
  destruct (planTrip loadTimeHours s) as [d0|] eqn:Hd0; [|done].
  destruct k as [|k]; simpl in *.
  - by simplify_eq.
  - rewrite Hd0. by apply IH.
Qed.

Lemma dispatchAll_spans (loadTimeHours travelTimeHours tipTimeHours : Q) (n : nat)
    (s : Fleet) (d : Trip) :
  d ∈ dispatchAll loadTimeHours travelTimeHours tipTimeHours n s ->
  loadEndTime d = loadStartTime d + loadTimeHours.
Proof.
  intros [k Hk]%list_elem_of_lookup.
  eapply chained_span; [apply dispatchAll_chained|exact Hk].
Qed.

Section BuildFacts.
Variables (inputs : CalculatorInputs) (advancedSettings : AdvancedSettings).

Local Abbreviation L := (loadTimeHoursOf inputs).
Local Abbreviation R := (travelTimeHoursOf inputs advancedSettings).
Local Abbreviation T := (tipTimeHoursOf advancedSettings).

Lemma build_spec (result : CalculationResult) (n : Z) :
  lorriesNeeded result = Finite n -> (0 < n)%Z ->
  exists (y' : Gantt.Yard) (mt : Q),
    Gantt.build inputs result advancedSettings
    = Some (dispatchAll L R T (Z.to_nat (totalTripsNeeded result)) (newFleet n),
            {| Gantt.schedules :=
                 Gantt.toSchedule <$> (Gantt.dropFinalReturn <$> Gantt.lorries y');
               Gantt.maxTime := mt |})
    /\ length (Gantt.lorries y') = Z.to_nat n
    /\ tripTotal (Gantt.lorries y') = Z.to_nat (totalTripsNeeded result)
    /\ forall (i : nat) (lorry : Lorry.t),
         Gantt.lorries y' !! i = Some lorry ->
         Lorry.id lorry = (Z.of_nat i + 1)%Z
         /\ Lorry.trips lorry
            = tripsOf L R T i
                (dispatchAll L R T (Z.to_nat (totalTripsNeeded result)) (newFleet n)).
Proof.
  intros Hn Hpos.
  assert (Hne : Gantt.lorries (Gantt.newYard n) <> []).
  { intros E. apply (f_equal length) in E. rewrite newYard_length in E. simpl in E. lia. }
  destruct (scheduleTrips_refines L R T (Z.to_nat (totalTripsNeeded result)) _ Hne)
    as (y' & Hrun & Hlen & Hext).
  rewrite newYard_fleet in Hrun, Hext. rewrite newYard_length in Hlen.
  pose proof (scheduleTrips_total L R T _ _ _ _ Hne Hrun) as Htot.
  assert (Hlook : forall (i : nat) (lorry : Lorry.t),
             Gantt.lorries y' !! i = Some lorry ->
             Lorry.id lorry = (Z.of_nat i + 1)%Z
             /\ Lorry.trips lorry
                = tripsOf L R T i
                    (dispatchAll L R T (Z.to_nat (totalTripsNeeded result)) (newFleet n))).
  { intros i lorry Hl.
    assert (Hi : (i < Z.to_nat n)%nat) by (rewrite <- Hlen; by eapply lookup_lt_Some).
    destruct (Hext i _ (newYard_lookup n i Hi)) as (l' & Hl' & Hid & Htr).
    simplify_eq. split; done. }
  eexists y', _. split; [|split; [done|split; [|done]]].
  - unfold Gantt.build. rewrite Hn.
    destruct (Z.leb_spec n 0) as [|_]; [lia|].
    change (loadTime inputs / 60) with L.
    change (distance inputs / avgSpeed advancedSettings) with R.
    change (tipTime advancedSettings / 60) with T.
    rewrite Hrun. simpl. rewrite (sortById_consecutive _ 1); [reflexivity|].
    intros i x. rewrite !list_lookup_fmap.
    destruct (Gantt.lorries y' !! i) as [lorry|] eqn:Hl; [|done].
    simpl. intros [= <-]. simpl. rewrite dropFinalReturn_id.
    by destruct (Hlook i lorry Hl).
  - rewrite Htot. unfold tripTotal.
    assert (E : forall ls : list Lorry.t,
               (forall l, l ∈ ls -> Lorry.trips l = []) ->
               sum_list_with (fun l => length (Lorry.trips l)) ls = O).
    { induction ls as [|l ls IH]; intros H; [done|]. simpl.
      rewrite (H l) by left. rewrite IH; [done|]. intros l' Hl'. apply H. by right. }
    rewrite E; [done|]. intros l [i Hi]%list_elem_of_lookup.
    assert (Hlt : (i < Z.to_nat n)%nat).
    { rewrite <- newYard_length. by eapply lookup_lt_Some. }
    rewrite newYard_lookup in Hi by done. by simplify_eq.
Qed.

(** The schedule of the lorry at index [i]: the trips the log gives it, the
    last one without its return leg. *)
Lemma schedule_trips (i : nat) (log : list Trip) (lorry : Lorry.t) :
  Lorry.trips lorry = tripsOf L R T i log ->
  (tripsOf L R T i log = [] /\ Lorry.trips (Gantt.dropFinalReturn lorry) = [])
  \/ exists (init : list (list TripPhase)) (s : Q),
       tripsOf L R T i log = init ++ [Gantt.tripPhasesOf L R T s]
       /\ Lorry.trips (Gantt.dropFinalReturn lorry) = init ++ [outboundPhasesOf L R T s].
Proof.
  intros H. destruct (tripsOf_snoc L R T i log) as [E|(init & s & E)].
  - left. split; [done|]. apply dropFinalReturn_nil. congruence.
  - right. exists init, s. split; [done|]. apply dropFinalReturn_snoc. congruence.
Qed.

Lemma loadingPhases_tripsOf (i : nat) (log : list Trip) :
  (forall d : Trip, d ∈ log -> loadEndTime d = loadStartTime d + L) ->
  loadingPhases (tripsOf L R T i log) = loadingsFor i log.
Proof.
  unfold loadingPhases, loadingsFor.
  induction log as [|d rest IH]; intros H; [done|].
  assert (IH' := IH (fun d' Hd' => H d' (list_elem_of_further _ _ _ Hd'))).
  rewrite filter_cons. cbn [tripsOf].
  destruct (decide (earliestLorryIdx d = Some i)) as [Hd|Hd]; [|exact IH'].
  rewrite fmap_cons, <- IH', (H d) by left.
  reflexivity.
Qed.

Lemma loadingPhases_outbound (init : list (list TripPhase)) (s : Q) :
  loadingPhases (init ++ [outboundPhasesOf L R T s])
  = loadingPhases (init ++ [Gantt.tripPhasesOf L R T s]).
Proof.
  unfold loadingPhases. rewrite !concat_app, !filter_app. reflexivity.
Qed.
End BuildFacts.

Lemma sum_list_with_ext_in {A} (f g : A -> nat) (xs : list A) :
  (forall x, x ∈ xs -> f x = g x) -> sum_list_with f xs = sum_list_with g xs.
Proof.
  induction xs as [|x xs IH]; intros H; simpl; [done|].
  rewrite (H x) by left. rewrite IH; [done|]. intros y Hy. apply H. by right.
Qed.

Lemma tripsFor_nonneg (inputs : CalculatorInputs) (advancedSettings : AdvancedSettings) :
  0 <= material inputs -> 0 < lorryCapacity advancedSettings ->
  (0 <= tripsFor inputs advancedSettings)%Z.
Proof.
  intros Hm Hc. unfold tripsFor.
  pose proof (Qle_ceiling (material inputs / lorryCapacity advancedSettings)) as Hup.
  assert (H0 : 0 <= material inputs / lorryCapacity advancedSettings).
  { apply Qle_shift_div_l; [done|]. lra. }
  rewrite Zle_Qle. change (inject_Z 0) with 0. lra.
Qed.

(** ** Schedule consistency *)

(** Outside the data model: for a negative material [Math.ceil] is negative,
    the loops run zero times, one lorry is "needed", and the chart holds one
    lorry without trips. *)
Example negative_material_job :
  let inputs := {| material := -300; distance := 20; time := 3; loadTime := 10;
                   startTime := "08:00"; pricePerTonne := 15; costPerLorry := 600 |} in
  exists r : CalculationResult,
    calculationResult inputs defaultSettings 0 = Some r
    /\ lorriesNeeded r = Finite 1
    /\ totalTripsNeeded r = (-15)%Z
    /\ Gantt.GanttChart_schedules inputs r defaultSettings
       = Some [ {| LorrySchedule.id := 1; LorrySchedule.trips := [] |} ].
Proof.
  eexists. split; [vm_compute; reflexivity|]. repeat split.
Qed.

(** C9: for a feasible solve of a job with non-negative material, with
    fleet size [n], the builder returns [n] schedules whose ids are
    1, 2, ..., [n] in this order; together they hold [totalTripsNeeded]
    trips; in every trip each phase ends where the next starts, and the
    phases are loading, travel, tipping, travel, except that the last trip of
    every lorry has lost its final travel phase. *)
Theorem schedule_consistent (inputs : CalculatorInputs)
    (advancedSettings : AdvancedSettings) (fuel : nat) (r : CalculationResult) :
  0 <= material inputs ->
  calculationResult inputs advancedSettings fuel = Some r ->
  isFeasible r = true ->
  exists (n : Z) (scheds : list LorrySchedule.t),
    lorriesNeeded r = Finite n
    /\ (1 <= n)%Z
    /\ Gantt.GanttChart_schedules inputs r advancedSettings = Some scheds
    /\ LorrySchedule.id <$> scheds = (fun i => (Z.of_nat i + 1)%Z) <$> seq 0 (Z.to_nat n)
    /\ Z.of_nat (sum_list_with (fun s => length (LorrySchedule.trips s)) scheds)
       = totalTripsNeeded r
    /\ forall (s : LorrySchedule.t) (k : nat) (trip : list TripPhase),
         s ∈ scheds -> LorrySchedule.trips s !! k = Some trip ->
         contiguous trip
         /\ type <$> trip
            = if decide (S k = length (LorrySchedule.trips s))
              then [loading; travel; tipping]
              else [loading; travel; tipping; travel].
Proof.
  intros Hm Hr Hf.
  destruct (calculationResult_feasible _ _ _ _ Hr Hf)
    as (Hd & n & Hn & _ & Htrips & [Hn1 _] & _ & _).
  destruct (build_spec inputs advancedSettings r n Hn ltac:(lia))
    as (y' & mt & Hb & Hlen & Htot & Hlook).
  exists n, (Gantt.toSchedule <$> (Gantt.dropFinalReturn <$> Gantt.lorries y')).
  split; [done|]. split; [done|]. split.
  { unfold Gantt.GanttChart_schedules. by rewrite Hb. }
  split; [|split].
  - apply list_eq. intros i. rewrite !list_lookup_fmap.
    destruct (decide (i < Z.to_nat n)%nat) as [Hi|Hi].
    + rewrite lookup_seq_lt by done. simpl.
      destruct (lookup_lt_is_Some_2 (Gantt.lorries y') i) as [lorry Hl]; [lia|].
      rewrite Hl. simpl. rewrite dropFinalReturn_id.
      by destruct (Hlook i lorry Hl) as [-> _].
    + rewrite lookup_seq_ge by lia.
      by rewrite (lookup_ge_None_2 (Gantt.lorries y')) by lia.
  - rewrite !sum_list_with_fmap.
    rewrite (sum_list_with_ext_in _ (fun l => length (Lorry.trips l))).
    + fold (tripTotal (Gantt.lorries y')). rewrite Htot, Htrips.
      apply Z2Nat.id. apply tripsFor_nonneg; [done|].
      by apply degenerate_false in Hd as (? & _).
    + intros l [i Hi]%list_elem_of_lookup. simpl.
      destruct (Hlook i l Hi) as [_ Htr].
      by eapply dropFinalReturn_length.
  - intros s k trip Hs Hk.
    apply list_elem_of_fmap in Hs as (l1 & -> & Hs).
    apply list_elem_of_fmap in Hs as (l0 & -> & [i Hi]%list_elem_of_lookup).
    destruct (Hlook i l0 Hi) as [_ Htr]. simpl in *.
    destruct (schedule_trips inputs advancedSettings i _ l0 Htr)
      as [[_ E]|(init & s0 & E0 & E)]; rewrite E in *; [done|].
    rewrite length_app. simpl.
    destruct (decide (k < length init)%nat) as [Hlt|Hge].
    + rewrite lookup_app_l in Hk by done.
      pose proof (tripsOf_shape (loadTimeHoursOf inputs)
                    (travelTimeHoursOf inputs advancedSettings)
                    (tipTimeHoursOf advancedSettings) i
                    (dispatchAll (loadTimeHoursOf inputs)
                       (travelTimeHoursOf inputs advancedSettings)
                       (tipTimeHoursOf advancedSettings)
                       (Z.to_nat (totalTripsNeeded r)) (newFleet n))) as HF.
      rewrite E0 in HF. apply Forall_app in HF as [HF _].
      rewrite Forall_lookup in HF. destruct (HF k trip Hk) as [s1 ->].
      destruct (decide _) as [Hx|_]; [lia|]. simpl. by repeat split.
    + rewrite lookup_app_r in Hk by lia.
      destruct (k - length init)%nat as [|k'] eqn:Ek; [|done].
      simpl in Hk. simplify_eq.
      destruct (decide _) as [_|Hx]; [|lia]. simpl. by repeat split.
Qed.

Lemma schedule_consistent_witness :
  exists (n : Z) (scheds : list LorrySchedule.t),
    lorriesNeeded
      {| lorriesNeeded := Finite 8; totalTripsNeeded := 15;
         timePerTrip := 171900 # 111600; tripsPerLorry := 15 # 8;
         totalValue := 4500; totalCost := 4800;
         achievableMaterial := None; achievableValue := None; requiredTime := None |}
    = Finite n
    /\ (1 <= n)%Z
    /\ Gantt.GanttChart_schedules defaultInputs
         {| lorriesNeeded := Finite 8; totalTripsNeeded := 15;
            timePerTrip := 171900 # 111600; tripsPerLorry := 15 # 8;
            totalValue := 4500; totalCost := 4800;
            achievableMaterial := None; achievableValue := None; requiredTime := None |}
         defaultSettings = Some scheds
    /\ LorrySchedule.id <$> scheds = (fun i => (Z.of_nat i + 1)%Z) <$> seq 0 (Z.to_nat n)
    /\ Z.of_nat (sum_list_with (fun s => length (LorrySchedule.trips s)) scheds) = 15%Z
    /\ forall (s : LorrySchedule.t) (k : nat) (trip : list TripPhase),
         s ∈ scheds -> LorrySchedule.trips s !! k = Some trip ->
         contiguous trip
         /\ type <$> trip
            = if decide (S k = length (LorrySchedule.trips s))
              then [loading; travel; tipping]
              else [loading; travel; tipping; travel].
Proof.
  apply (schedule_consistent defaultInputs defaultSettings 0).
  - discriminate.
  - vm_compute. reflexivity.
  - reflexivity.
Defined.

(** ** The builder against the solver *)

(** C3: for a feasible solve, with fleet size [n], the solver's simulation
    for [n] lorries dispatched a log of trips, all of them ending their
    loading by [time + 0.0001], and the builder run on the result makes the
    same log of [totalTripsNeeded] trips: trip by trip the same lorry, the
    same load start and the same load end.  The lorry of every trip is the one with the least
    next-available time, the lowest index among equals.  The loading phases
    the builder records for the lorry at index [i] are the load intervals of
    the trips the solver gave to that lorry, in order, so each of them ends
    by [time + 0.0001]. *)
Theorem schedule_replays_solver (inputs : CalculatorInputs)
    (advancedSettings : AdvancedSettings) (fuel : nat) (r : CalculationResult) :
  calculationResult inputs advancedSettings fuel = Some r ->
  isFeasible r = true ->
  exists (n : Z) (log : list Trip) (chart : Gantt.Chart),
    lorriesNeeded r = Finite n
    /\ tryTrips (loadTimeHoursOf inputs) (travelTimeHoursOf inputs advancedSettings)
         (tipTimeHoursOf advancedSettings) (time inputs)
         (Z.to_nat (totalTripsNeeded r)) (newFleet n) = (true, log)
    /\ Gantt.build inputs r advancedSettings = Some (log, chart)
    /\ length log = Z.to_nat (totalTripsNeeded r)
    /\ Forall (fun d => loadEndTime d <= time inputs + (1 # 10000)) log
    /\ (forall (k : nat) (d : Trip),
          log !! k = Some d ->
          exists i : nat,
            earliestLorryIdx d = Some i
            /\ earliestAt
                 (lorriesNextAvailableTime
                    (fleetAfter (loadTimeHoursOf inputs)
                       (travelTimeHoursOf inputs advancedSettings)
                       (tipTimeHoursOf advancedSettings) k (newFleet n)))
                 (earliestLorryTime d) i)
    /\ (forall (i : nat) (s : LorrySchedule.t),
          Gantt.schedules chart !! i = Some s ->
          loadingPhases (LorrySchedule.trips s) = loadingsFor i log
          /\ Forall (fun p => snd p <= time inputs + (1 # 10000))
               (loadingPhases (LorrySchedule.trips s))).
Proof.
  intros Hr Hf.
  destruct (calculationResult_feasible _ _ _ _ Hr Hf)
    as (Hd & n & Hn & _ & Htrips & [Hn1 _] & Hp & _).
  destruct (build_spec inputs advancedSettings r n Hn ltac:(lia))
    as (y' & mt & Hb & Hlen & Htot & Hlook).
  unfold feasibleWith, possible in Hp. rewrite <- Htrips in Hp.
  destruct (tryTrips_spec (loadTimeHoursOf inputs) (travelTimeHoursOf inputs advancedSettings)
              (tipTimeHoursOf advancedSettings) (time inputs)
              (Z.to_nat (totalTripsNeeded r)) (newFleet n)) as [Hall Hlog].
  { apply newFleet_nonempty. lia. }
  set (log := dispatchAll (loadTimeHoursOf inputs) (travelTimeHoursOf inputs advancedSettings)
                (tipTimeHoursOf advancedSettings) (Z.to_nat (totalTripsNeeded r))
                (newFleet n)) in *.
  assert (HF : Forall (fun d => loadEndTime d <= time inputs + (1 # 10000)) log)
    by (by apply Hall).
  assert (Hlinks : forall (i : nat) (s : LorrySchedule.t),
             (Gantt.toSchedule <$> (Gantt.dropFinalReturn <$> Gantt.lorries y')) !! i = Some s ->
             loadingPhases (LorrySchedule.trips s) = loadingsFor i log).
  { intros i s. rewrite !list_lookup_fmap.
    destruct (Gantt.lorries y' !! i) as [lorry|] eqn:Hl; [|done].
    simpl. intros [= <-]. simpl.
    destruct (Hlook i lorry Hl) as [_ Htr].
    rewrite <- (loadingPhases_tripsOf inputs advancedSettings).
    - destruct (schedule_trips inputs advancedSettings i _ lorry Htr)
        as [[E0 E]|(init & s0 & E0 & E)]; fold log in E0; rewrite E, E0; [done|].
      apply loadingPhases_outbound.
    - intros d Hdin. by eapply dispatchAll_spans. }
  eexists n, log, _. split; [done|]. split.
  { rewrite (surjective_pairing (tryTrips _ _ _ _ _ _)). by rewrite Hp, (Hlog Hp). }
  split; [exact Hb|]. split.
  { apply dispatchAll_length, newFleet_nonempty. lia. }
  split; [done|]. split.
  - intros k d Hk. apply dispatchAll_lookup_plan in Hk.
    destruct (planTrip_Some _ _ _ Hk) as (i & He & Hi & _). by exists i.
  - intros i s Hs. simpl in Hs. split; [by apply Hlinks|].
    rewrite (Hlinks i s Hs). unfold loadingsFor.
    apply Forall_fmap, Forall_forall. intros d [_ Hdin]%list_elem_of_filter. simpl.
    rewrite Forall_forall in HF. by apply HF.
Qed.

Lemma schedule_replays_solver_witness :
  exists (n : Z) (log : list Trip) (chart : Gantt.Chart),
    Finite 8 = Finite n
    /\ tryTrips (loadTimeHoursOf defaultInputs) (travelTimeHoursOf defaultInputs defaultSettings)
         (tipTimeHoursOf defaultSettings) (time defaultInputs)
         (Z.to_nat 15) (newFleet n) = (true, log)
    /\ Gantt.build defaultInputs
         {| lorriesNeeded := Finite 8; totalTripsNeeded := 15;
            timePerTrip := 171900 # 111600; tripsPerLorry := 15 # 8;
            totalValue := 4500; totalCost := 4800;
            achievableMaterial := None; achievableValue := None; requiredTime := None |}
         defaultSettings = Some (log, chart)
    /\ length log = Z.to_nat 15
    /\ Forall (fun d => loadEndTime d <= time defaultInputs + (1 # 10000)) log
    /\ (forall (k : nat) (d : Trip),
          log !! k = Some d ->
          exists i : nat,
            earliestLorryIdx d = Some i
            /\ earliestAt
                 (lorriesNextAvailableTime
                    (fleetAfter (loadTimeHoursOf defaultInputs)
                       (travelTimeHoursOf defaultInputs defaultSettings)
                       (tipTimeHoursOf defaultSettings) k (newFleet n)))
                 (earliestLorryTime d) i)
    /\ (forall (i : nat) (s : LorrySchedule.t),
          Gantt.schedules chart !! i = Some s ->
          loadingPhases (LorrySchedule.trips s) = loadingsFor i log
          /\ Forall (fun p => snd p <= time defaultInputs + (1 # 10000))
               (loadingPhases (LorrySchedule.trips s))).
Proof.
  apply (schedule_replays_solver defaultInputs defaultSettings 0
           {| lorriesNeeded := Finite 8; totalTripsNeeded := 15;
              timePerTrip := 171900 # 111600; tripsPerLorry := 15 # 8;
              totalValue := 4500; totalCost := 4800;
              achievableMaterial := None; achievableValue := None; requiredTime := None |}).
  - vm_compute. reflexivity.
  - reflexivity.
Defined.

(** ** The loading bay *)

Section BayFacts.
Variables (loadTimeHours travelTimeHours tipTimeHours : Q).

Local Abbreviation phasesOf := (Gantt.tripPhasesOf loadTimeHours travelTimeHours tipTimeHours).
Local Abbreviation outbound := (outboundPhasesOf loadTimeHours travelTimeHours tipTimeHours).

Lemma loading_of_trip (s : Q) (p : TripPhase) :
  p ∈ phasesOf s \/ p ∈ outbound s -> type p = loading ->
  start p = s /\ end_ p = s + loadTimeHours.
Proof.
  unfold outboundPhasesOf, Gantt.tripPhasesOf, pop. simpl.
  intros [H|H] Hp; repeat (apply elem_of_cons in H as [->|H]); try done;
    by apply elem_of_nil in H.
Qed.

Lemma phasesOf_inj (s s' : Q) : phasesOf s = phasesOf s' -> s = s'.
Proof. unfold Gantt.tripPhasesOf. by intros [= ->]. Qed.

(** A builder step starts the load when both the chosen lorry and the bay
    are free. *)
Lemma scheduleTrip_gate (y y' : Gantt.Yard) (d : Trip) :
  Gantt.scheduleTrip loadTimeHours travelTimeHours tipTimeHours y = Some (d, y') ->
  exists (i : nat) (lorry : Lorry.t),
    earliestLorryIdx d = Some i
    /\ Gantt.lorries y !! i = Some lorry
    /\ bayFreeBefore d = Gantt.loadingBayFreeAt y
    /\ loadStartTime d = Qmax (Lorry.nextAvailableTime lorry) (Gantt.loadingBayFreeAt y).
Proof.
  unfold Gantt.scheduleTrip.
  destruct (Math_min _) as [m|]; [|done]. simpl.
  destruct (findIndex _ _) as [i|]; [|done]. simpl.
  destruct (Gantt.lorries y !! i) as [lorry|] eqn:Hl; [|done]. simpl.
  intros [= <- <-]. by exists i, lorry.
Qed.
End BayFacts.

Lemma planTrip_gate (loadTimeHours : Q) (s : Fleet) (d : Trip) :
  planTrip loadTimeHours s = Some d ->
  exists (i : nat) (v : Q),
    earliestLorryIdx d = Some i
    /\ lorriesNextAvailableTime s !! i = Some v
    /\ bayFreeBefore d = loadingBayFreeAt s
    /\ loadStartTime d = Qmax v (loadingBayFreeAt s).
Proof.
  intros H. destruct (planTrip_Some _ _ _ H) as (i & (Hi & _) & Hidx & Hb & Hs & _).
  by exists i, (earliestLorryTime d).
Qed.

(** In a built chart, a trip that is loading is a trip of the log that is
    loading; its position in the log determines the lorry and the trip. *)
Lemma occupiesBay_log (inputs : CalculatorInputs) (advancedSettings : AdvancedSettings)
    (r : CalculationResult) (log : list Trip) (chart : Gantt.Chart)
    (i k : nat) (s : LorrySchedule.t) (t : Q) :
  Gantt.build inputs r advancedSettings = Some (log, chart) ->
  Gantt.schedules chart !! i = Some s ->
  occupiesBay s k t ->
  chained (loadTimeHoursOf inputs) 0 log
  /\ exists (pos : nat) (d : Trip),
       log !! pos = Some d
       /\ earliestLorryIdx d = Some i
       /\ loadingAt d t
       /\ length (tripsOf (loadTimeHoursOf inputs) (travelTimeHoursOf inputs advancedSettings)
                    (tipTimeHoursOf advancedSettings) i (take pos log)) = k.
Proof.
  intros Hb Hs (trip & p & Hk & Hp & Hty & Ht1 & Ht2).
  assert (Hn : exists n : Z, lorriesNeeded r = Finite n /\ (0 < n)%Z).
  { revert Hb. unfold Gantt.build. destruct (lorriesNeeded r) as [n|].
    - destruct (Z.leb_spec n 0); [|by exists n]. intros [= <- <-]. done.
    - intros [= <- <-]. done. }
  destruct Hn as (n & Hn & Hpos).
  destruct (build_spec inputs advancedSettings r n Hn Hpos)
    as (y' & mt & Hb' & _ & _ & Hlook).
  rewrite Hb in Hb'. injection Hb' as -> ->.
  split; [apply (dispatchAll_chained _ _ _ _ (newFleet n))|].
  simpl in Hs. rewrite !list_lookup_fmap in Hs.
  destruct (Gantt.lorries y' !! i) as [lorry|] eqn:Hl; [|done].
  simpl in Hs. injection Hs as <-. simpl in Hk.
  destruct (Hlook i lorry Hl) as [_ Htr].
  set (log := dispatchAll _ _ _ _ _) in *.
  assert (Hfrom : exists s0 : Q,
             tripsOf (loadTimeHoursOf inputs) (travelTimeHoursOf inputs advancedSettings)
               (tipTimeHoursOf advancedSettings) i log !! k
             = Some (Gantt.tripPhasesOf (loadTimeHoursOf inputs)
                       (travelTimeHoursOf inputs advancedSettings)
                       (tipTimeHoursOf advancedSettings) s0)
             /\ (p ∈ Gantt.tripPhasesOf (loadTimeHoursOf inputs)
                       (travelTimeHoursOf inputs advancedSettings)
                       (tipTimeHoursOf advancedSettings) s0
                 \/ p ∈ outboundPhasesOf (loadTimeHoursOf inputs)
                       (travelTimeHoursOf inputs advancedSettings)
                       (tipTimeHoursOf advancedSettings) s0)).
  { destruct (schedule_trips inputs advancedSettings i log lorry Htr)
      as [[_ E]|(init & s0 & E0 & E)]; rewrite E in Hk; [done|].
    destruct (decide (k < length init)%nat) as [Hlt|Hge].
    - rewrite lookup_app_l in Hk by done.
      pose proof (tripsOf_shape (loadTimeHoursOf inputs)
                    (travelTimeHoursOf inputs advancedSettings)
                    (tipTimeHoursOf advancedSettings) i log) as HF.
      rewrite E0 in HF. apply Forall_app in HF as [HF _].
      rewrite Forall_lookup in HF. destruct (HF k trip Hk) as [s1 ->].
      exists s1. split; [|by left]. rewrite E0. by rewrite lookup_app_l.
    - rewrite lookup_app_r in Hk by lia.
      destruct (k - length init)%nat as [|k'] eqn:Ek; [|done].
      simpl in Hk. simplify_eq. exists s0. split; [|by right].
      rewrite E0, lookup_app_r by lia. by rewrite Ek. }
  destruct Hfrom as (s0 & Hs0 & Hin).
  destruct (tripsOf_lookup _ _ _ _ _ _ _ Hs0) as (pos & d & Hd & Hidx & Heq & Hlen).
  apply phasesOf_inj in Heq. subst s0.
  destruct (loading_of_trip _ _ _ _ _ Hin Hty) as [Hst Hen].
  exists pos, d. split; [done|]. split; [done|]. split; [|done].
  unfold loadingAt.
  rewrite (dispatchAll_spans _ _ _ _ _ d (list_elem_of_lookup_2 _ _ _ Hd)).
  rewrite <- Hst at 1. rewrite <- Hen at 1. done.
Qed.

(** C4: for inputs that pass the degenerate-value check the loading bay
    holds one lorry at a time, in every run of every loop.
    (1) and (4): a trip starts loading at the maximum of the next-available
    time of the lorry chosen for it and the bay-free time, in the solver's
    loops and in the builder's.  (2) and (3): in the trips dispatched by the
    search loop, and in those of the plain dispatch (which the admission and
    required-time loops follow), two different trips never load at the same
    time.  (5): in a built chart, two different trips, of the same lorry or
    of two lorries, never have their loading phases overlap. *)
Theorem loading_bay_exclusive (inputs : CalculatorInputs)
    (advancedSettings : AdvancedSettings) :
  degenerate inputs advancedSettings = false ->
  (forall (s : Fleet) (d : Trip),
      planTrip (loadTimeHoursOf inputs) s = Some d ->
      exists (i : nat) (v : Q),
        earliestLorryIdx d = Some i
        /\ lorriesNextAvailableTime s !! i = Some v
        /\ loadStartTime d = Qmax v (loadingBayFreeAt s)
        /\ v <= loadStartTime d /\ loadingBayFreeAt s <= loadStartTime d)
  /\ (forall (numLorries : Z) (n i j : nat) (a b : Trip) (t : Q),
        i <> j ->
        snd (tryTrips (loadTimeHoursOf inputs) (travelTimeHoursOf inputs advancedSettings)
               (tipTimeHoursOf advancedSettings) (time inputs) n (newFleet numLorries))
          !! i = Some a ->
        snd (tryTrips (loadTimeHoursOf inputs) (travelTimeHoursOf inputs advancedSettings)
               (tipTimeHoursOf advancedSettings) (time inputs) n (newFleet numLorries))
          !! j = Some b ->
        ~ (loadingAt a t /\ loadingAt b t))
  /\ (forall (numLorries : Z) (n i j : nat) (a b : Trip) (t : Q),
        i <> j ->
        dispatchAll (loadTimeHoursOf inputs) (travelTimeHoursOf inputs advancedSettings)
          (tipTimeHoursOf advancedSettings) n (newFleet numLorries) !! i = Some a ->
        dispatchAll (loadTimeHoursOf inputs) (travelTimeHoursOf inputs advancedSettings)
          (tipTimeHoursOf advancedSettings) n (newFleet numLorries) !! j = Some b ->
        ~ (loadingAt a t /\ loadingAt b t))
  /\ (forall (y y' : Gantt.Yard) (d : Trip),
        Gantt.scheduleTrip (loadTimeHoursOf inputs) (travelTimeHoursOf inputs advancedSettings)
          (tipTimeHoursOf advancedSettings) y = Some (d, y') ->
        exists (i : nat) (lorry : Lorry.t),
          earliestLorryIdx d = Some i
          /\ Gantt.lorries y !! i = Some lorry
          /\ loadStartTime d
             = Qmax (Lorry.nextAvailableTime lorry) (Gantt.loadingBayFreeAt y)
          /\ Lorry.nextAvailableTime lorry <= loadStartTime d
          /\ Gantt.loadingBayFreeAt y <= loadStartTime d)
  /\ (forall (r : CalculationResult) (log : list Trip) (chart : Gantt.Chart)
             (i j k l : nat) (sa sb : LorrySchedule.t) (t : Q),
        Gantt.build inputs r advancedSettings = Some (log, chart) ->
        (i, k) <> (j, l) ->
        Gantt.schedules chart !! i = Some sa ->
        Gantt.schedules chart !! j = Some sb ->
        ~ (occupiesBay sa k t /\ occupiesBay sb l t)).
Proof.
  intros (_ & _ & _ & HL%loadTimeHoursOf_pos)%degenerate_false.
  assert (HL0 : 0 <= loadTimeHoursOf inputs) by lra.
  split; [|split; [|split; [|split]]].
  - intros s d Hd. destruct (planTrip_gate _ _ _ Hd) as (i & v & Hi & Hv & _ & Hs).
    exists i, v. repeat split; [done..| |]; rewrite Hs;
      [apply Q.le_max_l|apply Q.le_max_r].
  - intros numLorries n i j a b t Hij Ha Hb.
    eapply chained_exclusive; [exact HL0|apply tryTrips_chained|exact Hij|exact Ha|exact Hb].
  - intros numLorries n i j a b t Hij Ha Hb.
    eapply chained_exclusive; [exact HL0|apply dispatchAll_chained|exact Hij|exact Ha|exact Hb].
  - intros y y' d Hd. destruct (scheduleTrip_gate _ _ _ _ _ _ Hd) as (i & lorry & Hi & Hl & _ & Hs).
    exists i, lorry. repeat split; [done..| |]; rewrite Hs;
      [apply Q.le_max_l|apply Q.le_max_r].
  - intros r log chart i j k l sa sb t Hb Hne Hsa Hsb [Ha Hbb].
    destruct (occupiesBay_log _ _ _ _ _ _ _ _ _ Hb Hsa Ha)
      as (Hch & pa & da & Hpa & Hia & Hla & Hka).
    destruct (occupiesBay_log _ _ _ _ _ _ _ _ _ Hb Hsb Hbb)
      as (_ & pb & db & Hpb & Hib & Hlb & Hkb).
    destruct (decide (pa = pb)) as [->|Hp].
    + simplify_eq.
    + by eapply (chained_exclusive _ log 0 pa pb da db t HL0 Hch Hp Hpa Hpb).
Qed.

(** The first two trips of the default job with eight lorries load on
    [0, 1/6) and [1/6, 1/3). *)
Lemma loading_bay_exclusive_witness :
  dispatchAll (loadTimeHoursOf defaultInputs)
    (travelTimeHoursOf defaultInputs defaultSettings)
    (tipTimeHoursOf defaultSettings) 2 (newFleet 8)
  = [ {| earliestLorryTime := 0; earliestLorryIdx := Some 0%nat; bayFreeBefore := 0;
         loadStartTime := 0; loadEndTime := 10 # 60 |};
      {| earliestLorryTime := 0; earliestLorryIdx := Some 1%nat; bayFreeBefore := 10 # 60;
         loadStartTime := 10 # 60; loadEndTime := 1200 # 3600 |} ]
  /\ ~ (loadingAt {| earliestLorryTime := 0; earliestLorryIdx := Some 0%nat;
                     bayFreeBefore := 0; loadStartTime := 0; loadEndTime := 10 # 60 |}
          (1 # 6)
        /\ loadingAt {| earliestLorryTime := 0; earliestLorryIdx := Some 1%nat;
                        bayFreeBefore := 10 # 60; loadStartTime := 10 # 60;
                        loadEndTime := 1200 # 3600 |}
             (1 # 6)).
Proof.
  split; [vm_compute; reflexivity|].
  destruct (loading_bay_exclusive defaultInputs defaultSettings eq_refl)
    as (_ & _ & Hrun & _).
  apply (Hrun 8%Z 2%nat 0%nat 1%nat); [lia|vm_compute; reflexivity..].
Defined.

(** * Further properties of the solver *)

(** ** When the bay alone decides *)

Lemma inject_nat_S (j : nat) : inject_Z (Z.of_nat (S j)) == inject_Z (Z.of_nat j) + 1.
Proof. rewrite Nat2Z.inj_succ, <- Z.add_1_r, inject_Z_plus. reflexivity. Qed.

Lemma inject_nat_le (i j : nat) : (i <= j)%nat -> inject_Z (Z.of_nat i) <= inject_Z (Z.of_nat j).
Proof. intros H. rewrite <- Zle_Qle. lia. Qed.

Section BayBound.
Variables (loadTimeHours travelTimeHours tipTimeHours : Q).
Hypothesis loadTime_nonneg : 0 <= loadTimeHours.

Local Abbreviation plan := (planTrip loadTimeHours).
Local Abbreviation commit := (commitTrip travelTimeHours tipTimeHours).
Local Abbreviation dispatch := (dispatchAll loadTimeHours travelTimeHours tipTimeHours).

(** The bay loads one trip after the other: trip number [j] (from 0)
    cannot end loading before [j + 1] load durations have passed. *)
Lemma chained_load_ends (log : list Trip) : forall (bay : Q) (j : nat) (d : Trip),
  chained loadTimeHours bay log -> log !! j = Some d ->
  bay + inject_Z (Z.of_nat (S j)) * loadTimeHours <= loadEndTime d.
Proof.
  induction log as [|d0 rest IH]; intros bay j d Hc Hj; [done|].
  destruct Hc as (Hs & He & Hc). destruct j as [|j]; simpl in Hj.
  - simplify_eq. rewrite He. change (inject_Z (Z.of_nat 1)) with 1. lra.
  - specialize (IH _ _ _ Hc Hj). rewrite (inject_nat_S (S j)). rewrite He in IH. lra.
Qed.

(** While lorries that never left (or are back by time 0) remain, the
    bay is the only constraint: trip number [j] ends loading exactly
    [j + 1] load durations after the bay was free. *)
Lemma dispatchAll_bay_bound (n : nat) : forall (s : Fleet) (j : nat) (d : Trip),
  0 <= loadingBayFreeAt s ->
  (n <= readyBy 0 (lorriesNextAvailableTime s))%nat ->
  dispatch n s !! j = Some d ->
  loadEndTime d == loadingBayFreeAt s + inject_Z (Z.of_nat (S j)) * loadTimeHours.
Proof.
  induction n as [|n IH]; intros s j d Hbay Hidle Hj; [done|]. simpl in Hj.
  destruct (readyBy_witness 0 (lorriesNextAvailableTime s)) as (i0 & z & Hi0 & Hz); [lia|].
  destruct (planTrip_nonempty loadTimeHours s) as [d0 Hd0].
  { intros E. by rewrite E in Hi0. }
  rewrite Hd0 in Hj.
  destruct (planTrip_Some _ _ _ Hd0) as (i & (Hi & Hmin & _) & Hidx & _ & Hs & He).
  assert (Hm : earliestLorryTime d0 <= 0) by (specialize (Hmin _ _ Hi0); lra).
  assert (Hstart : loadStartTime d0 == loadingBayFreeAt s).
  { rewrite Hs. apply Q.max_r. lra. }
  assert (Hend : loadEndTime d0 == loadingBayFreeAt s + loadTimeHours).
  { rewrite He, Hstart. reflexivity. }
  destruct j as [|j]; simpl in Hj.
  - simplify_eq. rewrite Hend. change (inject_Z (Z.of_nat 1)) with 1. lra.
  - rewrite (IH (commit s d0) j d); [| | |exact Hj].
    + simpl. rewrite Hend, (inject_nat_S (S j)). lra.
    + simpl. rewrite Hend. lra.
    + simpl. rewrite Hidx. simpl.
      pose proof (readyBy_insert 0 (lorryReturnTime travelTimeHours tipTimeHours d0) _ _ _ Hi) as E.
      destruct (Qle_bool (earliestLorryTime d0) 0);
        destruct (Qle_bool (lorryReturnTime travelTimeHours tipTimeHours d0) 0); lia.
Qed.

Lemma newFleet_idle (numLorries : Z) :
  readyBy 0 (lorriesNextAvailableTime (newFleet numLorries)) = Z.to_nat numLorries.
Proof. simpl. by rewrite readyBy_replicate. Qed.

(** Every successful candidate fits all the loads in the tolerated window. *)
Lemma possible_needs_bay (time_ : Q) (totalTrips numLorries : Z) :
  0 < time_ -> (1 <= numLorries)%Z ->
  possible loadTimeHours travelTimeHours tipTimeHours time_ totalTrips numLorries = true ->
  inject_Z (Z.of_nat (Z.to_nat totalTrips)) * loadTimeHours <= time_ + (1 # 10000).
Proof.
  intros HT Hn. unfold possible.
  destruct (tryTrips_spec loadTimeHours travelTimeHours tipTimeHours time_
              (Z.to_nat totalTrips) (newFleet numLorries)) as [-> _].
  { apply newFleet_nonempty. lia. }
  intros HF. destruct (Z.to_nat totalTrips) as [|k] eqn:Ek.
  { change (inject_Z (Z.of_nat 0)) with 0. lra. }
  destruct (lookup_lt_is_Some_2 (dispatch (S k) (newFleet numLorries)) k) as [d Hd].
  { rewrite dispatchAll_length; [lia|]. apply newFleet_nonempty. lia. }
  rewrite Forall_lookup in HF. specialize (HF k d Hd). simpl in HF.
  pose proof (chained_load_ends _ _ _ _ (dispatchAll_chained _ _ _ _ _) Hd) as Hlow.
  simpl in Hlow. lra.
Qed.

(** With a lorry per trip, fitting the loads in the window is all it
    takes. *)
Lemma possible_by_bay (time_ : Q) (totalTrips numLorries : Z) :
  (1 <= numLorries)%Z -> (totalTrips <= numLorries)%Z ->
  inject_Z (Z.of_nat (Z.to_nat totalTrips)) * loadTimeHours <= time_ + (1 # 10000) ->
  possible loadTimeHours travelTimeHours tipTimeHours time_ totalTrips numLorries = true.
Proof.
  intros Hn Hle Hfit. unfold possible.
  destruct (tryTrips_spec loadTimeHours travelTimeHours tipTimeHours time_
              (Z.to_nat totalTrips) (newFleet numLorries)) as [-> _].
  { apply newFleet_nonempty. lia. }
  apply Forall_lookup. intros j d Hd. simpl.
  assert (Hj : (j < Z.to_nat totalTrips)%nat).
  { apply lookup_lt_Some in Hd. rewrite dispatchAll_length in Hd; [done|].
    apply newFleet_nonempty. lia. }
  assert (Hbay : 0 <= loadingBayFreeAt (newFleet numLorries)) by (simpl; lra).
  assert (Hidle : (Z.to_nat totalTrips
                   <= readyBy 0 (lorriesNextAvailableTime (newFleet numLorries)))%nat).
  { rewrite newFleet_idle. lia. }
  rewrite (dispatchAll_bay_bound _ _ _ _ Hbay Hidle Hd). simpl.
  pose proof (inject_nat_le (S j) (Z.to_nat totalTrips) Hj) as Hi.
  pose proof (Qmult_le_compat_r _ _ _ Hi loadTime_nonneg). lra.
Qed.
End BayBound.

(** ** Feasibility in closed form *)

Lemma tripsFor_withWindow (inputs : CalculatorInputs) (advancedSettings : AdvancedSettings) (w : Q) :
  tripsFor (withWindow inputs w) advancedSettings = tripsFor inputs advancedSettings
  /\ maxLorriesToTest (withWindow inputs w) advancedSettings
     = maxLorriesToTest inputs advancedSettings
  /\ loadTimeHoursOf (withWindow inputs w) = loadTimeHoursOf inputs
  /\ travelTimeHoursOf (withWindow inputs w) advancedSettings
     = travelTimeHoursOf inputs advancedSettings.
Proof. done. Qed.

Lemma trips_times_load (trips : Z) (L deadline : Q) :
  0 < L -> 0 < deadline ->
  (deadline < inject_Z trips * L <-> deadline < inject_Z (Z.of_nat (Z.to_nat trips)) * L).
Proof.
  intros HL HD. destruct (Z.le_gt_cases 0 trips) as [H0|H0].
  - by rewrite Z2Nat.id.
  - assert (Hneg : inject_Z trips <= 0).
    { change 0 with (inject_Z 0). rewrite <- Zle_Qle. lia. }
    pose proof (Qmult_le_compat_r _ _ _ Hneg (Qlt_le_weak _ _ HL)).
    replace (Z.to_nat trips) with O by lia. change (inject_Z (Z.of_nat 0)) with 0.
    split; intros; lra.
Qed.

(** No fleet is found exactly when the loads alone do not fit in the
    tolerated window; then no fleet of any size passes the test. *)
Lemma lorriesNeededOf_Infinity_iff (inputs : CalculatorInputs)
    (advancedSettings : AdvancedSettings) :
  degenerate inputs advancedSettings = false ->
  (lorriesNeededOf inputs advancedSettings = Infinity <->
   time inputs + (1 # 10000)
   < inject_Z (tripsFor inputs advancedSettings) * loadTimeHoursOf inputs)
  /\ (lorriesNeededOf inputs advancedSettings = Infinity ->
      forall n : Z, (1 <= n)%Z -> feasibleWith inputs advancedSettings n = false).
Proof.
  intros (_ & _ & HT & HL%loadTimeHoursOf_pos)%degenerate_false.
  assert (HL0 : 0 <= loadTimeHoursOf inputs) by lra.
  pose proof (maxLorriesToTest_ge inputs advancedSettings) as [H50 Hmax].
  assert (Hall : time inputs + (1 # 10000)
                 < inject_Z (tripsFor inputs advancedSettings) * loadTimeHoursOf inputs ->
                 forall n : Z, (1 <= n)%Z -> feasibleWith inputs advancedSettings n = false).
  { intros Hover n Hn. apply not_true_iff_false. intros Hp.
    apply trips_times_load in Hover; [|done|lra].
    pose proof (possible_needs_bay _ _ _ _ _ _ HT Hn Hp). lra. }
  assert (Hiff : lorriesNeededOf inputs advancedSettings = Infinity <->
                 time inputs + (1 # 10000)
                 < inject_Z (tripsFor inputs advancedSettings) * loadTimeHoursOf inputs).
  { split.
    - intros Hinf. rewrite lorriesNeededOf_Infinity in Hinf.
      specialize (Hinf (maxLorriesToTest inputs advancedSettings) ltac:(lia)).
      apply trips_times_load; [done|lra|]. apply Qnot_le_lt. intros Hfit.
      unfold feasibleWith in Hinf.
      rewrite (possible_by_bay _ (travelTimeHoursOf inputs advancedSettings)
                 (tipTimeHoursOf advancedSettings) HL0 (time inputs)) in Hinf;
        [done|lia|lia|done].
    - intros Hover. apply lorriesNeededOf_Infinity. intros n Hn. apply Hall; [done|lia]. }
  split; [done|]. intros Hinf. by apply Hall, Hiff.
Qed.



(** X2: when the solver reports [Infinity], the search ceiling
    [max(50, totalTripsNeeded)] has hidden nothing: the dispatch fails for
    every fleet size, however large. *)
Theorem infeasible_for_every_fleet (inputs : CalculatorInputs)
    (advancedSettings : AdvancedSettings) (fuel : nat) (r : CalculationResult) :
  degenerate inputs advancedSettings = false ->
  calculationResult inputs advancedSettings fuel = Some r ->
  lorriesNeeded r = Infinity ->
  forall n : Z, (1 <= n)%Z -> feasibleWith inputs advancedSettings n = false.
Proof.
  intros Hd Hr Hinf.
  apply (lorriesNeededOf_Infinity_iff inputs advancedSettings Hd).
  revert Hr Hinf. unfold calculationResult. rewrite Hd.
  destruct (lorriesNeededOf inputs advancedSettings) as [n|]; [|done].
  by intros [= <-].
Qed.

Lemma infeasible_for_every_fleet_witness :
  feasibleWith shortWindow defaultSettings 1000 = false.
Proof.
  apply (infeasible_for_every_fleet shortWindow defaultSettings 4
           (infeasibleResult shortWindow defaultSettings 3)).
  - reflexivity.
  - vm_compute. reflexivity.
  - reflexivity.
  - lia.
Defined.

(** X3: a feasible solve never asks for more lorries than there are trips
    (one lorry when there is no trip), so with at least one trip
    [tripsPerLorry] is at least 1. *)
Theorem lorries_at_most_trips (inputs : CalculatorInputs)
    (advancedSettings : AdvancedSettings) (fuel : nat) (r : CalculationResult) (n : Z) :
  degenerate inputs advancedSettings = false ->
  calculationResult inputs advancedSettings fuel = Some r ->
  lorriesNeeded r = Finite n ->
  (1 <= n <= Z.max 1 (totalTripsNeeded r))%Z
  /\ ((1 <= totalTripsNeeded r)%Z -> 1 <= tripsPerLorry r).
Proof.
  intros Hd Hr Hn.
  assert (Hf : isFeasible r = true /\ tripsPerLorry r
               = inject_Z (tripsFor inputs advancedSettings) / inject_Z n
               /\ lorriesNeededOf inputs advancedSettings = Finite n).
  { revert Hr Hn. unfold calculationResult, isFeasible. rewrite Hd.
    destruct (lorriesNeededOf inputs advancedSettings) as [n'|] eqn:Hs.
    - intros [= <-]. simpl. intros [= ->].
      destruct (searchFleet_Finite _ _ _ _ _ _ _ _ Hs) as (Hrange & _).
      destruct (Z.ltb_spec 0 n); [done|lia].
    - destruct (achievableTripsOf inputs advancedSettings fuel); [|done].
      by intros [= <-]. }
  destruct Hf as (Hf & Hper & Hs).
  rewrite (calculationResult_trips _ _ _ _ Hd Hr), Hper.
  destruct (searchFleet_Finite _ _ _ _ _ _ _ _ Hs) as (Hrange & Hp & Hmin).
  apply degenerate_false in Hd as (_ & _ & HT & HL%loadTimeHoursOf_pos).
  assert (HL0 : 0 <= loadTimeHoursOf inputs) by lra.
  assert (Hle : (n <= Z.max 1 (tripsFor inputs advancedSettings))%Z).
  { destruct (Z.le_gt_cases n (Z.max 1 (tripsFor inputs advancedSettings))) as [|Hgt]; [done|].
    exfalso. assert (Hn1 : (1 <= n)%Z) by lia.
    pose proof (possible_needs_bay _ _ _ _ _ _ HT Hn1 Hp) as Hfit.
    assert (H1 : (1 <= Z.max 1 (tripsFor inputs advancedSettings))%Z) by lia.
    assert (H2 : (tripsFor inputs advancedSettings
                  <= Z.max 1 (tripsFor inputs advancedSettings))%Z) by lia.
    pose proof (possible_by_bay _ (travelTimeHoursOf inputs advancedSettings)
                  (tipTimeHoursOf advancedSettings) HL0 (time inputs) _ _ H1 H2 Hfit) as Hm.
    rewrite (Hmin (Z.max 1 (tripsFor inputs advancedSettings))) in Hm; [done|lia]. }
  split; [lia|]. intros Htrips.
  assert (Hnpos : 0 < inject_Z n).
  { change 0 with (inject_Z 0). rewrite <- Zlt_Qlt. lia. }
  apply Qle_shift_div_l; [done|]. rewrite Qmult_1_l, <- Zle_Qle. lia.
Qed.

Lemma lorries_at_most_trips_witness :
  (1 <= 8 <= Z.max 1 15)%Z /\ ((1 <= 15)%Z -> 1 <= 15 # 8).
Proof.
  apply (lorries_at_most_trips defaultInputs defaultSettings 0
           {| lorriesNeeded := Finite 8; totalTripsNeeded := 15;
              timePerTrip := 171900 # 111600; tripsPerLorry := 15 # 8;
              totalValue := 4500; totalCost := 4800;
              achievableMaterial := None; achievableValue := None; requiredTime := None |}).
  - reflexivity.
  - vm_compute. reflexivity.
  - reflexivity.
Defined.

(** ** The infeasible branch in closed form *)

(** What the infeasible branch computes: the count of the admission loop is
    the number of whole load durations in the tolerated window, and the
    required time is [totalTripsNeeded] load durations. *)
Lemma infeasible_branch_values (inputs : CalculatorInputs)
    (advancedSettings : AdvancedSettings) :
  degenerate inputs advancedSettings = false ->
  lorriesNeededOf inputs advancedSettings = Infinity ->
  (0 <= Qfloor ((time inputs + (1 # 10000)) / loadTimeHoursOf inputs)
   < tripsFor inputs advancedSettings)%Z
  /\ (forall (fuel : nat) (k : Z),
        achievableTripsOf inputs advancedSettings fuel = Some k ->
        k = Qfloor ((time inputs + (1 # 10000)) / loadTimeHoursOf inputs))
  /\ requiredTimeOf inputs advancedSettings
     == inject_Z (tripsFor inputs advancedSettings) * loadTimeHoursOf inputs.
Proof.
  intros Hd Hinf.
  pose proof (proj1 (proj1 (lorriesNeededOf_Infinity_iff inputs advancedSettings Hd)) Hinf)
    as Hover.
  apply degenerate_false in Hd as (_ & _ & HT & HL%loadTimeHoursOf_pos).
  assert (HL0 : 0 <= loadTimeHoursOf inputs) by lra.
  pose proof (maxLorriesToTest_ge inputs advancedSettings) as [H50 Hmax].
  set (L := loadTimeHoursOf inputs) in *.
  set (D := time inputs + (1 # 10000)) in *.
  set (trips := tripsFor inputs advancedSettings) in *.
  assert (HDL : D / L * L == D).
  { field. intros E. rewrite E in HL. by apply Qlt_irrefl in HL. }
  pose proof (Qfloor_le (D / L)) as Hfl. pose proof (Qlt_floor (D / L)) as Hfu.
  apply (Qmult_le_r _ _ _ HL) in Hfl. apply (Qmult_lt_r _ _ _ HL) in Hfu.
  rewrite HDL in Hfl, Hfu.
  assert (Hk0 : (0 <= Qfloor (D / L))%Z).
  { change 0%Z with (Qfloor 0). apply Qfloor_resp_le.
    apply Qle_shift_div_l; [done|]. unfold D. lra. }
  assert (Hkt : (Qfloor (D / L) < trips)%Z).
  { rewrite Zlt_Qlt. apply (Qmult_lt_r _ _ _ HL). lra. }
  assert (Hidle : forall n : nat, (n <= Z.to_nat trips)%nat ->
            (n <= readyBy 0 (lorriesNextAvailableTime
                               (newFleet (maxLorriesToTest inputs advancedSettings))))%nat).
  { intros n Hn. rewrite newFleet_idle. lia. }
  assert (Hbay : 0 <= loadingBayFreeAt (newFleet (maxLorriesToTest inputs advancedSettings)))
    by (simpl; lra).
  split; [lia|]. split.
  - intros fuel k Hk. unfold achievableTripsOf in Hk.
    set (k0 := Z.to_nat (Qfloor (D / L))).
    assert (Hstop : admitTrips L (travelTimeHoursOf inputs advancedSettings)
                      (tipTimeHoursOf advancedSettings) (time inputs)
                      (Nat.max fuel (S k0))
                      (newFleet (maxLorriesToTest inputs advancedSettings)) 0
                    = Some (0 + Z.of_nat k0)%Z).
    { apply admitTrips_stops; [lia| |].
      - intros j d Hj Hdj.
        rewrite (dispatchAll_bay_bound L _ _ HL0 _ _ _ _ Hbay (Hidle (S k0) ltac:(lia)) Hdj).
        simpl. pose proof (inject_nat_le (S j) k0 Hj) as Hi.
        pose proof (Qmult_le_compat_r _ _ _ Hi HL0).
        unfold k0 in *. rewrite Z2Nat.id in * by done. fold D. lra.
      - destruct (lookup_lt_is_Some_2
                    (dispatchAll L (travelTimeHoursOf inputs advancedSettings)
                       (tipTimeHoursOf advancedSettings) (S k0)
                       (newFleet (maxLorriesToTest inputs advancedSettings))) k0) as [d Hdk].
        { rewrite dispatchAll_length; [lia|]. apply newFleet_nonempty. lia. }
        exists d. split; [done|].
        rewrite (dispatchAll_bay_bound L _ _ HL0 _ _ _ _ Hbay (Hidle (S k0) ltac:(lia)) Hdk).
        simpl. rewrite (inject_nat_S k0). unfold k0. rewrite Z2Nat.id by done.
        fold D. rewrite inject_Z_plus in Hfu. change (inject_Z 1) with 1 in Hfu. lra. }
    pose proof (admitTrips_fuel_mono _ _ _ _ fuel (Nat.max fuel (S k0)) _ _ _
                  ltac:(lia) Hk) as Hk'.
    assert (Heq : Some k = Some (0 + Z.of_nat k0)%Z).
    { etrans; [symmetry; exact Hk'|exact Hstop]. }
    injection Heq as ->. unfold k0. lia.
  - unfold requiredTimeOf.
    change (tripsFor inputs advancedSettings) with trips.
    change (loadTimeHoursOf inputs) with L.
    rewrite requiredLoop_last by (apply newFleet_nonempty; lia).
    assert (Hpos : (0 < trips)%Z) by lia.
    destruct (Z.to_nat trips) as [|m] eqn:Em; [lia|].
    rewrite last_lookup, dispatchAll_length by (apply newFleet_nonempty; lia).
    change (Init.Nat.pred (S m)) with m.
    destruct (lookup_lt_is_Some_2
                (dispatchAll L (travelTimeHoursOf inputs advancedSettings)
                   (tipTimeHoursOf advancedSettings) (S m)
                   (newFleet (maxLorriesToTest inputs advancedSettings))) m) as [d Hdm].
    { rewrite dispatchAll_length; [lia|]. apply newFleet_nonempty. lia. }
    rewrite Hdm. change (default 0 (loadEndTime <$> Some d)) with (loadEndTime d).
    rewrite (dispatchAll_bay_bound L _ _ HL0 _ _ _ _ Hbay (Hidle (S m) ltac:(lia)) Hdm).
    rewrite <- Em, Z2Nat.id by lia. simpl. lra.
Qed.

Lemma calculationResult_Infinity (inputs : CalculatorInputs)
    (advancedSettings : AdvancedSettings) (fuel : nat) (r : CalculationResult) :
  degenerate inputs advancedSettings = false ->
  calculationResult inputs advancedSettings fuel = Some r ->
  lorriesNeeded r = Infinity ->
  lorriesNeededOf inputs advancedSettings = Infinity
  /\ exists k : Z,
       achievableTripsOf inputs advancedSettings fuel = Some k
       /\ r = infeasibleResult inputs advancedSettings k.
Proof.
  intros Hd. unfold calculationResult. rewrite Hd.
  destruct (lorriesNeededOf inputs advancedSettings) as [n|].
  - by intros [= <-].
  - destruct (achievableTripsOf inputs advancedSettings fuel) as [k|]; [|done].
    intros [= <-] _. split; [done|]. by exists k.
Qed.



(** X5: in the infeasible branch the achievable material is not negative
    and falls short of the target by more than nothing: it is strictly less
    than [material]. *)
Theorem achievable_below_target (inputs : CalculatorInputs)
    (advancedSettings : AdvancedSettings) (fuel : nat) (r : CalculationResult) :
  degenerate inputs advancedSettings = false ->
  calculationResult inputs advancedSettings fuel = Some r ->
  lorriesNeeded r = Infinity ->
  exists a : Q, achievableMaterial r = Some a /\ 0 <= a /\ a < material inputs.
Proof.
  intros Hd Hr Hinf.
  destruct (calculationResult_Infinity _ _ _ _ Hd Hr Hinf) as (Hs & k & Hk & ->).
  destruct (infeasible_branch_values _ _ Hd Hs) as ([Hk0 Hkt] & Hfloor & _).
  rewrite <- (Hfloor fuel k Hk) in Hk0, Hkt.
  apply degenerate_false in Hd as (Hc & _).
  eexists. split; [reflexivity|].
  assert (H0 : 0 <= inject_Z k).
  { change 0 with (inject_Z 0). rewrite <- Zle_Qle. lia. }
  split; [by apply Qmult_le_0_compat; [|apply Qlt_le_weak]|].
  assert (H1 : inject_Z k <= inject_Z (tripsFor inputs advancedSettings - 1)).
  { rewrite <- Zle_Qle. lia. }
  pose proof (Qmult_le_compat_r _ _ _ H1 (Qlt_le_weak _ _ Hc)) as H2.
  pose proof (Qceiling_lt (material inputs / lorryCapacity advancedSettings)) as Hlow.
  apply (Qmult_lt_r _ _ _ Hc) in Hlow.
  assert (Hx : material inputs / lorryCapacity advancedSettings
               * lorryCapacity advancedSettings == material inputs).
  { field. intros E. rewrite E in Hc. by apply Qlt_irrefl in Hc. }
  rewrite Hx in Hlow. unfold tripsFor in H2. lra.
Qed.

Lemma achievable_below_target_witness :
  exists a : Q,
    achievableMaterial (infeasibleResult shortWindow defaultSettings 3) = Some a
    /\ 0 <= a /\ a < 300.
Proof.
  apply (achievable_below_target shortWindow defaultSettings 4).
  - reflexivity.
  - vm_compute. reflexivity.
  - reflexivity.
Defined.



(** ** Changing the window *)

Lemma calculationResult_lorries (inputs : CalculatorInputs)
    (advancedSettings : AdvancedSettings) (fuel : nat) (r : CalculationResult) :
  degenerate inputs advancedSettings = false ->
  calculationResult inputs advancedSettings fuel = Some r ->
  lorriesNeeded r = lorriesNeededOf inputs advancedSettings.
Proof.
  intros Hd. unfold calculationResult. rewrite Hd.
  destruct (lorriesNeededOf inputs advancedSettings) as [n|].
  - by intros [= <-].
  - destruct (achievableTripsOf inputs advancedSettings fuel); [|done]. by intros [= <-].
Qed.

Lemma degenerate_withWindow (inputs : CalculatorInputs)
    (advancedSettings : AdvancedSettings) (w : Q) :
  degenerate inputs advancedSettings = false -> 0 < w ->
  degenerate (withWindow inputs w) advancedSettings = false.
Proof.
  rewrite !degenerate_false. simpl. tauto.
Qed.

Lemma possible_window_mono (loadTimeHours travelTimeHours tipTimeHours time_ time' : Q)
    (totalTrips numLorries : Z) :
  time_ <= time' -> (1 <= numLorries)%Z ->
  possible loadTimeHours travelTimeHours tipTimeHours time_ totalTrips numLorries = true ->
  possible loadTimeHours travelTimeHours tipTimeHours time' totalTrips numLorries = true.
Proof.
  intros Hle Hn. unfold possible.
  destruct (tryTrips_spec loadTimeHours travelTimeHours tipTimeHours time_
              (Z.to_nat totalTrips) (newFleet numLorries)) as [-> _].
  { apply newFleet_nonempty. lia. }
  destruct (tryTrips_spec loadTimeHours travelTimeHours tipTimeHours time'
              (Z.to_nat totalTrips) (newFleet numLorries)) as [-> _].
  { apply newFleet_nonempty. lia. }
  intros HF. eapply Forall_impl; [exact HF|]. intros d Hd. simpl in *. lra.
Qed.

(** A search that meets a successful candidate returns one that is no
    larger. *)
Lemma searchFleet_at_most (loadTimeHours travelTimeHours tipTimeHours time_ : Q)
    (totalTrips : Z) (candidates : nat) (from n : Z) :
  (from <= n < from + Z.of_nat candidates)%Z ->
  possible loadTimeHours travelTimeHours tipTimeHours time_ totalTrips n = true ->
  exists n' : Z,
    searchFleet loadTimeHours travelTimeHours tipTimeHours time_ totalTrips candidates from
    = Finite n'
    /\ (from <= n' <= n)%Z.
Proof.
  intros Hn Hp.
  destruct (searchFleet loadTimeHours travelTimeHours tipTimeHours time_ totalTrips
              candidates from) as [n'|] eqn:Hs.
  - destruct (searchFleet_Finite _ _ _ _ _ _ _ _ Hs) as (Hr & _ & Hmin).
    exists n'. split; [done|]. split; [lia|].
    destruct (Z.le_gt_cases n' n) as [|Hgt]; [done|].
    rewrite (Hmin n) in Hp; [done|lia].
  - rewrite searchFleet_Infinity in Hs. rewrite (Hs n Hn) in Hp. done.
Qed.

(** X7: the required time the infeasible branch reports is the window
    that makes the job feasible, up to the tolerance: solving the same job
    again with a window [w] is still infeasible exactly when
    [w + 0.0001] is below the reported required time.  In particular the
    job solved with the required time as its window is feasible. *)
Theorem required_time_is_least_window (inputs : CalculatorInputs)
    (advancedSettings : AdvancedSettings) (fuel fuel' : nat)
    (r r' : CalculationResult) (t w : Q) :
  degenerate inputs advancedSettings = false ->
  calculationResult inputs advancedSettings fuel = Some r ->
  lorriesNeeded r = Infinity ->
  requiredTime r = Some t ->
  0 < w ->
  calculationResult (withWindow inputs w) advancedSettings fuel' = Some r' ->
  (lorriesNeeded r' = Infinity <-> w + (1 # 10000) < t).
Proof.
  intros Hd Hr Hinf Ht Hw Hr'.
  destruct (calculationResult_Infinity _ _ _ _ Hd Hr Hinf) as (Hs & k & Hk & ->).
  destruct (infeasible_branch_values _ _ Hd Hs) as (_ & _ & Hreq).
  pose proof (proj1 (proj1 (lorriesNeededOf_Infinity_iff inputs advancedSettings Hd)) Hs)
    as Hover.
  assert (Et : t = requiredTimeOf inputs advancedSettings).
  { simpl in Ht. destruct (Qgt_bool _ _); by simplify_eq. }
  pose proof (degenerate_withWindow _ _ w Hd Hw) as Hd'.
  rewrite (calculationResult_lorries _ _ _ _ Hd' Hr').
  rewrite (proj1 (lorriesNeededOf_Infinity_iff _ _ Hd')).
  destruct (tripsFor_withWindow inputs advancedSettings w) as (-> & _ & -> & _).
  simpl. rewrite Et, Hreq. reflexivity.
Qed.

Lemma required_time_is_least_window_witness :
  Finite 10 = Infinity
  <-> (5 # 2) + (1 # 10000) < 1175462461440000000000000000 # 470184984576000000000000000.
Proof.
  apply (required_time_is_least_window shortWindow defaultSettings 4 0
           (infeasibleResult shortWindow defaultSettings 3)
           {| lorriesNeeded := Finite 10; totalTripsNeeded := 15;
              timePerTrip := 171900 # 111600; tripsPerLorry := 15 # 10;
              totalValue := 4500; totalCost := 6000;
              achievableMaterial := None; achievableValue := None; requiredTime := None |}).
  - reflexivity.
  - vm_compute. reflexivity.
  - reflexivity.
  - vm_compute. reflexivity.
  - reflexivity.
  - vm_compute. reflexivity.
Defined.

(** Setting the window is what [handleInputChange('time', w)] does. *)
Lemma withWindow_handleInputChange (inputs : CalculatorInputs) (w : Q) :
  withWindow inputs w = handleInputChange Time w inputs.
Proof. reflexivity. Qed.

(** X8: a longer window never needs more lorries: if the job is feasible
    with [n] lorries, the same job with a window [w >= time] is feasible
    with some [n' <= n]. *)
Theorem longer_window_no_more_lorries (inputs : CalculatorInputs)
    (advancedSettings : AdvancedSettings) (fuel fuel' : nat)
    (r r' : CalculationResult) (n : Z) (w : Q) :
  degenerate inputs advancedSettings = false ->
  time inputs <= w ->
  calculationResult inputs advancedSettings fuel = Some r ->
  lorriesNeeded r = Finite n ->
  calculationResult (withWindow inputs w) advancedSettings fuel' = Some r' ->
  exists n' : Z, lorriesNeeded r' = Finite n' /\ (1 <= n' <= n)%Z.
Proof.
  intros Hd Hw Hr Hn Hr'.
  assert (Hw0 : 0 < w).
  { apply degenerate_false in Hd as (_ & _ & HT & _). lra. }
  pose proof (degenerate_withWindow _ _ w Hd Hw0) as Hd'.
  rewrite (calculationResult_lorries _ _ _ _ Hd Hr) in Hn.
  rewrite (calculationResult_lorries _ _ _ _ Hd' Hr').
  destruct (searchFleet_Finite _ _ _ _ _ _ _ _ Hn) as (Hrange & Hp & _).
  apply (possible_window_mono _ _ _ _ w) in Hp; [|done|lia].
  unfold lorriesNeededOf.
  destruct (tripsFor_withWindow inputs advancedSettings w) as (-> & -> & -> & ->).
  apply searchFleet_at_most; done.
Qed.

Lemma longer_window_no_more_lorries_witness :
  exists n' : Z, Finite 5 = Finite n' /\ (1 <= n' <= 8)%Z.
Proof.
  apply (longer_window_no_more_lorries defaultInputs defaultSettings 0 0
           {| lorriesNeeded := Finite 8; totalTripsNeeded := 15;
              timePerTrip := 171900 # 111600; tripsPerLorry := 15 # 8;
              totalValue := 4500; totalCost := 4800;
              achievableMaterial := None; achievableValue := None; requiredTime := None |}
           {| lorriesNeeded := Finite 5; totalTripsNeeded := 15;
              timePerTrip := 171900 # 111600; tripsPerLorry := 15 # 5;
              totalValue := 4500; totalCost := 3000;
              achievableMaterial := None; achievableValue := None; requiredTime := None |}
           8 4).
  - reflexivity.
  - discriminate.
  - vm_compute. reflexivity.
  - reflexivity.
  - vm_compute. reflexivity.
Defined.

(** * Further properties of the schedule builder *)

(** ** The builder never fails *)

(** The chart of a result with a positive fleet size, spelled out. *)
Lemma build_chart (inputs : CalculatorInputs) (advancedSettings : AdvancedSettings)
    (result : CalculationResult) (n : Z) :
  lorriesNeeded result = Finite n -> (0 < n)%Z ->
  exists y' : Gantt.Yard,
    Gantt.scheduleTrips (loadTimeHoursOf inputs) (travelTimeHoursOf inputs advancedSettings)
      (tipTimeHoursOf advancedSettings) (Z.to_nat (totalTripsNeeded result)) (Gantt.newYard n)
    = Some (dispatchAll (loadTimeHoursOf inputs) (travelTimeHoursOf inputs advancedSettings)
              (tipTimeHoursOf advancedSettings) (Z.to_nat (totalTripsNeeded result))
              (newFleet n), y')
    /\ Gantt.build inputs result advancedSettings
       = Some (dispatchAll (loadTimeHoursOf inputs) (travelTimeHoursOf inputs advancedSettings)
                 (tipTimeHoursOf advancedSettings) (Z.to_nat (totalTripsNeeded result))
                 (newFleet n),
               {| Gantt.schedules :=
                    Gantt.toSchedule <$> (Gantt.dropFinalReturn <$> Gantt.lorries y');
                  Gantt.maxTime :=
                    inject_Z (Qceiling (Gantt.latestEnd (time inputs)
                                          (Gantt.dropFinalReturn <$> Gantt.lorries y'))) |})
    /\ length (Gantt.lorries y') = Z.to_nat n
    /\ forall (i : nat) (lorry : Lorry.t),
         Gantt.lorries y' !! i = Some lorry ->
         Lorry.id lorry = (Z.of_nat i + 1)%Z
         /\ Lorry.trips lorry
            = tripsOf (loadTimeHoursOf inputs) (travelTimeHoursOf inputs advancedSettings)
                (tipTimeHoursOf advancedSettings) i
                (dispatchAll (loadTimeHoursOf inputs)
                   (travelTimeHoursOf inputs advancedSettings)
                   (tipTimeHoursOf advancedSettings) (Z.to_nat (totalTripsNeeded result))
                   (newFleet n)).
Proof.
  intros Hn Hpos.
  assert (Hne : Gantt.lorries (Gantt.newYard n) <> []).
  { intros E. apply (f_equal length) in E. rewrite newYard_length in E. simpl in E. lia. }
  destruct (scheduleTrips_refines (loadTimeHoursOf inputs)
              (travelTimeHoursOf inputs advancedSettings) (tipTimeHoursOf advancedSettings)
              (Z.to_nat (totalTripsNeeded result)) _ Hne) as (y' & Hrun & Hlen' & Hext).
  rewrite newYard_fleet in Hrun, Hext. rewrite newYard_length in Hlen'.
  assert (Hlook : forall (i : nat) (lorry : Lorry.t),
             Gantt.lorries y' !! i = Some lorry ->
             Lorry.id lorry = (Z.of_nat i + 1)%Z
             /\ Lorry.trips lorry
                = tripsOf (loadTimeHoursOf inputs) (travelTimeHoursOf inputs advancedSettings)
                    (tipTimeHoursOf advancedSettings) i
                    (dispatchAll (loadTimeHoursOf inputs)
                       (travelTimeHoursOf inputs advancedSettings)
                       (tipTimeHoursOf advancedSettings) (Z.to_nat (totalTripsNeeded result))
                       (newFleet n))).
  { intros i lorry Hl.
    assert (Hi : (i < Z.to_nat n)%nat) by (rewrite <- Hlen'; by eapply lookup_lt_Some).
    destruct (Hext i _ (newYard_lookup n i Hi)) as (l' & Hl' & Hid & Htr).
    simplify_eq. split; done. }
  exists y'. split; [done|]. split; [|done].
  unfold Gantt.build. rewrite Hn.
  destruct (Z.leb_spec n 0) as [|_]; [lia|].
  change (loadTime inputs / 60) with (loadTimeHoursOf inputs).
  change (distance inputs / avgSpeed advancedSettings)
    with (travelTimeHoursOf inputs advancedSettings).
  change (tipTime advancedSettings / 60) with (tipTimeHoursOf advancedSettings).
  rewrite Hrun. simpl. rewrite (sortById_consecutive _ 1); [reflexivity|].
  intros i x. rewrite !list_lookup_fmap.
  destruct (Gantt.lorries y' !! i) as [lorry|] eqn:Hl; [|done].
  simpl. intros [= <-]. simpl. rewrite dropFinalReturn_id.
  by destruct (Hlook i lorry Hl).
Qed.


(** ** The time axis *)

(** A fold that keeps a running maximum: it never decreases, it is above
    every value it has seen, and it ends on its start value or on a value
    it has seen. *)
Section RunningMax.
Context {A : Type}.
Variable step : Q -> A -> Q.
Variable seen : A -> Q -> Prop.

Hypothesis step_max : forall (acc : Q) (x : A),
  acc <= step acc x
  /\ (forall e : Q, seen x e -> e <= step acc x)
  /\ (step acc x = acc \/ seen x (step acc x)).

Lemma foldl_runningMax (l : list A) (acc : Q) :
  acc <= foldl step acc l
  /\ (forall (x : A) (e : Q), x ∈ l -> seen x e -> e <= foldl step acc l)
  /\ (foldl step acc l = acc \/ exists x : A, x ∈ l /\ seen x (foldl step acc l)).
Proof.
  revert acc. induction l as [|x l IH]; intros acc; simpl.
  - split; [lra|]. split; [|by left]. intros x e Hx. by apply elem_of_nil in Hx.
  - destruct (IH (step acc x)) as (H1 & H2 & H3).
    destruct (step_max acc x) as (S1 & S2 & S3).
    split; [lra|]. split.
    + intros y e [->|Hy]%elem_of_cons Hs.
      * specialize (S2 e Hs). lra.
      * eauto.
    + destruct H3 as [E|(y & Hy & Hs)].
      * rewrite E. destruct S3 as [E'|Hs]; [by left|].
        right. exists x. split; [left|done].
      * right. exists y. split; [by right|done].
Qed.
End RunningMax.

(** The latest end of lines 97-106: the window, or the end of a phase
    drawn, whichever is later. *)
Lemma latestEnd_spec (calculatedMaxTime : Q) (ls : list Lorry.t) :
  calculatedMaxTime <= Gantt.latestEnd calculatedMaxTime ls
  /\ (forall (lorry : Lorry.t) (trip : list TripPhase) (phase : TripPhase),
        lorry ∈ ls -> trip ∈ Lorry.trips lorry -> phase ∈ trip ->
        end_ phase <= Gantt.latestEnd calculatedMaxTime ls)
  /\ (Gantt.latestEnd calculatedMaxTime ls = calculatedMaxTime
      \/ exists (lorry : Lorry.t) (trip : list TripPhase) (phase : TripPhase),
           lorry ∈ ls /\ trip ∈ Lorry.trips lorry /\ phase ∈ trip
           /\ Gantt.latestEnd calculatedMaxTime ls = end_ phase).
Proof.
  assert (Hphase : forall (acc : Q) (phase : TripPhase),
             acc <= (if Qgt_bool (end_ phase) acc then end_ phase else acc)
             /\ (forall e : Q, e = end_ phase ->
                 e <= (if Qgt_bool (end_ phase) acc then end_ phase else acc))
             /\ ((if Qgt_bool (end_ phase) acc then end_ phase else acc) = acc
                 \/ (if Qgt_bool (end_ phase) acc then end_ phase else acc) = end_ phase)).
  { intros acc phase. destruct (Qgt_bool (end_ phase) acc) eqn:E.
    - apply Qgt_bool_true in E. split; [lra|]. split; [intros e ->; lra|by right].
    - apply Qgt_bool_false in E. split; [lra|]. split; [intros e ->; lra|by left]. }
  pose proof (foldl_runningMax
                (fun acc phase => if Qgt_bool (end_ phase) acc then end_ phase else acc)
                (fun phase e => e = end_ phase) Hphase) as Htrip.
  assert (Htrip' : forall (acc : Q) (trip : list TripPhase),
             acc <= foldl (fun acc phase =>
                             if Qgt_bool (end_ phase) acc then end_ phase else acc) acc trip
             /\ (forall e : Q, (exists phase, phase ∈ trip /\ e = end_ phase) ->
                 e <= foldl (fun acc phase =>
                               if Qgt_bool (end_ phase) acc then end_ phase else acc) acc trip)
             /\ (foldl (fun acc phase =>
                          if Qgt_bool (end_ phase) acc then end_ phase else acc) acc trip = acc
                 \/ exists phase, phase ∈ trip
                      /\ foldl (fun acc phase =>
                                  if Qgt_bool (end_ phase) acc then end_ phase else acc)
                           acc trip = end_ phase)).
  { intros acc trip. destruct (Htrip trip acc) as (H1 & H2 & H3).
    split; [done|]. split; [|done]. intros e (phase & Hp & ->). by eapply H2. }
  pose proof (foldl_runningMax _ (fun trip e => exists phase, phase ∈ trip /\ e = end_ phase)
                Htrip') as Hlorry.
  assert (Hlorry' : forall (acc : Q) (lorry : Lorry.t),
             acc <= foldl (fun acc trip =>
                             foldl (fun acc phase =>
                                      if Qgt_bool (end_ phase) acc then end_ phase else acc)
                                   acc trip) acc (Lorry.trips lorry)
             /\ (forall e : Q,
                   (exists trip phase, trip ∈ Lorry.trips lorry /\ phase ∈ trip
                                       /\ e = end_ phase) ->
                   e <= foldl (fun acc trip =>
                                 foldl (fun acc phase =>
                                          if Qgt_bool (end_ phase) acc then end_ phase else acc)
                                       acc trip) acc (Lorry.trips lorry))
             /\ (foldl (fun acc trip =>
                          foldl (fun acc phase =>
                                   if Qgt_bool (end_ phase) acc then end_ phase else acc)
                                acc trip) acc (Lorry.trips lorry) = acc
                 \/ exists trip phase, trip ∈ Lorry.trips lorry /\ phase ∈ trip
                      /\ foldl (fun acc trip =>
                                  foldl (fun acc phase =>
                                           if Qgt_bool (end_ phase) acc
                                           then end_ phase else acc)
                                        acc trip) acc (Lorry.trips lorry) = end_ phase)).
  { intros acc lorry. destruct (Hlorry (Lorry.trips lorry) acc) as (H1 & H2 & H3).
    split; [done|]. split.
    - intros e (trip & phase & Ht & Hp & ->). eapply H2; [exact Ht|]. by exists phase.
    - destruct H3 as [E|(trip & Ht & phase & Hp & E)]; [by left|].
      right. by exists trip, phase. }
  destruct (foldl_runningMax _
              (fun lorry e => exists trip phase, trip ∈ Lorry.trips lorry /\ phase ∈ trip
                                                 /\ e = end_ phase)
              Hlorry' ls calculatedMaxTime) as (H1 & H2 & H3).
  split; [exact H1|]. split.
  - intros lorry trip phase Hl Ht Hp. eapply (H2 lorry); [done|]. by exists trip, phase.
  - destruct H3 as [E|(lorry & Hl & trip & phase & Ht & Hp & E)]; [by left|].
    right. by exists lorry, trip, phase.
Qed.



(** ** One lorry at a time *)


Section OneLorry.
Variables (loadTimeHours travelTimeHours tipTimeHours : Q).
Local Abbreviation schedule1 := (Gantt.scheduleTrip loadTimeHours travelTimeHours tipTimeHours).
Local Abbreviation scheduleN := (Gantt.scheduleTrips loadTimeHours travelTimeHours tipTimeHours).
Local Abbreviation phasesOf := (Gantt.tripPhasesOf loadTimeHours travelTimeHours tipTimeHours).
Local Abbreviation outbound := (outboundPhasesOf loadTimeHours travelTimeHours tipTimeHours).



End OneLorry.




(** ** Round robin *)

Lemma succ_div_mod (N m : nat) :
  (0 < m)%nat ->
  ((S (N mod m) < m)%nat /\ (S N / m = N / m)%nat /\ (S N mod m = S (N mod m))%nat)
  \/ (S (N mod m) = m /\ (S N / m = S (N / m))%nat /\ (S N mod m = 0)%nat).
Proof.
  intros Hm.
  pose proof (Nat.div_mod_eq N m) as E.
  pose proof (Nat.mod_upper_bound N m ltac:(lia)) as Hlt.
  destruct (decide (S (N mod m) < m)%nat) as [Hs|Hs].
  - left. split; [done|]. split.
    + symmetry. apply (Nat.div_unique (S N) m (N / m) (S (N mod m))); lia.
    + symmetry. apply (Nat.mod_unique (S N) m (N / m) (S (N mod m))); lia.
  - right. split; [lia|]. split.
    + symmetry. apply (Nat.div_unique (S N) m (S (N / m)) 0); lia.
    + symmetry. apply (Nat.mod_unique (S N) m (S (N / m)) 0); lia.
Qed.

Lemma ascending_nil : ascending [].
Proof. by intros i j x y _ Hi. Qed.

Lemma ascending_tail (x : Q) (xs : list Q) : ascending (x :: xs) -> ascending xs.
Proof. intros H i j a b Hij Hi Hj. apply (H (S i) (S j) a b); [lia|done..]. Qed.

Lemma ascending_snoc (xs : list Q) (v : Q) :
  ascending xs -> (forall x : Q, x ∈ xs -> x <= v) -> ascending (xs ++ [v]).
Proof.
  intros Ha Hv i j x y Hij Hi Hj.
  destruct (decide (j < length xs)%nat) as [Hlt|Hge].
  - rewrite lookup_app_l in Hi by lia. rewrite lookup_app_l in Hj by lia.
    by apply (Ha i j x y).
  - assert (Hjl : j = length xs).
    { apply lookup_lt_Some in Hj. rewrite length_app in Hj. simpl in Hj. lia. }
    rewrite lookup_app_r in Hj by lia. rewrite Hjl, Nat.sub_diag in Hj. simpl in Hj.
    injection Hj as <-.
    destruct (decide (i < length xs)%nat) as [Hil|Hil].
    + rewrite lookup_app_l in Hi by lia. apply Hv. by eapply list_elem_of_lookup_2.
    + rewrite lookup_app_r in Hi by lia.
      replace (i - length xs)%nat with O in Hi by lia. simpl in Hi. injection Hi as <-. lra.
Qed.

Section RoundRobin.
Variables (loadTimeHours travelTimeHours tipTimeHours : Q).
Hypothesis loadTime_pos : 0 < loadTimeHours.
Local Abbreviation plan := (planTrip loadTimeHours).
Local Abbreviation commit := (commitTrip travelTimeHours tipTimeHours).
Local Abbreviation dispatch := (dispatchAll loadTimeHours travelTimeHours tipTimeHours).
Local Abbreviation away := (travelTimeHours + tipTimeHours + travelTimeHours).

(** One trip: the first lorry still to go is picked, and it joins the
    lorries sent; when it was the last to go, a new round starts. *)
Lemma rotation_step (lo up : list Q) (u bay : Q) (d : Trip) :
  rotation away lo (u :: up) bay ->
  plan {| lorriesNextAvailableTime := lo ++ u :: up; loadingBayFreeAt := bay |} = Some d ->
  earliestLorryIdx d = Some (length lo)
  /\ commit {| lorriesNextAvailableTime := lo ++ u :: up; loadingBayFreeAt := bay |} d
     = {| lorriesNextAvailableTime :=
            lo ++ lorryReturnTime travelTimeHours tipTimeHours d :: up;
          loadingBayFreeAt := loadEndTime d |}
  /\ (up <> [] ->
      rotation away (lo ++ [lorryReturnTime travelTimeHours tipTimeHours d]) up (loadEndTime d))
  /\ (up = [] ->
      rotation away [] (lo ++ [lorryReturnTime travelTimeHours tipTimeHours d]) (loadEndTime d)).
Proof.
  intros (_ & Hlo & Hup & Hsplit & Hdue) Hp.
  destruct (planTrip_Some _ _ _ Hp) as (i & (Hi & Hmin & Hfirst) & Hidx & _ & Hstart & Hend).
  simpl in Hi, Hmin, Hfirst, Hstart.
  assert (Hu : (lo ++ u :: up) !! length lo = Some u).
  { rewrite lookup_app_r by lia. by rewrite Nat.sub_diag. }
  assert (Hil : i = length lo).
  { destruct (Nat.lt_trichotomy i (length lo)) as [Hlt|[->|Hgt]]; [|done|].
    - exfalso. rewrite lookup_app_l in Hi by lia.
      assert (u < earliestLorryTime d).
      { apply (Hsplit (earliestLorryTime d) u); [by eapply list_elem_of_lookup_2|left]. }
      specialize (Hmin _ _ Hu). lra.
    - exfalso. specialize (Hfirst _ _ Hgt Hu).
      rewrite lookup_app_r in Hi by lia.
      assert (u <= earliestLorryTime d).
      { apply (Hup O (i - length lo)%nat u (earliestLorryTime d)); [lia|done|done]. }
      lra. }
  subst i. rewrite Hu in Hi. injection Hi as Hu'.
  pose proof (Q.le_max_r (earliestLorryTime d) bay) as Hbay.
  rewrite <- Hstart in Hbay.
  assert (Hcommit : commit {| lorriesNextAvailableTime := lo ++ u :: up;
                              loadingBayFreeAt := bay |} d
                    = {| lorriesNextAvailableTime :=
                           lo ++ lorryReturnTime travelTimeHours tipTimeHours d :: up;
                         loadingBayFreeAt := loadEndTime d |}).
  { unfold commitTrip. simpl. rewrite Hidx. simpl. f_equal.
    replace (length lo) with (length lo + 0)%nat at 1 by lia.
    by rewrite insert_app_r. }
  assert (Hold : forall x : Q, x ∈ lo ++ u :: up ->
                   x < lorryReturnTime travelTimeHours tipTimeHours d).
  { intros x Hx. specialize (Hdue x Hx). unfold lorryReturnTime. rewrite Hend. lra. }
  assert (Hdue' : forall x : Q,
            x ∈ lo ++ lorryReturnTime travelTimeHours tipTimeHours d :: up ->
            x <= loadEndTime d + away).
  { intros x [Hx|[->|Hx]%elem_of_cons]%elem_of_app.
    - assert (x <= bay + away) by (apply Hdue, elem_of_app; by left).
      rewrite Hend. lra.
    - unfold lorryReturnTime. lra.
    - assert (x <= bay + away) by (apply Hdue, elem_of_app; right; by right).
      rewrite Hend. lra. }
  assert (Hlo' : ascending (lo ++ [lorryReturnTime travelTimeHours tipTimeHours d])).
  { apply ascending_snoc; [done|]. intros x Hx.
    apply Qlt_le_weak, Hold, elem_of_app. by left. }
  split; [done|]. split; [done|]. split.
  - intros Hne. split; [done|]. split; [done|]. split; [by eapply ascending_tail|]. split.
    + intros x y [Hx|Hx%list_elem_of_singleton]%elem_of_app Hy.
      * apply Hsplit; [done|by right].
      * subst x. apply Hold, elem_of_app. right. by right.
    + intros x Hx. apply Hdue'. rewrite <- app_assoc in Hx. exact Hx.
  - intros ->. split.
    { intros E. by apply app_eq_nil in E as [_ ?]. }
    split; [apply ascending_nil|]. split; [done|]. split.
    + intros x y Hx. by apply elem_of_nil in Hx.
    + intros x Hx. apply Hdue'. exact Hx.
Qed.

(** The lorries are picked in turn, starting from the first one still to
    go. *)
Lemma rotation_dispatch (m : nat) (n : nat) : forall (lo up : list Q) (bay : Q),
  rotation away lo up bay ->
  length (lo ++ up) = m ->
  forall (k : nat) (d : Trip),
    dispatch n {| lorriesNextAvailableTime := lo ++ up; loadingBayFreeAt := bay |} !! k = Some d ->
    earliestLorryIdx d = Some ((length lo + k) mod m)%nat.
Proof.
  induction n as [|n IH]; intros lo up bay Hrot Hlen k d; [done|].
  destruct up as [|u up]; [by destruct Hrot|].
  cbn [dispatchAll].
  destruct (plan {| lorriesNextAvailableTime := lo ++ u :: up; loadingBayFreeAt := bay |})
    as [d0|] eqn:Hp; [|done].
  destruct (rotation_step lo up u bay d0 Hrot Hp) as (Hidx & Hc & Hgo & Hwrap).
  rewrite length_app in Hlen. simpl in Hlen.
  destruct k as [|k]; simpl.
  - intros [= <-]. rewrite Hidx, Nat.add_0_r, Nat.mod_small by lia. done.
  - rewrite Hc. destruct up as [|u' up].
    + specialize (Hwrap eq_refl). intros Hk.
      rewrite (IH [] (lo ++ [lorryReturnTime travelTimeHours tipTimeHours d0]) _ Hwrap) with (k := k) (d := d).
      * f_equal. simpl in Hlen. simpl.
        replace (length lo + S k)%nat with (k + 1 * m)%nat by lia.
        by rewrite Nat.Div0.mod_add.
      * simpl. rewrite length_app. simpl. simpl in Hlen. lia.
      * exact Hk.
    + assert (Hne : u' :: up <> []) by done. specialize (Hgo Hne). intros Hk.
      rewrite (IH (lo ++ [lorryReturnTime travelTimeHours tipTimeHours d0]) (u' :: up) _ Hgo)
        with (k := k) (d := d).
      * f_equal. rewrite length_app. simpl. f_equal. lia.
      * rewrite !length_app. simpl. simpl in Hlen. lia.
      * rewrite <- app_assoc. exact Hk.
Qed.

Hypothesis away_nonneg : 0 <= away.

Lemma newFleet_rotation (n : Z) :
  (1 <= n)%Z -> rotation away [] (lorriesNextAvailableTime (newFleet n)) 0.
Proof.
  intros Hn. simpl.
  split.
  { intros E. apply (f_equal length) in E. rewrite length_replicate in E. simpl in E. lia. }
  split; [apply ascending_nil|]. split.
  { intros i j x y _ [-> _]%lookup_replicate [-> _]%lookup_replicate. lra. }
  split.
  { intros x y Hx. by apply elem_of_nil in Hx. }
  intros x Hx. simpl in Hx. apply elem_of_replicate_inv in Hx as ->. lra.
Qed.

(** From a fresh fleet of [n] lorries, trip [k] goes to lorry [k mod n]. *)
Lemma dispatchAll_round_robin (n : Z) (trips k : nat) (d : Trip) :
  (1 <= n)%Z ->
  dispatch trips (newFleet n) !! k = Some d ->
  earliestLorryIdx d = Some (k mod Z.to_nat n)%nat.
Proof.
  intros Hn Hk.
  apply (rotation_dispatch (Z.to_nat n) trips [] (lorriesNextAvailableTime (newFleet n)) 0
           (newFleet_rotation n Hn)).
  - simpl. apply length_replicate.
  - exact Hk.
Qed.
End RoundRobin.

Lemma travelTimeHoursOf_nonneg (inputs : CalculatorInputs) (advancedSettings : AdvancedSettings) :
  0 <= distance inputs -> 0 < avgSpeed advancedSettings ->
  0 <= travelTimeHoursOf inputs advancedSettings.
Proof.
  intros Hd Hs. unfold travelTimeHoursOf. apply Qle_shift_div_l; [done|]. lra.
Qed.

Lemma tipTimeHoursOf_nonneg (advancedSettings : AdvancedSettings) :
  0 <= tipTime advancedSettings -> 0 <= tipTimeHoursOf advancedSettings.
Proof.
  intros Ht. unfold tipTimeHoursOf. apply Qle_shift_div_l; lra.
Qed.

(** The dispatch loop on the solver's own times. *)
Lemma dispatchAll_in_turn (inputs : CalculatorInputs) (advancedSettings : AdvancedSettings)
    (n : Z) (trips k : nat) (d : Trip) :
  degenerate inputs advancedSettings = false ->
  0 <= distance inputs ->
  0 <= tipTime advancedSettings ->
  (1 <= n)%Z ->
  dispatchAll (loadTimeHoursOf inputs) (travelTimeHoursOf inputs advancedSettings)
    (tipTimeHoursOf advancedSettings) trips (newFleet n) !! k = Some d ->
  earliestLorryIdx d = Some (k mod Z.to_nat n)%nat.
Proof.
  intros (_ & Hs & _ & Hl)%degenerate_false Hd Ht Hn Hk.
  pose proof (loadTimeHoursOf_pos inputs Hl) as HL.
  pose proof (travelTimeHoursOf_nonneg inputs advancedSettings Hd Hs) as HR.
  pose proof (tipTimeHoursOf_nonneg advancedSettings Ht) as HT.
  apply (dispatchAll_round_robin (loadTimeHoursOf inputs)
           (travelTimeHoursOf inputs advancedSettings) (tipTimeHoursOf advancedSettings) HL
           ltac:(lra) n trips k d Hn Hk).
Qed.

(** X12: the dispatch loop deals the trips out in turn.  With a positive
    load time and no negative distance or tipping time, trip [k] (from 0) of
    a run with [n] lorries is dispatched and goes to the lorry at index
    [k mod n]. *)
Theorem trips_dealt_in_turn (inputs : CalculatorInputs) (advancedSettings : AdvancedSettings)
    (n : Z) (trips k : nat) :
  degenerate inputs advancedSettings = false ->
  0 <= distance inputs ->
  0 <= tipTime advancedSettings ->
  (1 <= n)%Z ->
  (k < trips)%nat ->
  exists d : Trip,
    dispatchAll (loadTimeHoursOf inputs) (travelTimeHoursOf inputs advancedSettings)
      (tipTimeHoursOf advancedSettings) trips (newFleet n) !! k = Some d
    /\ earliestLorryIdx d = Some (k mod Z.to_nat n)%nat.
Proof.
  intros Hdeg Hd Ht Hn Hk.
  destruct (lookup_lt_is_Some_2
              (dispatchAll (loadTimeHoursOf inputs) (travelTimeHoursOf inputs advancedSettings)
                 (tipTimeHoursOf advancedSettings) trips (newFleet n)) k) as [d Hlk].
  { rewrite dispatchAll_length by (by apply newFleet_nonempty). exact Hk. }
  exists d. split; [exact Hlk|].
  by eapply dispatchAll_in_turn.
Qed.

Lemma trips_dealt_in_turn_witness :
  exists d : Trip,
    dispatchAll (loadTimeHoursOf defaultInputs) (travelTimeHoursOf defaultInputs defaultSettings)
      (tipTimeHoursOf defaultSettings) 15 (newFleet 8) !! 10%nat = Some d
    /\ earliestLorryIdx d = Some (10 mod Z.to_nat 8)%nat.
Proof.
  apply (trips_dealt_in_turn defaultInputs defaultSettings 8 15 10);
    [reflexivity|simpl; lra|simpl; lra|lia|lia].
Defined.

Section Shares.
Variables (loadTimeHours travelTimeHours tipTimeHours : Q).
Local Abbreviation tripsFor_ := (tripsOf loadTimeHours travelTimeHours tipTimeHours).

Lemma tripsOf_app (i : nat) (log1 log2 : list Trip) :
  tripsFor_ i (log1 ++ log2) = tripsFor_ i log1 ++ tripsFor_ i log2.
Proof.
  induction log1 as [|d rest IH]; [done|]. cbn [app tripsOf].
  destruct (decide _); [|done]. by rewrite IH.
Qed.

(** A log dealt in turn to [m] lorries gives each of them the whole part of
    [length log / m] trips, and one more to the first [length log mod m]. *)
Lemma tripsOf_share (m i : nat) (log : list Trip) :
  (i < m)%nat ->
  (forall (k : nat) (d : Trip), log !! k = Some d -> earliestLorryIdx d = Some (k mod m)%nat) ->
  length (tripsFor_ i log)
  = (length log / m + (if (i <? length log mod m)%nat then 1 else 0))%nat.
Proof.
  intros Hi. induction log as [|d log IH] using rev_ind; intros Hturn.
  - simpl. rewrite Nat.Div0.div_0_l, Nat.Div0.mod_0_l. done.
  - rewrite tripsOf_app, !length_app. cbn [tripsOf length].
    rewrite IH.
    2:{ intros k d' Hk. apply Hturn. rewrite lookup_app_l; [done|]. by eapply lookup_lt_Some. }
    assert (Hd : earliestLorryIdx d = Some (length log mod m)%nat).
    { apply Hturn. rewrite lookup_app_r by lia. by rewrite Nat.sub_diag. }
    replace (length log + 1)%nat with (S (length log)) by lia.
    destruct (succ_div_mod (length log) m ltac:(lia)) as [(Hlt & -> & ->)|(Heq & -> & ->)].
    + destruct (decide (earliestLorryIdx d = Some i)) as [E|E]; simpl.
      * rewrite Hd in E. injection E as E.
        destruct (Nat.ltb_spec i (length log mod m)), (Nat.ltb_spec i (S (length log mod m)));
          lia.
      * assert (length log mod m <> i)%nat by (intros E'; apply E; by rewrite Hd, E').
        destruct (Nat.ltb_spec i (length log mod m)), (Nat.ltb_spec i (S (length log mod m)));
          lia.
    + destruct (decide (earliestLorryIdx d = Some i)) as [E|E]; simpl.
      * rewrite Hd in E. injection E as E.
        destruct (Nat.ltb_spec i (length log mod m)); lia.
      * assert (length log mod m <> i)%nat by (intros E'; apply E; by rewrite Hd, E').
        destruct (Nat.ltb_spec i (length log mod m)); lia.
Qed.
End Shares.

(** X13: in a feasible chart the lorries share the trips evenly.  With a
    positive load time and no negative distance or tipping time, the
    schedule at index [i] of [n] holds the whole part of [trips / n] trips,
    and one more when [i < trips mod n]. *)
Theorem lorries_share_trips_evenly (inputs : CalculatorInputs)
    (advancedSettings : AdvancedSettings) (result : CalculationResult) :
  degenerate inputs advancedSettings = false ->
  0 <= distance inputs ->
  0 <= tipTime advancedSettings ->
  isFeasible result = true ->
  exists (log : list Trip) (chart : Gantt.Chart) (n : Z),
    lorriesNeeded result = Finite n
    /\ Gantt.build inputs result advancedSettings = Some (log, chart)
    /\ forall (i : nat) (s : LorrySchedule.t),
         Gantt.schedules chart !! i = Some s ->
         length (LorrySchedule.trips s)
         = (Z.to_nat (totalTripsNeeded result) / Z.to_nat n
            + (if (i <? Z.to_nat (totalTripsNeeded result) mod Z.to_nat n)%nat
               then 1 else 0))%nat.
Proof.
  intros Hdeg Hd Ht. unfold isFeasible.
  destruct (lorriesNeeded result) as [n|] eqn:Hn; [|done].
  intros Hpos%Z.ltb_lt.
  destruct (build_chart inputs advancedSettings result n Hn Hpos)
    as (y' & _ & Hb & Hlen & Hlook).
  eexists _, _, n. split; [done|]. split; [exact Hb|]. simpl.
  intros i s. rewrite !list_lookup_fmap.
  destruct (Gantt.lorries y' !! i) as [lorry|] eqn:Hl; [|done].
  simpl. intros [= <-]. simpl.
  destruct (Hlook i lorry Hl) as [_ Htr].
  rewrite (dropFinalReturn_length _ _ _ _ _ _ Htr), Htr.
  assert (Hi : (i < Z.to_nat n)%nat) by (rewrite <- Hlen; by eapply lookup_lt_Some).
  rewrite (tripsOf_share _ _ _ (Z.to_nat n) i _ Hi).
  - rewrite dispatchAll_length by (apply newFleet_nonempty; lia). done.
  - intros k d Hk. eapply dispatchAll_in_turn; [exact Hdeg|exact Hd|exact Ht|lia|exact Hk].
Qed.

Lemma lorries_share_trips_evenly_witness :
  exists (log : list Trip) (chart : Gantt.Chart) (n : Z),
    lorriesNeeded defaultResult = Finite n
    /\ Gantt.build defaultInputs defaultResult defaultSettings = Some (log, chart)
    /\ forall (i : nat) (s : LorrySchedule.t),
         Gantt.schedules chart !! i = Some s ->
         length (LorrySchedule.trips s)
         = (Z.to_nat (totalTripsNeeded defaultResult) / Z.to_nat n
            + (if (i <? Z.to_nat (totalTripsNeeded defaultResult) mod Z.to_nat n)%nat
               then 1 else 0))%nat.
Proof.
  apply (lorries_share_trips_evenly defaultInputs defaultSettings defaultResult);
    [reflexivity|simpl; lra|simpl; lra|reflexivity].
Defined.

(** ** An easier job *)

Section Easier.
Variables (loadTimeHours travelTimeHours tipTimeHours : Q).
Variables (loadTimeHours' travelTimeHours' tipTimeHours' : Q).
Hypothesis load_le : loadTimeHours' <= loadTimeHours.
Hypothesis away_le :
  travelTimeHours' + tipTimeHours' + travelTimeHours'
  <= travelTimeHours + tipTimeHours + travelTimeHours.

(** A fleet that is ahead and works on shorter times stays ahead after one
    trip each, and its trip ends loading no later. *)
Lemma ahead_step_easier (a b : Fleet) (da : Trip) :
  ahead a b -> planTrip loadTimeHours a = Some da ->
  exists db : Trip,
    planTrip loadTimeHours' b = Some db
    /\ loadEndTime db <= loadEndTime da
    /\ ahead (commitTrip travelTimeHours tipTimeHours a da)
             (commitTrip travelTimeHours' tipTimeHours' b db).
Proof.
  intros [Hbay Hcount] Ha.
  destruct (planTrip_Some _ _ _ Ha) as (ia & (Hia & Hamin & _) & Hidxa & _ & Hsa & Hea).
  assert (Hb1 : (1 <= readyBy (earliestLorryTime da) (lorriesNextAvailableTime b))%nat).
  { etrans; [|apply Hcount]. eapply readyBy_pos; [exact Hia|apply Qle_refl]. }
  destruct (readyBy_witness _ _ Hb1) as (j & z & Hj & Hz).
  destruct (planTrip_nonempty loadTimeHours' b) as [db Hb].
  { intros E. by rewrite E in Hj. }
  exists db. split; [done|].
  destruct (planTrip_Some _ _ _ Hb) as (ib & (Hib & Hbmin & _) & Hidxb & _ & Hsb & Heb).
  assert (Hm : earliestLorryTime db <= earliestLorryTime da).
  { specialize (Hbmin j z Hj). lra. }
  assert (Hs : loadStartTime db <= loadStartTime da).
  { rewrite Hsa, Hsb. apply Q.max_le_compat; done. }
  assert (He : loadEndTime db <= loadEndTime da).
  { rewrite Hea, Heb. lra. }
  split; [done|]. split; [done|].
  intros t. simpl. rewrite Hidxa, Hidxb. simpl.
  pose proof (readyBy_insert t (lorryReturnTime travelTimeHours tipTimeHours da) _ _ _ Hia) as Ea.
  pose proof (readyBy_insert t (lorryReturnTime travelTimeHours' tipTimeHours' db) _ _ _ Hib)
    as Eb.
  specialize (Hcount t).
  assert (Hr : Qle_bool (lorryReturnTime travelTimeHours tipTimeHours da) t = true ->
               Qle_bool (lorryReturnTime travelTimeHours' tipTimeHours' db) t = true).
  { apply Qle_bool_mono. unfold lorryReturnTime. lra. }
  assert (Hmt : Qle_bool (earliestLorryTime da) t = true ->
                Qle_bool (earliestLorryTime db) t = true).
  { by apply Qle_bool_mono. }
  assert (Ha0 : Qle_bool (earliestLorryTime da) t = false ->
                readyBy t (lorriesNextAvailableTime a) = O).
  { intros Hf. apply readyBy_zero. intros k y Hk. specialize (Hamin k y Hk).
    apply not_true_iff_false in Hf. rewrite Qle_bool_iff in Hf. lra. }
  assert (Hb0 : Qle_bool (earliestLorryTime db) t = true ->
                (1 <= readyBy t (lorriesNextAvailableTime b))%nat).
  { intros Ht. eapply readyBy_pos; [exact Hib|]. by apply Qle_bool_iff. }
  destruct (Qle_bool (earliestLorryTime da) t) eqn:E1;
    destruct (Qle_bool (earliestLorryTime db) t) eqn:E2;
    destruct (Qle_bool (lorryReturnTime travelTimeHours tipTimeHours da) t) eqn:E3;
    destruct (Qle_bool (lorryReturnTime travelTimeHours' tipTimeHours' db) t) eqn:E4;
    try (specialize (Hr eq_refl)); try (specialize (Hmt eq_refl));
    try (specialize (Ha0 eq_refl)); try (specialize (Hb0 eq_refl));
    try discriminate; lia.
Qed.

(** Every deadline that the trips of [a] keep is kept by the trips of [b],
    also when [b] has fewer trips to make and a later deadline. *)
Lemma ahead_dispatch_easier (deadline deadline' : Q) (n' : nat) : forall (n : nat) (a b : Fleet),
  (n' <= n)%nat -> deadline <= deadline' ->
  ahead a b -> lorriesNextAvailableTime a <> [] ->
  Forall (fun d => loadEndTime d <= deadline)
    (dispatchAll loadTimeHours travelTimeHours tipTimeHours n a) ->
  Forall (fun d => loadEndTime d <= deadline')
    (dispatchAll loadTimeHours' travelTimeHours' tipTimeHours' n' b).
Proof.
  induction n' as [|n' IH]; intros n a b Hn Hdl Hab Ha HF; [constructor|].
  destruct n as [|n]; [lia|]. cbn [dispatchAll] in *.
  destruct (planTrip_nonempty loadTimeHours a Ha) as [da Hda]. rewrite Hda in HF.
  destruct (ahead_step_easier a b da Hab Hda) as (db & -> & He & Hab').
  apply Forall_cons_1 in HF as [Hd HF]. constructor; [lra|].
  eapply (IH n); [lia|exact Hdl|exact Hab'| |exact HF]. by apply commitTrip_nonempty.
Qed.

Lemma ahead_refl (a : Fleet) : ahead a a.
Proof. split; [apply Qle_refl|done]. Qed.

(** A candidate that succeeds on a job succeeds on an easier one. *)
Lemma possible_easier (time_ time' : Q) (totalTrips totalTrips' n : Z) :
  (1 <= n)%Z -> (totalTrips' <= totalTrips)%Z -> time_ <= time' ->
  possible loadTimeHours travelTimeHours tipTimeHours time_ totalTrips n = true ->
  possible loadTimeHours' travelTimeHours' tipTimeHours' time' totalTrips' n = true.
Proof.
  intros Hn Htr Ht. unfold possible.
  destruct (tryTrips_spec loadTimeHours travelTimeHours tipTimeHours time_
              (Z.to_nat totalTrips) (newFleet n)) as [-> _].
  { apply newFleet_nonempty. lia. }
  destruct (tryTrips_spec loadTimeHours' travelTimeHours' tipTimeHours' time'
              (Z.to_nat totalTrips') (newFleet n)) as [-> _].
  { apply newFleet_nonempty. lia. }
  apply ahead_dispatch_easier; [lia|lra|apply ahead_refl|apply newFleet_nonempty; lia].
Qed.
End Easier.

Lemma Qdiv_le_easier (a a' c c' : Q) :
  0 <= a -> a' <= a -> 0 < c -> c <= c' -> a' / c' <= a / c.
Proof.
  intros Ha Hle Hc Hcc.
  assert (Ex : a' / c' * c' == a') by (field; lra).
  assert (Ey : a / c * c == a) by (field; lra).
  assert (Hy : 0 <= a / c) by (apply Qle_shift_div_l; lra).
  destruct (Qlt_le_dec (a / c) (a' / c')) as [Hlt|]; [|done]. exfalso.
  assert (H1 : a / c * c < a' / c' * c) by (apply Qmult_lt_compat_r; done).
  assert (H2 : a' / c' * c <= a' / c' * c').
  { rewrite !(Qmult_comm (a' / c')). apply Qmult_le_compat_r; lra. }
  lra.
Qed.

(** X14: a job that is no harder in any respect never needs more lorries.
    If a job is feasible with [n] lorries, then a job with no more
    material, distance, load time and tipping time, and no smaller
    capacity, speed and window is feasible with at most [n]. *)
Theorem easier_job_no_more_lorries (inputs inputs' : CalculatorInputs)
    (advancedSettings advancedSettings' : AdvancedSettings) (fuel fuel' : nat)
    (r r' : CalculationResult) (n : Z) :
  degenerate inputs advancedSettings = false ->
  degenerate inputs' advancedSettings' = false ->
  0 <= material inputs ->
  0 <= distance inputs ->
  material inputs' <= material inputs ->
  lorryCapacity advancedSettings <= lorryCapacity advancedSettings' ->
  distance inputs' <= distance inputs ->
  avgSpeed advancedSettings <= avgSpeed advancedSettings' ->
  loadTime inputs' <= loadTime inputs ->
  tipTime advancedSettings' <= tipTime advancedSettings ->
  time inputs <= time inputs' ->
  calculationResult inputs advancedSettings fuel = Some r ->
  lorriesNeeded r = Finite n ->
  calculationResult inputs' advancedSettings' fuel' = Some r' ->
  exists n' : Z, lorriesNeeded r' = Finite n' /\ (1 <= n' <= n)%Z.
Proof.
  intros Hd Hd' Hm0 Hdist0 Hm Hc Hdist Hs Hl Htip Ht Hr Hn Hr'.
  pose proof (proj1 (degenerate_false _ _) Hd) as (Hc0 & Hs0 & Ht0 & Hl0).
  pose proof (proj1 (degenerate_false _ _) Hd') as (Hc0' & Hs0' & Ht0' & Hl0').
  rewrite (calculationResult_lorries _ _ _ _ Hd Hr) in Hn.
  rewrite (calculationResult_lorries _ _ _ _ Hd' Hr').
  destruct (searchFleet_Finite _ _ _ _ _ _ _ _ Hn) as (Hrange & Hp & _).
  assert (Htrips : (tripsFor inputs' advancedSettings' <= tripsFor inputs advancedSettings)%Z).
  { unfold tripsFor. apply Qceiling_resp_le. by apply Qdiv_le_easier. }
  assert (HL : loadTimeHoursOf inputs' <= loadTimeHoursOf inputs).
  { unfold loadTimeHoursOf. apply Qdiv_le_easier; lra. }
  assert (HT : tipTimeHoursOf advancedSettings' <= tipTimeHoursOf advancedSettings).
  { unfold tipTimeHoursOf, Qdiv. apply Qmult_le_compat_r; [done|]. by vm_compute. }
  assert (HR : travelTimeHoursOf inputs' advancedSettings'
               <= travelTimeHoursOf inputs advancedSettings).
  { unfold travelTimeHoursOf. by apply Qdiv_le_easier. }
  assert (Hp' : feasibleWith inputs' advancedSettings' n = true).
  { unfold feasibleWith.
    eapply (possible_easier (loadTimeHoursOf inputs) (travelTimeHoursOf inputs advancedSettings)
              (tipTimeHoursOf advancedSettings));
      [exact HL|lra|lia|exact Htrips|exact Ht|exact Hp]. }
  pose proof (maxLorriesToTest_ge inputs' advancedSettings') as [H50 Hmax].
  unfold lorriesNeededOf.
  destruct (Z.le_gt_cases n (maxLorriesToTest inputs' advancedSettings')) as [Hin|Hout].
  - apply searchFleet_at_most; [lia|exact Hp'].
  - assert (HL0 : 0 <= loadTimeHoursOf inputs').
    { apply Qlt_le_weak. by apply loadTimeHoursOf_pos. }
    assert (Hn1 : (1 <= n)%Z) by lia.
    pose proof (possible_needs_bay _ _ _ _ _ _ Ht0' Hn1 Hp') as Hfit.
    pose proof (possible_by_bay (loadTimeHoursOf inputs')
                  (travelTimeHoursOf inputs' advancedSettings')
                  (tipTimeHoursOf advancedSettings') HL0 (time inputs')
                  (tripsFor inputs' advancedSettings')
                  (maxLorriesToTest inputs' advancedSettings')
                  ltac:(lia) Hmax Hfit) as Hpmax.
    assert (Hin : (1 <= maxLorriesToTest inputs' advancedSettings'
                   < 1 + Z.of_nat (Z.to_nat (maxLorriesToTest inputs' advancedSettings')))%Z)
      by lia.
    destruct (searchFleet_at_most _ _ _ _ _ _ _ _ Hin Hpmax) as (n' & Hs' & Hn').
    exists n'. split; [exact Hs'|lia].
Qed.

Lemma easier_job_no_more_lorries_witness :
  exists n' : Z, Finite 4 = Finite n' /\ (1 <= n' <= 8)%Z.
Proof.
  apply (easier_job_no_more_lorries defaultInputs lighterInputs defaultSettings defaultSettings
           0 0 defaultResult
           {| lorriesNeeded := Finite 4; totalTripsNeeded := 10;
              timePerTrip := 135900 # 111600; tripsPerLorry := 10 # 4;
              totalValue := 3000; totalCost := 2400;
              achievableMaterial := None; achievableValue := None; requiredTime := None |}
           8);
    try reflexivity; simpl; lra.
Defined.

(** * Properties of the formatters and of the input controls *)

(** ** Rounding *)

Lemma Qfloor_unique (x : Q) (z : Z) :
  inject_Z z <= x -> x < inject_Z (z + 1) -> Qfloor x = z.
Proof.
  intros Hle Hlt.
  pose proof (Qfloor_le x) as H1. pose proof (Qlt_floor x) as H2.
  assert (Ha : (z < Qfloor x + 1)%Z).
  { rewrite Zlt_Qlt. lra. }
  assert (Hb : (Qfloor x < z + 1)%Z).
  { rewrite Zlt_Qlt. lra. }
  lia.
Qed.

Lemma Math_round_bounds (x : Q) :
  x - (1 # 2) < inject_Z (Math_round x) /\ inject_Z (Math_round x) <= x + (1 # 2).
Proof.
  unfold Math_round.
  pose proof (Qfloor_le (x + (1 # 2))) as H1. pose proof (Qlt_floor (x + (1 # 2))) as H2.
  rewrite inject_Z_plus in H2. change (inject_Z 1) with 1 in H2. split; lra.
Qed.

Lemma Math_round_nonneg (x : Q) : 0 <= x -> (0 <= Math_round x)%Z.
Proof.
  intros Hx. unfold Math_round.
  change 0%Z with (Qfloor 0). apply Qfloor_resp_le. lra.
Qed.

(** ** The clock labels of the chart *)

(** X15: a clock label of the chart reads the minute nearest to the time
    it is given.  For a time from 0 on, the label shows hours [h] and
    minutes [m] with [m] between 0 and 59, no more than half a minute away
    from the time; the hours are not reduced modulo 24. *)
Theorem formatTime_nearest_minute (hours : Q) :
  0 <= hours ->
  exists h m : Z,
    formatTime hours
    = (padStart (String_ h) 2 "0" ++ ":" ++ padStart (String_ m) 2 "0")%string
    /\ (0 <= h)%Z /\ (0 <= m < 60)%Z
    /\ hours - (1 # 120) < inject_Z h + inject_Z m / 60
    /\ inject_Z h + inject_Z m / 60 <= hours + (1 # 120)
    /\ (h = Qfloor hours \/ h = Qfloor hours + 1)%Z.
Proof.
  intros Hh. unfold formatTime.
  remember (Math_round (hours * 60)) as tm eqn:Etm.
  assert (Htm : (0 <= tm)%Z) by (subst tm; apply Math_round_nonneg; lra).
  pose proof (Math_round_bounds (hours * 60)) as [Hlo Hhi]. rewrite <- Etm in Hlo, Hhi.
  change (inject_Z tm / 60) with (inject_Z tm / inject_Z 60).
  rewrite <- Zdiv_Qdiv. rewrite Z.rem_mod_nonneg by lia.
  exists (tm / 60)%Z, (tm mod 60)%Z. split; [reflexivity|].
  pose proof (Z.div_mod tm 60 ltac:(lia)) as Ediv.
  pose proof (Z.mod_pos_bound tm 60 ltac:(lia)) as Hmod.
  assert (Hdiv : (0 <= tm / 60)%Z) by (apply Z.div_pos; lia).
  assert (EQ : inject_Z tm == 60 * inject_Z (tm / 60) + inject_Z (tm mod 60)).
  { rewrite Ediv at 1. rewrite inject_Z_plus, inject_Z_mult. reflexivity. }
  assert (Esum : inject_Z (tm / 60) + inject_Z (tm mod 60) / 60 == inject_Z tm / 60).
  { rewrite EQ. field. }
  assert (Etm60 : inject_Z tm / 60 * 60 == inject_Z tm) by field.
  split; [done|]. split; [done|]. split; [rewrite Esum; lra|]. split; [rewrite Esum; lra|].
  pose proof (Qfloor_le hours) as Hf1. pose proof (Qlt_floor hours) as Hf2.
  rewrite inject_Z_plus in Hf2. change (inject_Z 1) with 1 in Hf2.
  assert (Hm1 : 0 <= inject_Z (tm mod 60)).
  { change 0 with (inject_Z 0). rewrite <- Zle_Qle. lia. }
  assert (Hm2 : inject_Z (tm mod 60) <= 59).
  { change 59 with (inject_Z 59). rewrite <- Zle_Qle. lia. }
  assert (Ha : (Qfloor hours < tm / 60 + 1)%Z).
  { rewrite Zlt_Qlt, inject_Z_plus. change (inject_Z 1) with 1. lra. }
  assert (Hb : (tm / 60 < Qfloor hours + 2)%Z).
  { rewrite Zlt_Qlt, inject_Z_plus. change (inject_Z 2) with 2. lra. }
  lia.
Qed.

Lemma formatTime_nearest_minute_witness :
  exists h m : Z,
    formatTime (17 + (1 # 2))
    = (padStart (String_ h) 2 "0" ++ ":" ++ padStart (String_ m) 2 "0")%string
    /\ (0 <= h)%Z /\ (0 <= m < 60)%Z
    /\ 17 + (1 # 2) - (1 # 120) < inject_Z h + inject_Z m / 60
    /\ inject_Z h + inject_Z m / 60 <= 17 + (1 # 2) + (1 # 120)
    /\ (h = Qfloor (17 + (1 # 2)) \/ h = Qfloor (17 + (1 # 2)) + 1)%Z.
Proof.
  apply (formatTime_nearest_minute (17 + (1 # 2))). lra.
Defined.

(** ** Durations in words *)


Lemma string_append_assoc (s1 s2 s3 : string) :
  ((s1 ++ s2) ++ s3)%string = (s1 ++ (s2 ++ s3))%string.
Proof. induction s1 as [|c s1 IH]; simpl; [done|]. by rewrite IH. Qed.

(** The minutes of a duration whose fraction is at least 119/120 of an
    hour round to 60. *)
Lemma minutes_round_to_sixty (decimalHours : Q) :
  (119 # 120) <= decimalHours - inject_Z (Qfloor decimalHours) ->
  Math_round ((decimalHours - inject_Z (Qfloor decimalHours)) * 60) = 60%Z.
Proof.
  intros Hfrac. unfold Math_round.
  pose proof (Qlt_floor decimalHours) as H2.
  rewrite inject_Z_plus in H2. change (inject_Z 1) with 1 in H2.
  apply Qfloor_unique.
  - change (inject_Z 60) with 60. lra.
  - change (inject_Z (60 + 1)) with 61. lra.
Qed.

(** X16: [formatDecimalHours] does not carry minutes into hours.  A
    duration whose fraction of an hour is 119/120 or more is printed with
    [60 minutes] after its whole hours. *)
Theorem formatDecimalHours_sixty_minutes (decimalHours : Q) :
  0 <= decimalHours ->
  (119 # 120) <= decimalHours - inject_Z (Qfloor decimalHours) ->
  exists hoursPart : string,
    formatDecimalHours decimalHours = (hoursPart ++ "60 minutes")%string
    /\ ResultsCard.formatDecimalHours (Some decimalHours)
       = (hoursPart ++ "60 minutes")%string.
Proof.
  intros Hd Hfrac. unfold formatDecimalHours, ResultsCard.formatDecimalHours.
  assert (Hneg : Qgt_bool 0 decimalHours = false) by (by apply Qgt_bool_false).
  rewrite Hneg, (minutes_round_to_sixty _ Hfrac).
  destruct (0 <? Qfloor decimalHours)%Z.
  - exists ((String_ (Qfloor decimalHours) ++ " hour"
             ++ (if negb (Qfloor decimalHours =? 1)%Z then "s" else "")) ++ " ")%string.
    cbn -[String_ Z.eqb append]. change (String_ 60) with "60"%string.
    rewrite <- string_append_assoc. split; reflexivity.
  - exists ""%string. split; reflexivity.
Qed.

Lemma formatDecimalHours_sixty_minutes_witness :
  exists hoursPart : string,
    formatDecimalHours (1 + (119 # 120)) = (hoursPart ++ "60 minutes")%string
    /\ ResultsCard.formatDecimalHours (Some (1 + (119 # 120)))
       = (hoursPart ++ "60 minutes")%string.
Proof.
  apply (formatDecimalHours_sixty_minutes (1 + (119 # 120))); [lra|].
  vm_compute. discriminate.
Defined.



(** ** The number box and the track of a slider *)

Lemma clamp_bounds (min max v : Q) :
  min <= max -> min <= Qmax min (Qmin max v) /\ Qmax min (Qmin max v) <= max.
Proof.
  intros Hmm. split; [apply Q.le_max_l|].
  apply Q.max_lub; [done|apply Q.le_min_l].
Qed.

(** X18: the number box of a slider keeps what is typed within the
    slider's bounds.  Text that is not a number changes nothing; a number is
    passed on as it is when within [min, max], and as the nearer bound
    otherwise. *)
Theorem number_box_clamps (min max v : Q) :
  min <= max ->
  InputSlider.handleNumberChange min max None = None
  /\ exists c : Q,
       InputSlider.handleNumberChange min max (Some v) = Some c
       /\ min <= c <= max
       /\ (min <= v <= max -> c == v)
       /\ (v <= min -> c == min)
       /\ (max <= v -> c == max).
Proof.
  intros Hmm. split; [reflexivity|].
  exists (Qmax min (Qmin max v)). split; [reflexivity|].
  split; [by apply clamp_bounds|]. split; [|split].
  - intros [Hlo Hhi]. rewrite (Q.min_r max v) by done. by apply Q.max_r.
  - intros Hv. apply Q.max_l. pose proof (Q.le_min_r max v). lra.
  - intros Hv. rewrite (Q.min_l max v) by done. by apply Q.max_r.
Qed.

Lemma number_box_clamps_witness :
  InputSlider.handleNumberChange 10 2000 None = None
  /\ exists c : Q,
       InputSlider.handleNumberChange 10 2000 (Some 5000) = Some c
       /\ 10 <= c <= 2000
       /\ (10 <= 5000 <= 2000 -> c == 5000)
       /\ (5000 <= 10 -> c == 10)
       /\ (2000 <= 5000 -> c == 2000).
Proof.
  apply (number_box_clamps 10 2000 5000). lra.
Defined.

(** X19: the filled share of a slider's track is a percentage.  For a
    value within [min, max] it lies between 0 and 100, it is 0 at [min] and
    100 at [max], and it grows with the value. *)
Theorem backgroundSize_is_percentage (value min max : Q) :
  min < max ->
  min <= value <= max ->
  0 <= InputSlider.backgroundSize value min max <= 100
  /\ InputSlider.backgroundSize min min max == 0
  /\ InputSlider.backgroundSize max min max == 100
  /\ (forall value' : Q, value <= value' ->
      InputSlider.backgroundSize value min max
      <= InputSlider.backgroundSize value' min max).
Proof.
  intros Hmm [Hlo Hhi]. unfold InputSlider.backgroundSize.
  assert (Hpos : 0 < max - min) by lra.
  split; [split|split; [|split]].
  - apply Qle_shift_div_l; [done|]. nra.
  - apply Qle_shift_div_r; [done|]. nra.
  - field. lra.
  - field. lra.
  - intros value' Hv. unfold Qdiv. apply Qmult_le_compat_r.
    + lra.
    + apply Qlt_le_weak, Qinv_lt_0_compat. done.
Qed.

Lemma backgroundSize_is_percentage_witness :
  0 <= InputSlider.backgroundSize 3 1 12 <= 100
  /\ InputSlider.backgroundSize 1 1 12 == 0
  /\ InputSlider.backgroundSize 12 1 12 == 100
  /\ (forall value' : Q, 3 <= value' ->
      InputSlider.backgroundSize 3 1 12 <= InputSlider.backgroundSize value' 1 12).
Proof.
  apply (backgroundSize_is_percentage 3 1 12); [lra|split; lra].
Defined.

(** ** The state of the page under edits *)

Lemma inputBounds_ordered (name : InputName) :
  fst (inputBounds name) <= snd (inputBounds name).
Proof. destruct name; simpl; lra. Qed.

Lemma advancedBounds_ordered (name : AdvancedName) :
  fst (advancedBounds name) <= snd (advancedBounds name).
Proof. destruct name; simpl; lra. Qed.

Lemma applyEdit_inBounds (st : CalculatorInputs * AdvancedSettings) (e : Edit) :
  inBounds st -> inBounds (applyEdit st e).
Proof.
  intros [Hi Ha]. destruct e as [name [v|]|name [v|]]; simpl; [|done| |done].
  - pose proof (clamp_bounds _ _ v (inputBounds_ordered name)) as Hc.
    split; [|exact Ha]. intros name'. simpl. specialize (Hi name').
    destruct name, name'; simpl in *; first [exact Hi | exact Hc].
  - pose proof (clamp_bounds _ _ v (advancedBounds_ordered name)) as Hc.
    split; [exact Hi|]. intros name'. simpl. specialize (Ha name').
    destruct name, name'; simpl in *; first [exact Ha | exact Hc].
Qed.

(** In bounds, the job is one the solver works on, of at most 400 trips. *)
Lemma inBounds_job (st : CalculatorInputs * AdvancedSettings) :
  inBounds st ->
  degenerate (fst st) (snd st) = false
  /\ (1 <= tripsFor (fst st) (snd st) <= 400)%Z
  /\ (maxLorriesToTest (fst st) (snd st) <= 400)%Z.
Proof.
  intros [Hi Ha].
  pose proof (Hi Material) as Hm. pose proof (Hi Time) as Ht. pose proof (Hi LoadTime) as Hl.
  pose proof (Ha LorryCapacity) as Hc. pose proof (Ha AvgSpeed) as Hs.
  simpl in Hm, Ht, Hl, Hc, Hs.
  assert (Hd : degenerate (fst st) (snd st) = false).
  { apply degenerate_false. repeat split; lra. }
  assert (Htr : (1 <= tripsFor (fst st) (snd st) <= 400)%Z).
  { unfold tripsFor.
    pose proof (Qle_ceiling (material (fst st) / lorryCapacity (snd st))) as Hup.
    pose proof (Qceiling_lt (material (fst st) / lorryCapacity (snd st))) as Hlow.
    assert (Hq0 : 0 < material (fst st) / lorryCapacity (snd st)).
    { apply Qlt_shift_div_l; lra. }
    assert (Hq1 : material (fst st) / lorryCapacity (snd st) <= 400).
    { apply Qle_shift_div_r; lra. }
    split.
    - assert (H : (0 < Qceiling (material (fst st) / lorryCapacity (snd st)))%Z).
      { rewrite Zlt_Qlt. change (inject_Z 0) with 0. lra. }
      lia.
    - change 400%Z with (Qceiling 400). by apply Qceiling_resp_le. }
  split; [done|]. split; [done|]. unfold maxLorriesToTest. lia.
Qed.

(** X20: whatever is typed into the number boxes, the page stays on a job
    the solver works on.  From a state within the sliders' bounds, every
    sequence of edits leaves every value within its bounds; the job passes
    the solver's check of its inputs, has between 1 and 400 trips, and the
    search tries at most 400 fleet sizes. *)
Theorem number_boxes_keep_job_valid (edits : list Edit)
    (st : CalculatorInputs * AdvancedSettings) :
  inBounds st ->
  inBounds (foldl applyEdit st edits)
  /\ degenerate (fst (foldl applyEdit st edits)) (snd (foldl applyEdit st edits)) = false
  /\ (1 <= tripsFor (fst (foldl applyEdit st edits)) (snd (foldl applyEdit st edits))
      <= 400)%Z
  /\ (maxLorriesToTest (fst (foldl applyEdit st edits)) (snd (foldl applyEdit st edits))
      <= 400)%Z.
Proof.
  intros Hst.
  assert (Hin : inBounds (foldl applyEdit st edits)).
  { revert st Hst. induction edits as [|e edits IH]; intros st Hst; simpl; [done|].
    apply IH. by apply applyEdit_inBounds. }
  split; [exact Hin|]. by apply inBounds_job.
Qed.

Lemma number_boxes_keep_job_valid_witness :
  inBounds (foldl applyEdit (defaultInputs, defaultSettings)
              [EditInput Material (Some 5000%Q); EditAdvanced LorryCapacity (Some 0%Q);
               EditInput Time None; EditInput LoadTime (Some (-3)%Q)])
  /\ degenerate
       (fst (foldl applyEdit (defaultInputs, defaultSettings)
               [EditInput Material (Some 5000%Q); EditAdvanced LorryCapacity (Some 0%Q);
                EditInput Time None; EditInput LoadTime (Some (-3)%Q)]))
       (snd (foldl applyEdit (defaultInputs, defaultSettings)
               [EditInput Material (Some 5000%Q); EditAdvanced LorryCapacity (Some 0%Q);
                EditInput Time None; EditInput LoadTime (Some (-3)%Q)])) = false
  /\ (1 <= tripsFor
             (fst (foldl applyEdit (defaultInputs, defaultSettings)
                     [EditInput Material (Some 5000%Q); EditAdvanced LorryCapacity (Some 0%Q);
                      EditInput Time None; EditInput LoadTime (Some (-3)%Q)]))
             (snd (foldl applyEdit (defaultInputs, defaultSettings)
                     [EditInput Material (Some 5000%Q); EditAdvanced LorryCapacity (Some 0%Q);
                      EditInput Time None; EditInput LoadTime (Some (-3)%Q)]))
      <= 400)%Z
  /\ (maxLorriesToTest
        (fst (foldl applyEdit (defaultInputs, defaultSettings)
                [EditInput Material (Some 5000%Q); EditAdvanced LorryCapacity (Some 0%Q);
                 EditInput Time None; EditInput LoadTime (Some (-3)%Q)]))
        (snd (foldl applyEdit (defaultInputs, defaultSettings)
                [EditInput Material (Some 5000%Q); EditAdvanced LorryCapacity (Some 0%Q);
                 EditInput Time None; EditInput LoadTime (Some (-3)%Q)]))
      <= 400)%Z.
Proof.
  apply (number_boxes_keep_job_valid
           [EditInput Material (Some 5000%Q); EditAdvanced LorryCapacity (Some 0%Q);
            EditInput Time None; EditInput LoadTime (Some (-3)%Q)]
           (defaultInputs, defaultSettings)).
  split; intros []; simpl; lra.
Defined.

(** * The bars of the chart *)

Section Bars.
Variables (loadTimeHours travelTimeHours tipTimeHours : Q).
Hypothesis loadTime_nonneg : 0 <= loadTimeHours.
Hypothesis travelTime_nonneg : 0 <= travelTimeHours.
Hypothesis tipTime_nonneg : 0 <= tipTimeHours.
Local Abbreviation phasesOf := (Gantt.tripPhasesOf loadTimeHours travelTimeHours tipTimeHours).
Local Abbreviation outbound := (outboundPhasesOf loadTimeHours travelTimeHours tipTimeHours).
Local Abbreviation tripsFor_ := (tripsOf loadTimeHours travelTimeHours tipTimeHours).

(** The phases of a trip that starts at or after 0 start at or after 0 and
    do not end before they start. *)
Lemma tripPhasesOf_forward (s : Q) (phase : TripPhase) :
  0 <= s -> phase ∈ phasesOf s -> 0 <= start phase /\ start phase <= end_ phase.
Proof.
  intros Hs Hp. unfold Gantt.tripPhasesOf in Hp.
  repeat (apply elem_of_cons in Hp as [->|Hp]; [simpl; split; lra|]).
  by apply elem_of_nil in Hp.
Qed.

Lemma outboundPhasesOf_forward (s : Q) (phase : TripPhase) :
  0 <= s -> phase ∈ outbound s -> 0 <= start phase /\ start phase <= end_ phase.
Proof.
  intros Hs Hp. unfold outboundPhasesOf, pop, Gantt.tripPhasesOf in Hp. simpl in Hp.
  repeat (apply elem_of_cons in Hp as [->|Hp]; [simpl; split; lra|]).
  by apply elem_of_nil in Hp.
Qed.

Lemma tripsOf_from_zero (i : nat) (log : list Trip) :
  (forall d : Trip, d ∈ log -> 0 <= loadStartTime d) ->
  Forall (fun t => exists s : Q, 0 <= s /\ t = phasesOf s) (tripsFor_ i log).
Proof.
  induction log as [|d rest IH]; intros H; cbn [tripsOf]; [constructor|].
  assert (IH' : Forall (fun t => exists s : Q, 0 <= s /\ t = phasesOf s) (tripsFor_ i rest)).
  { apply IH. intros d' Hd'. apply H. by right. }
  destruct (decide _); [|done]. constructor; [|done].
  exists (loadStartTime d). split; [apply H; left|done].
Qed.

(** The phases drawn for a lorry, the return leg of its last trip
    dropped. *)
Lemma schedule_forward (i : nat) (log : list Trip) (lorry : Lorry.t)
    (trip : list TripPhase) (phase : TripPhase) :
  (forall d : Trip, d ∈ log -> 0 <= loadStartTime d) ->
  Lorry.trips lorry = tripsFor_ i log ->
  trip ∈ Lorry.trips (Gantt.dropFinalReturn lorry) -> phase ∈ trip ->
  0 <= start phase /\ start phase <= end_ phase.
Proof.
  intros Hlog Htr Ht Hp.
  pose proof (tripsOf_from_zero i log Hlog) as HF.
  destruct (tripsOf_snoc loadTimeHours travelTimeHours tipTimeHours i log)
    as [E|(init & s & E)]; rewrite E in Htr, HF.
  - rewrite (dropFinalReturn_nil _ Htr) in Ht. by apply elem_of_nil in Ht.
  - rewrite (dropFinalReturn_snoc _ _ _ _ _ _ Htr) in Ht.
    apply Forall_app in HF as [Hinit Hlast].
    apply elem_of_app in Ht as [Ht|Ht%list_elem_of_singleton].
    + destruct (proj1 (Forall_forall _ _) Hinit trip Ht) as (s' & Hs' & ->).
      by apply (tripPhasesOf_forward s').
    + subst trip. apply Forall_cons_1 in Hlast as [(s' & Hs' & Es) _].
      apply phasesOf_inj in Es as ->. by apply (outboundPhasesOf_forward s').
Qed.
End Bars.

Lemma dispatchAll_from_zero (loadTimeHours travelTimeHours tipTimeHours : Q)
    (n : nat) (k : Z) (d : Trip) :
  0 <= loadTimeHours ->
  d ∈ dispatchAll loadTimeHours travelTimeHours tipTimeHours n (newFleet k) ->
  0 <= loadStartTime d.
Proof.
  intros HL [j Hj]%list_elem_of_lookup.
  apply (chained_lower loadTimeHours _ 0 j d HL
           (dispatchAll_chained loadTimeHours travelTimeHours tipTimeHours n (newFleet k)) Hj).
Qed.

(** X21: every bar of a feasible chart lies on the track.  For a job the
    solver works on, with no negative distance or tipping time, the time
    axis is positive, the deadline marker is on the track, and every phase
    is drawn from its start to its end between 0% and 100%: its width is
    its duration, never cut to 0. *)
Theorem bars_on_track (inputs : CalculatorInputs)
    (advancedSettings : AdvancedSettings) (result : CalculationResult) :
  degenerate inputs advancedSettings = false ->
  0 <= distance inputs ->
  0 <= tipTime advancedSettings ->
  isFeasible result = true ->
  exists (log : list Trip) (chart : Gantt.Chart),
    Gantt.build inputs result advancedSettings = Some (log, chart)
    /\ 0 < Gantt.maxTime chart
    /\ 0 < deadlineLeft (Gantt.maxTime chart) inputs <= 100
    /\ forall (s : LorrySchedule.t) (trip : list TripPhase) (phase : TripPhase),
         s ∈ Gantt.schedules chart -> trip ∈ LorrySchedule.trips s -> phase ∈ trip ->
         0 <= phaseLeft (Gantt.maxTime chart) phase
         /\ phaseWidth (Gantt.maxTime chart) phase
            == (end_ phase - start phase) / Gantt.maxTime chart * 100
         /\ 0 <= phaseWidth (Gantt.maxTime chart) phase
         /\ phaseLeft (Gantt.maxTime chart) phase + phaseWidth (Gantt.maxTime chart) phase
            <= 100.
Proof.
  intros Hdeg Hdist Htip. unfold isFeasible.
  destruct (lorriesNeeded result) as [n|] eqn:Hn; [|done].
  intros Hpos%Z.ltb_lt.
  pose proof (proj1 (degenerate_false _ _) Hdeg) as (_ & Hs0 & Ht0 & Hl0).
  pose proof (loadTimeHoursOf_pos inputs Hl0) as HL.
  pose proof (travelTimeHoursOf_nonneg inputs advancedSettings Hdist Hs0) as HR.
  pose proof (tipTimeHoursOf_nonneg advancedSettings Htip) as HT.
  destruct (build_chart inputs advancedSettings result n Hn Hpos)
    as (y' & _ & Hb & _ & Hlook).
  destruct (latestEnd_spec (time inputs) (Gantt.dropFinalReturn <$> Gantt.lorries y'))
    as (H1 & H2 & _).
  pose proof (Qle_ceiling (Gantt.latestEnd (time inputs)
                             (Gantt.dropFinalReturn <$> Gantt.lorries y'))) as Hc.
  eexists _, _. split; [exact Hb|]. simpl.
  remember (inject_Z (Qceiling (Gantt.latestEnd (time inputs)
                                  (Gantt.dropFinalReturn <$> Gantt.lorries y')))) as mt eqn:Emt.
  assert (Hmt : 0 < mt) by lra.
  split; [exact Hmt|]. split.
  { unfold deadlineLeft. split.
    - apply Qmult_lt_0_compat; [|lra]. apply Qlt_shift_div_l; lra.
    - assert (time inputs / mt <= 1) by (apply Qle_shift_div_r; lra). lra. }
  intros s trip phase (l0 & -> & (lorry & -> & Hl)%list_elem_of_fmap)%list_elem_of_fmap Ht Hp.
  simpl in Ht.
  assert (Hend : end_ phase <= mt).
  { assert (end_ phase <= Gantt.latestEnd (time inputs)
                            (Gantt.dropFinalReturn <$> Gantt.lorries y')).
    { apply (H2 (Gantt.dropFinalReturn lorry) trip phase); [|done|done].
      apply list_elem_of_fmap. by exists lorry. }
    lra. }
  apply list_elem_of_lookup in Hl as [i Hi].
  destruct (Hlook i lorry Hi) as [_ Htr].
  destruct (schedule_forward _ _ _ (Qlt_le_weak _ _ HL) HR HT i _ lorry trip phase
              (fun d Hd => dispatchAll_from_zero _ _ _ _ _ d (Qlt_le_weak _ _ HL) Hd)
              Htr Ht Hp) as [Hstart Hdur].
  assert (Hleft : 0 <= start phase / mt) by (apply Qle_shift_div_l; lra).
  assert (Hw : 0 <= (end_ phase - start phase) / mt) by (apply Qle_shift_div_l; lra).
  assert (Hsum : start phase / mt + (end_ phase - start phase) / mt <= 1).
  { assert (E : start phase / mt + (end_ phase - start phase) / mt == end_ phase / mt).
    { field. lra. }
    rewrite E. apply Qle_shift_div_r; lra. }
  assert (Ewidth : phaseWidth mt phase == (end_ phase - start phase) / mt * 100).
  { unfold phaseWidth.
    destruct (Qgt_bool ((end_ phase - start phase) / mt * 100) 0) eqn:E; [reflexivity|].
    apply Qgt_bool_false in E. lra. }
  unfold phaseLeft. rewrite Ewidth.
  split; [lra|]. split; [reflexivity|]. split; lra.
Qed.

Lemma bars_on_track_witness :
  exists (log : list Trip) (chart : Gantt.Chart),
    Gantt.build defaultInputs defaultResult defaultSettings = Some (log, chart)
    /\ 0 < Gantt.maxTime chart
    /\ 0 < deadlineLeft (Gantt.maxTime chart) defaultInputs <= 100
    /\ forall (s : LorrySchedule.t) (trip : list TripPhase) (phase : TripPhase),
         s ∈ Gantt.schedules chart -> trip ∈ LorrySchedule.trips s -> phase ∈ trip ->
         0 <= phaseLeft (Gantt.maxTime chart) phase
         /\ phaseWidth (Gantt.maxTime chart) phase
            == (end_ phase - start phase) / Gantt.maxTime chart * 100
         /\ 0 <= phaseWidth (Gantt.maxTime chart) phase
         /\ phaseLeft (Gantt.maxTime chart) phase + phaseWidth (Gantt.maxTime chart) phase
            <= 100.
Proof.
  apply (bars_on_track defaultInputs defaultSettings defaultResult);
    [reflexivity|simpl; lra|simpl; lra|reflexivity].
Defined.

(** * What the results card shows *)

(** X22: under an infeasible result the card's advice hangs on one load
    fitting the window.  The achievable target is shown exactly when one
    load duration is within [time + 0.0001]; the required time, though
    always computed, is shown with it and never without it. *)
Theorem advice_needs_one_load (inputs : CalculatorInputs)
    (advancedSettings : AdvancedSettings) (fuel : nat) (r : CalculationResult) :
  degenerate inputs advancedSettings = false ->
  calculationResult inputs advancedSettings fuel = Some r ->
  lorriesNeeded r = Infinity ->
  (ResultsCard.showsAchievable r = true
   <-> loadTime inputs / 60 <= time inputs + (1 # 10000))
  /\ ResultsCard.showsRequiredTime r = ResultsCard.showsAchievable r.
Proof.
  intros Hd Hr Hinf.
  destruct (calculationResult_Infinity _ _ _ _ Hd Hr Hinf) as (Hs & k & Hk & ->).
  destruct (infeasible_branch_values _ _ Hd Hs) as (_ & Hfloor & Hreq).
  pose proof (proj1 (proj1 (lorriesNeededOf_Infinity_iff inputs advancedSettings Hd)) Hs)
    as Hover.
  pose proof (Hfloor fuel k Hk) as Ek. subst k. clear Hfloor Hk Hinf Hr.
  pose proof (proj1 (degenerate_false _ _) Hd) as (Hc & _ & HT & HL%loadTimeHoursOf_pos).
  change (loadTime inputs / 60) with (loadTimeHoursOf inputs).
  set (L := loadTimeHoursOf inputs) in *.
  set (D := time inputs + (1 # 10000)) in *.
  assert (HDL : D / L * L == D).
  { field. intros E. rewrite E in HL. by apply Qlt_irrefl in HL. }
  pose proof (Qfloor_le (D / L)) as Hf1. pose proof (Qlt_floor (D / L)) as Hf2.
  rewrite inject_Z_plus in Hf2. change (inject_Z 1) with 1 in Hf2.
  assert (Hone : (1 <= Qfloor (D / L))%Z <-> L <= D).
  { split.
    - intros H1. rewrite Zle_Qle in H1. change (inject_Z 1) with 1 in H1.
      assert (1 * L <= D / L * L) by (apply Qmult_le_compat_r; lra). lra.
    - intros HLD. assert (H1 : 1 <= D / L) by (apply Qle_shift_div_l; lra).
      assert (H : (0 < Qfloor (D / L) + 1)%Z).
      { rewrite Zlt_Qlt, inject_Z_plus. change (inject_Z 0) with 0.
        change (inject_Z 1) with 1. lra. }
      assert (H' : (1 < Qfloor (D / L) + 1)%Z \/ Qfloor (D / L) = 0%Z) by lia.
      destruct H' as [|E]; [lia|]. rewrite E in Hf2. change (inject_Z 0) with 0 in Hf2. lra. }
  remember (Qfloor (D / L)) as q eqn:Eq. clear Eq.
  assert (Hshow : ResultsCard.showsAchievable (infeasibleResult inputs advancedSettings q)
                  = true <-> L <= D).
  { rewrite <- Hone. unfold ResultsCard.showsAchievable. simpl.
    rewrite Qgt_bool_true. split.
    - intros Hpos.
      assert (H : (0 < q)%Z).
      { rewrite Zlt_Qlt. change (inject_Z 0) with 0.
        destruct (Qlt_le_dec 0 (inject_Z q)) as [|Hle]; [done|]. exfalso.
        nra. }
      lia.
    - intros H1. rewrite Zle_Qle in H1. change (inject_Z 1) with 1 in H1.
      apply Qmult_lt_0_compat; lra. }
  split; [exact Hshow|].
  unfold ResultsCard.showsRequiredTime.
  assert (Ereq : match requiredTime (infeasibleResult inputs advancedSettings q)
                 with Some t => negb (Qeq_bool t 0) | None => false end = true).
  { simpl.
    assert (Hgt : Qgt_bool (requiredTimeOf inputs advancedSettings) (time inputs) = true).
    { apply Qgt_bool_true. rewrite Hreq. unfold D in Hover. lra. }
    rewrite Hgt. apply negb_true_iff, not_true_iff_false. rewrite Qeq_bool_iff, Hreq.
    intros E. unfold D in Hover. lra. }
  rewrite Ereq. apply andb_true_r.
Qed.

Lemma advice_needs_one_load_witness :
  (ResultsCard.showsAchievable (infeasibleResult shortWindow defaultSettings 3) = true
   <-> loadTime shortWindow / 60 <= time shortWindow + (1 # 10000))
  /\ ResultsCard.showsRequiredTime (infeasibleResult shortWindow defaultSettings 3)
     = ResultsCard.showsAchievable (infeasibleResult shortWindow defaultSettings 3).
Proof.
  apply (advice_needs_one_load shortWindow defaultSettings 4).
  - reflexivity.
  - vm_compute. reflexivity.
  - reflexivity.
Defined.
